(** * toukon_elixir: the verification scripts and the build script

    A shallow embedding of the JavaScript tooling of the landing page
    repository, and the properties of its specification:

    - [JsObject]    plain objects used as insertion-ordered maps, and the
                    array methods the scripts call on their entries;
    - [Lighthouse]  the threshold evaluation of [lighthouse-test.js];
    - [Report]      [generateComprehensiveReport] and [generateHTMLReport]
                    of [integration-test.js];
    - [Runner]      [runIntegrationTests] and the entry point of
                    [integration-test.js];
    - [Build]       [minifyCSS] and [minifyJS] of [build.js];
    - [BuildScript] [build] of [build.js];
    - [Browser]     [runBrowserTests] of [browser-test.js];
    - [Deployment]  the verifications and [runDeploymentTests] of
                    [deployment-test.js].

    JavaScript numbers that are produced by a division are IEEE-754 doubles
    and are modelled by Rocq's primitive floats; counts, scores and
    thresholds, which are small integers, are modelled by [Z] and [nat]. *)

From Stdlib Require Import List String Ascii ZArith NArith Bool Arith Lia.
From Stdlib Require Import Floats Uint63 DecimalString.
Import ListNotations.

Set Implicit Arguments.

(* ===================================================================== *)
(** ** Plain objects as insertion-ordered maps *)
(* ===================================================================== *)

Module JsObject.

(** An object whose property names are ordinary names keeps its properties
    in insertion order: [Object.keys], [Object.values] and
    [Object.entries] enumerate them in that order. Ordinary means: not an
    array index, which JavaScript enumerates before the other names, in
    ascending order, and not [__proto__], whose assignment sets the
    prototype and adds no property. The names that the scripts use are
    ordinary: the three suite names, the Lighthouse categories, and the
    browser names [chromium], [firefox] and [webkit] of the configuration. *)
Definition obj (V : Type) : Type := list (string * V).

Definition empty {V : Type} : obj V := [].

(** [o[k]]: the value, or [None] for [undefined]. *)
Fixpoint get {V : Type} (o : obj V) (k : string) : option V :=
  match o with
  | [] => None
  | (k', v) :: o' => if String.eqb k' k then Some v else get o' k
  end.

(** [o[k] = v]: an existing property keeps its place and takes the new
    value, a new property is added at the end. *)
Fixpoint set {V : Type} (o : obj V) (k : string) (v : V) : obj V :=
  match o with
  | [] => [(k, v)]
  | (k', v') :: o' =>
      if String.eqb k' k then (k', v) :: o' else (k', v') :: set o' k v
  end.

Definition keys {V : Type} (o : obj V) : list string := map fst o.
Definition values {V : Type} (o : obj V) : list V := map snd o.
Definition entries {V : Type} (o : obj V) : list (string * V) := o.

(** Property names of an object are pairwise distinct. *)
Definition wf {V : Type} (o : obj V) : Prop := NoDup (keys o).

(** [Array.prototype.every]: stops at the first element that fails. *)
Fixpoint every {A : Type} (p : A -> bool) (l : list A) : bool :=
  match l with
  | [] => true
  | x :: l' => if p x then every p l' else false
  end.

(** *** Facts *)

Lemma every_forall {A : Type} (p : A -> bool) (l : list A) :
  every p l = true <-> forall x, In x l -> p x = true.
Proof.
  induction l as [|a l IH]; simpl.
  - split; [intros _ x [] | reflexivity].
  - destruct (p a) eqn:Ha.
    + rewrite IH. split.
      * intros H x [<-|Hx]; auto.
      * intros H x Hx. apply H. now right.
    + split; [discriminate|].
      intros H. rewrite <- Ha. apply H. now left.
Qed.

Lemma every_fold {A : Type} (p : A -> bool) (l : list A) :
  every p l = fold_right andb true (map p l).
Proof.
  induction l as [|a l IH]; simpl; [reflexivity|].
  rewrite <- IH. now destruct (p a).
Qed.

Lemma get_In {V : Type} (o : obj V) (k : string) (v : V) :
  get o k = Some v -> In (k, v) o.
Proof.
  induction o as [|[k' v'] o IH]; simpl; [discriminate|].
  destruct (String.eqb k' k) eqn:E.
  - apply String.eqb_eq in E. intros [= ->]. subst. now left.
  - intros H. right. now apply IH.
Qed.


Lemma get_None_keys {V : Type} (o : obj V) (k : string) :
  get o k = None <-> ~ In k (keys o).
Proof.
  unfold keys. induction o as [|[k' v'] o IH]; simpl.
  - split; [intros _ [] | reflexivity].
  - destruct (String.eqb k' k) eqn:E.
    + apply String.eqb_eq in E. subst. split; [discriminate|].
      intros H. exfalso. apply H. now left.
    + apply String.eqb_neq in E. rewrite IH. split.
      * intros H [Hk|Hk]; [now apply E | now apply H].
      * intros H Hk. apply H. now right.
Qed.

Lemma keys_set_present {V : Type} (o : obj V) (k : string) (v : V) :
  In k (keys o) -> keys (set o k v) = keys o.
Proof.
  unfold keys. induction o as [|[k' v'] o IH]; simpl; [intros []|].
  intros H. destruct (String.eqb k' k) eqn:E; simpl; [reflexivity|].
  f_equal. apply IH. destruct H as [H|H]; [|exact H].
  apply String.eqb_neq in E. now elim E.
Qed.

Lemma keys_set_absent {V : Type} (o : obj V) (k : string) (v : V) :
  ~ In k (keys o) -> keys (set o k v) = keys o ++ [k].
Proof.
  unfold keys. induction o as [|[k' v'] o IH]; simpl; [reflexivity|].
  intros H. destruct (String.eqb k' k) eqn:E; simpl.
  - apply String.eqb_eq in E. exfalso. apply H. now left.
  - f_equal. apply IH. intros Hk. apply H. now right.
Qed.

Lemma get_set_same {V : Type} (o : obj V) (k : string) (v : V) :
  get (set o k v) k = Some v.
Proof.
  induction o as [|[k' v'] o IH]; simpl.
  - now rewrite String.eqb_refl.
  - destruct (String.eqb k' k) eqn:E; simpl; now rewrite E.
Qed.

Lemma get_set_other {V : Type} (o : obj V) (k k0 : string) (v : V) :
  k0 <> k -> get (set o k v) k0 = get o k0.
Proof.
  intros Hne. induction o as [|[k' v'] o IH]; simpl.
  - destruct (String.eqb k k0) eqn:E; [|reflexivity].
    apply String.eqb_eq in E. now elim Hne.
  - destruct (String.eqb k' k) eqn:E; simpl.
    + apply String.eqb_eq in E. subst k'.
      destruct (String.eqb k k0) eqn:E0; [|reflexivity].
      apply String.eqb_eq in E0. now elim Hne.
    + now rewrite IH.
Qed.

Lemma wf_set {V : Type} (o : obj V) (k : string) (v : V) :
  wf o -> wf (set o k v).
Proof.
  unfold wf. intros H.
  destruct (in_dec string_dec k (keys o)) as [Hin|Hout].
  - now rewrite keys_set_present.
  - rewrite keys_set_absent by assumption.
    apply NoDup_app; [exact H | repeat constructor; intros [] | ].
    intros x Hx [<-|[]]. now apply Hout.
Qed.

Lemma In_set {V : Type} (o : obj V) (k k0 : string) (v v0 : V) :
  In (k0, v0) (set o k v) -> (k0 = k /\ v0 = v) \/ In (k0, v0) o.
Proof.
  induction o as [|[k' v'] o IH]; simpl.
  - intros [[= <- <-]|[]]. now left.
  - destruct (String.eqb k' k) eqn:E; simpl.
    + apply String.eqb_eq in E. subst k'.
      intros [[= <- <-]|H]; [now left | right; now right].
    + intros [H|H]; [right; now left|].
      destruct (IH H) as [H'|H']; [now left | right; now right].
Qed.

End JsObject.

(* ===================================================================== *)
(** ** lighthouse-test.js: the threshold evaluation *)
(* ===================================================================== *)

Module Lighthouse.
Import JsObject.
Local Open Scope Z_scope.

(** Scores are [Math.round(score * 100)] of the audit's categories and
    thresholds are the integers of the configuration: both are modelled
    by [Z]. *)
Record Config : Type := {
  url : string;
  outputDir : string;
  thresholds : obj Z
}.

Definition CONFIG : Config := {|
  url := "http://localhost:8000";
  outputDir := "./lighthouse-reports";
  thresholds := [("performance"%string, 90); ("accessibility"%string, 95);
                 ("bestPractices"%string, 90); ("seo"%string, 95)]
|}.

(** [score >= threshold], where [threshold] is [CONFIG.thresholds[category]]:
    a number, or [undefined] when the configuration has no such property.
    [undefined] converts to [NaN], and every comparison with [NaN] is
    false. *)
Definition ge (score : Z) (threshold : option Z) : bool :=
  match threshold with
  | Some t => t <=? score
  | None => false
  end.

(** A line of the results display:
    [`${status} ${categoryName}: ${score}/100 (threshold: ${threshold})`],
    with [status] the check mark ([true]) or the cross ([false]). *)
Record score_line : Type := {
  line_status : bool;
  line_category : string;
  line_score : Z;
  line_threshold : option Z
}.

(** The per-category verdicts of the display loop (lines 85-87):
    [const threshold = CONFIG.thresholds[category];
     const status = score >= threshold ? ... ]. *)
Definition evaluate (T S : obj Z) : obj bool :=
  map (fun '(category, score) =>
         let threshold := get T category in
         (category, ge score threshold))
      (entries S).

(** [Object.entries(scores).forEach(([category, score]) => ...)] *)
Definition displayResults (T S : obj Z) : list score_line :=
  map (fun '(category, score) =>
         let threshold := get T category in
         let status := ge score threshold in
         {| line_status := status; line_category := category;
            line_score := score; line_threshold := threshold |})
      (entries S).

(** [Object.entries(scores).every(([category, score]) =>
       score >= CONFIG.thresholds[category])] *)
Definition allPassed (T S : obj Z) : bool :=
  every (fun '(category, score) => ge score (get T category)) (entries S).

(** What the world outside the script decides during one audit. *)
Record AuditEnv : Type := {
  serverAccessible : bool;          (* the [curl] probe succeeds *)
  lighthouseError : option string;  (* [execSync(lighthouseCmd)] throws *)
  reportScores : option (Z * Z * Z * Z);
      (* the four rounded category scores; [None] when reading or parsing
         the report, or reading a category of it, throws *)
  vitalsError : option string       (* the metrics display (93-127) throws *)
}.

Inductive outcome (A : Type) : Type :=
| Returned (a : A)
| Exited (code : Z).
Arguments Returned {A} a.
Arguments Exited {A} code.

Definition scoresOf (r : Z * Z * Z * Z) : obj Z :=
  let '(performance, accessibility, bestPractices, seo) := r in
  [("performance"%string, performance); ("accessibility"%string, accessibility);
   ("bestPractices"%string, bestPractices); ("seo"%string, seo)].

(** [runLighthouseAudit]: the server probe exits the process with 1; any
    exception after it is caught and the audit returns [false]; otherwise
    the result is [allPassed]. *)
Definition runLighthouseAudit (cfg : Config) (env : AuditEnv) : outcome bool :=
  if negb (serverAccessible env) then Exited 1
  else match lighthouseError env with
       | Some _ => Returned false
       | None =>
           match reportScores env with
           | None => Returned false
           | Some r =>
               let scores := scoresOf r in
               match vitalsError env with
               | Some _ => Returned false
               | None =>
                   if allPassed (thresholds cfg) scores then Returned true
                   else Returned false
               end
           end
       end.

(** *** Facts *)

Lemma get_evaluate (T S : obj Z) (c : string) :
  get (evaluate T S) c = option_map (fun s => ge s (get T c)) (get S c).
Proof.
  unfold evaluate, entries.
  induction S as [|[k v] S IH]; simpl; [reflexivity|].
  destruct (String.eqb k c) eqn:E; [|exact IH].
  apply String.eqb_eq in E. now subst.
Qed.

Lemma displayResults_evaluate (T S : obj Z) :
  map (fun l => (line_category l, line_status l)) (displayResults T S)
  = evaluate T S.
Proof.
  unfold displayResults, evaluate. rewrite map_map.
  apply map_ext. now intros [k v].
Qed.

Lemma allPassed_evaluate (T S : obj Z) :
  allPassed T S = fold_right andb true (values (evaluate T S)).
Proof.
  unfold allPassed, values, evaluate, entries.
  rewrite every_fold, map_map. f_equal.
  apply map_ext. now intros [k v].
Qed.

(** C1. For a category [c] that the score set [S] and the threshold
    configuration [T] share, the verdict of [c] is true exactly when
    [S[c] >= T[c]]; the overall result [allPassed] is the conjunction of
    the verdicts of all the categories of [S]: it is true exactly when
    every verdict is true. *)
Theorem threshold_evaluation (T S : obj Z) (c : string) (s t : Z)
    (HS : get S c = Some s) (HT : get T c = Some t) :
  (get (evaluate T S) c = Some true <-> s >= t)
  /\ allPassed T S = fold_right andb true (values (evaluate T S))
  /\ (allPassed T S = true <->
      forall c' v, In (c', v) (evaluate T S) -> v = true).
Proof.
  split; [|split].
  - rewrite get_evaluate, HS, HT. simpl. split.
    + intros [= H]. apply Z.leb_le in H. lia.
    + intros H. f_equal. apply Z.leb_le. lia.
  - apply allPassed_evaluate.
  - unfold allPassed, evaluate, entries. rewrite every_forall. split.
    + intros H c' v Hin. apply in_map_iff in Hin as [[k x] [[= <- <-] Hin]].
      exact (H (k, x) Hin).
    + intros H [k x] Hin. apply (H k).
      apply in_map_iff. now exists (k, x).
Qed.

Lemma threshold_evaluation_witness :
  (get (evaluate (thresholds CONFIG) (scoresOf (92, 94, 100, 95))) "seo"
     = Some true <-> 95 >= 95)
  /\ allPassed (thresholds CONFIG) (scoresOf (92, 94, 100, 95)) = false.
Proof.
  destruct (@threshold_evaluation (thresholds CONFIG)
              (scoresOf (92, 94, 100, 95)) "seo" 95 95 eq_refl eq_refl)
    as [H _].
  split; [exact H | reflexivity].
Defined.

(** C5, as the specification states it, fails: a category of the score set
    that has no threshold does make the overall result false, although
    every category that has a threshold meets it. *)
Lemma unconstrained_category_counterexample :
  ~ (forall (T S : obj Z) (c : string) (s : Z),
        get S c = Some s -> get T c = None ->
        (forall c' s', In (c', s') S -> c' <> c -> ge s' (get T c') = true) ->
        get (evaluate T S) c <> Some false /\ allPassed T S = true).
Proof.
  intros H.
  destruct (H (thresholds CONFIG)
              [("performance"%string, 100); ("pwa"%string, 100)]
              "pwa"%string 100 eq_refl eq_refl) as [Hv _].
  - intros c' s' [[= <- <-]|[[= <- <-]|[]]] Hne; [reflexivity | now elim Hne].
  - now apply Hv.
Qed.

(** C5, amended. A category of the score set that is absent from the
    threshold configuration is compared with [undefined]: its verdict is
    false, whatever its score, and the overall result is false. *)
Theorem missing_threshold_fails (T S : obj Z) (c : string) (s : Z)
    (HS : get S c = Some s) (HT : get T c = None) :
  get (evaluate T S) c = Some false /\ allPassed T S = false.
Proof.
  split.
  - now rewrite get_evaluate, HS, HT.
  - apply not_true_is_false. unfold allPassed. rewrite every_forall.
    intros H. apply get_In in HS. specialize (H (c, s) HS).
    simpl in H. now rewrite HT in H.
Qed.

Lemma missing_threshold_fails_witness :
  get (evaluate (thresholds CONFIG)
         [("performance"%string, 100); ("pwa"%string, 100)]) "pwa"
    = Some false
  /\ allPassed (thresholds CONFIG)
       [("performance"%string, 100); ("pwa"%string, 100)] = false.
Proof.
  exact (@missing_threshold_fails (thresholds CONFIG)
           [("performance"%string, 100); ("pwa"%string, 100)]
           "pwa" 100 eq_refl eq_refl).
Defined.

(** The audit as a whole returns [true] only through [allPassed]. *)
Lemma runLighthouseAudit_true (cfg : Config) (env : AuditEnv) :
  runLighthouseAudit cfg env = Returned true <->
  serverAccessible env = true /\ lighthouseError env = None /\
  vitalsError env = None /\
  exists r, reportScores env = Some r /\
            allPassed (thresholds cfg) (scoresOf r) = true.
Proof.
  unfold runLighthouseAudit.
  destruct (serverAccessible env); simpl.
  2:{ split; [discriminate | intros [H _]; discriminate]. }
  destruct (lighthouseError env).
  { split; [discriminate | intros (_ & H & _); discriminate]. }
  destruct (reportScores env) as [r|].
  2:{ split; [discriminate | intros (_ & _ & _ & r & H & _); discriminate]. }
  destruct (vitalsError env).
  { split; [discriminate | intros (_ & _ & H & _); discriminate]. }
  destruct (allPassed (thresholds cfg) (scoresOf r)) eqn:E.
  - split; [|reflexivity]. intros _. repeat split. exists r. now split.
  - split; [discriminate|]. intros (_ & _ & _ & r' & [= <-] & H). congruence.
Qed.

(** *** The audit as a script *)

(** The entry point (lines 148-158):
    [runLighthouseAudit().then(success => process.exit(success ? 0 : 1))];
    the audit catches what it throws, so the promise is never rejected. *)
Definition main (cfg : Config) (env : AuditEnv) : Z :=
  match runLighthouseAudit cfg env with
  | Returned success => if success then 0 else 1
  | Exited code => code
  end.

Lemma allPassed_CONFIG (performance accessibility bestPractices seo : Z) :
  allPassed (thresholds CONFIG)
    (scoresOf (performance, accessibility, bestPractices, seo)) = true
  <-> 90 <= performance /\ 95 <= accessibility
      /\ 90 <= bestPractices /\ 95 <= seo.
Proof.
  unfold allPassed, scoresOf, entries. simpl. rewrite <- !Z.leb_le.
  destruct (90 <=? performance), (95 <=? accessibility),
    (90 <=? bestPractices), (95 <=? seo); simpl; intuition discriminate.
Qed.

(** X1. With the thresholds of the script, the exit code of the audit is 0 or
    1, and it is 0 exactly when the server answers, the audit runs, its
    report can be read and displayed, and the four rounded scores are at
    least 90 for performance, 95 for accessibility, 90 for best practices
    and 95 for SEO. *)
Theorem audit_exit_code (env : AuditEnv) :
  (main CONFIG env = 0 \/ main CONFIG env = 1)
  /\ (main CONFIG env = 0 <->
      serverAccessible env = true /\ lighthouseError env = None
      /\ vitalsError env = None
      /\ exists performance accessibility bestPractices seo,
           reportScores env
           = Some (performance, accessibility, bestPractices, seo)
           /\ 90 <= performance /\ 95 <= accessibility
           /\ 90 <= bestPractices /\ 95 <= seo).
Proof.
  assert (Hcode : main CONFIG env = 0
                  <-> runLighthouseAudit CONFIG env = Returned true).
  { unfold main. destruct (runLighthouseAudit CONFIG env) as [[|]|c] eqn:E.
    - split; reflexivity.
    - split; discriminate.
    - unfold runLighthouseAudit in E.
      destruct (serverAccessible env); simpl in E.
      + destruct (lighthouseError env); [discriminate|].
        destruct (reportScores env); [|discriminate].
        destruct (vitalsError env); [discriminate|].
        destruct (allPassed _ _); discriminate.
      + injection E as <-. split; discriminate. }
  split.
  - unfold main, runLighthouseAudit.
    destruct (serverAccessible env); simpl; [|now right].
    destruct (lighthouseError env); [now right|].
    destruct (reportScores env); [|now right].
    destruct (vitalsError env); [now right|].
    destruct (allPassed _ _); auto.
  - rewrite Hcode, runLighthouseAudit_true. split.
    + intros (H1 & H2 & H3 & [[[p a] b] s] & H4 & H5).
      apply allPassed_CONFIG in H5. repeat split; auto.
      exists p, a, b, s. tauto.
    + intros (H1 & H2 & H3 & p & a & b & s & H4 & H5).
      repeat split; auto. exists (p, a, b, s). split; [exact H4|].
      now apply allPassed_CONFIG.
Qed.

(** *** Better scores, lower thresholds *)

(** [S'] has the categories of [S], in the same order, with scores that
    are at least as high. *)
Definition improves (S S' : obj Z) : Prop :=
  Forall2 (fun e e' => fst e = fst e' /\ snd e <= snd e') S S'.

(** Every threshold of [T] is a threshold of [T'] that is not higher. *)
Definition relaxes (T T' : obj Z) : Prop :=
  forall c t, get T c = Some t -> exists t', get T' c = Some t' /\ t' <= t.

(** X2. The overall result is monotone: if a score set passes, then so does
    every score set of the same categories with scores at least as high,
    also against thresholds that are not higher. *)
Theorem allPassed_monotone (T T' S S' : obj Z)
    (Hscores : improves S S') (Hthresholds : relaxes T T')
    (Hpassed : allPassed T S = true) :
  allPassed T' S' = true.
Proof.
  unfold allPassed, entries in *.
  induction Hscores as [|[c s] [c' s'] S S' [Hc Hs] _ IH]; [reflexivity|].
  simpl in Hc, Hs. subst c'. simpl in Hpassed |- *.
  destruct (ge s (get T c)) eqn:E; [|discriminate].
  unfold ge in E. destruct (get T c) as [t|] eqn:Ht; [|discriminate].
  destruct (Hthresholds c t Ht) as (t' & -> & Hle).
  apply Z.leb_le in E. simpl.
  replace (t' <=? s') with true by (symmetry; apply Z.leb_le; lia).
  now apply IH.
Qed.

Lemma allPassed_monotone_witness :
  allPassed (thresholds CONFIG) (scoresOf (92, 96, 100, 99)) = true.
Proof.
  apply (@allPassed_monotone (thresholds CONFIG) (thresholds CONFIG)
           (scoresOf (90, 95, 90, 95)) (scoresOf (92, 96, 100, 99))).
  - unfold improves, scoresOf. repeat constructor; simpl; lia.
  - intros c t H. exists t. split; [exact H | lia].
  - reflexivity.
Defined.

End Lighthouse.

(* ===================================================================== *)
(** ** integration-test.js: the report *)
(* ===================================================================== *)

Module Report.
Import JsObject.
Local Open Scope string_scope.

(** *** Numbers *)

(** The values [Math.round] returns: an integer, [NaN] or an infinity
    (the sign of a zero, which neither [===] nor the renderings below can
    see, is dropped). *)
Inductive jsint : Type :=
| Int (z : Z)
| NaN
| Infinity (negative : bool).

(** The number value of a [length]: exact, a length is below [2^32]. *)
Definition num (n : nat) : float := of_uint63 (Uint63.of_Z (Z.of_nat n)).

(** [Math.round(x)]: the integer closest to [x], the larger one on a tie,
    computed on the exact value [m * 2^e] of the double. *)
Definition Math_round (x : float) : jsint :=
  match Prim2SF x with
  | S754_zero _ => Int 0
  | S754_infinity s => Infinity s
  | S754_nan => NaN
  | S754_finite s m e =>
      let v := if s then Z.neg m else Z.pos m in
      Int (if (0 <=? e)%Z then v * 2 ^ e
           else (2 * v + 2 ^ (- e)) / 2 ^ (1 - e))%Z
  end.

(** [String(n)] for the integers below [10^21] and the special values. *)
Definition numberToString (n : jsint) : string :=
  match n with
  | Int z => NilZero.string_of_int (Z.to_int z)
  | NaN => "NaN"
  | Infinity false => "Infinity"
  | Infinity true => "-Infinity"
  end.

(** [round(n / d)] on the exact quotient, a tie rounded up: what
    [Math.round] gives when nothing is lost before it. *)
Definition round_half_up (n d : Z) : Z := ((2 * n + d) / (2 * d))%Z.

(** *** Suite results and the summary *)

(** A suite result is a plain object with string properties:
    [status], [description] and optionally [error] or [details]. *)
Definition SuiteResult : Type := obj string.

(** [r.status === s] *)
Definition statusIs (s : string) (r : SuiteResult) : bool :=
  match get r "status" with
  | Some x => String.eqb x s
  | None => false
  end.

Record Summary : Type := {
  totalTestSuites : nat;
  passed : nat;
  failed : nat;
  skipped : nat;
  overallScore : jsint
}.

(** [totalTests > 0 ? Math.round((passedTests / totalTests) * 100) : 0] *)
Definition score (passedTests totalTests : nat) : jsint :=
  if (0 <? totalTests)%nat
  then Math_round (PrimFloat.mul (PrimFloat.div (num passedTests) (num totalTests))
                                 (num 100))
  else Int 0.

(** The [summary] of [generateComprehensiveReport] (lines 109-125). *)
Definition summarize (results : obj SuiteResult) : Summary :=
  let totalTestSuites := List.length (keys results) in
  let passed := List.length (filter (statusIs "PASSED") (values results)) in
  let failed := List.length (filter (statusIs "FAILED") (values results)) in
  let skipped := List.length (filter (statusIs "SKIPPED") (values results)) in
  {| totalTestSuites := totalTestSuites;
     passed := passed;
     failed := failed;
     skipped := skipped;
     overallScore := score passed totalTestSuites |}.

Record Environment : Type := {
  node : string;       (* process.version *)
  platform : string;   (* process.platform *)
  arch : string        (* process.arch *)
}.

Record ReportT : Type := {
  timestamp : string;
  testSuite : string;
  environment : Environment;
  results : obj SuiteResult;
  summary : Summary;
  requirements : obj string
}.

(** The [report] object of [generateComprehensiveReport], for the instant
    [timestamp] of [new Date().toISOString()]. *)
Definition buildReport (timestamp : string) (env : Environment)
    (results : obj SuiteResult) : ReportT :=
  {| timestamp := timestamp;
     testSuite := "Integration Tests - 闘魂Elixir Landing Page";
     environment := env;
     results := results;
     summary := summarize results;
     requirements :=
       [("2.1", "GitHub Actions自動デプロイ");
        ("2.2", "カスタムドメインHTTPS接続");
        ("5.1", "3秒以内のファーストビュー表示")] |}.

(** *** The machine-readable rendering: [JSON.stringify(report, null, 2)] *)

Definition dq : string := String (ascii_of_nat 34) "".
Definition nl : string := String (ascii_of_nat 10) "".
Definition q (s : string) : string := dq ++ s ++ dq.

#[warnings="-register-all"]
Inductive json : Type :=
| JString (s : string)
| JNumber (n : jsint)
| JObject (properties : list (string * json)).

Definition hexDigit (n : nat) : ascii :=
  match n with
  | 0 => "0" | 1 => "1" | 2 => "2" | 3 => "3" | 4 => "4" | 5 => "5"
  | 6 => "6" | 7 => "7" | 8 => "8" | 9 => "9" | 10 => "a" | 11 => "b"
  | 12 => "c" | 13 => "d" | 14 => "e" | _ => "f"
  end%char.

(** One unit of [QuoteJSONString]. Strings are the UTF-8 text the report
    file holds: the bytes of a character above U+007F pass unchanged. *)
Definition escapeChar (c : ascii) : string :=
  let n := nat_of_ascii c in
  if (n =? 34)%nat then String "\" dq
  else if (n =? 92)%nat then "\\"
  else if (n =? 8)%nat then "\b"
  else if (n =? 12)%nat then "\f"
  else if (n =? 10)%nat then "\n"
  else if (n =? 13)%nat then "\r"
  else if (n =? 9)%nat then "\t"
  else if (n <? 32)%nat
       then "\u00" ++ String (hexDigit (n / 16)) (String (hexDigit (n mod 16)) "")
  else String c "".

Fixpoint escape (s : string) : string :=
  match s with
  | EmptyString => ""
  | String c s' => escapeChar c ++ escape s'
  end.

Definition quoteJSON (s : string) : string := q (escape s).

(** [xs.join(sep)] *)
Fixpoint join (sep : string) (xs : list string) : string :=
  match xs with
  | [] => ""
  | [x] => x
  | x :: xs' => x ++ sep ++ join sep xs'
  end.

(** [SerializeJSONProperty] with the gap of two spaces; [indent] is the
    current indentation. A number that is not finite is [null]. *)
Fixpoint serialize (indent : string) (v : json) {struct v} : string :=
  match v with
  | JString s => quoteJSON s
  | JNumber (Int z) => numberToString (Int z)
  | JNumber _ => "null"
  | JObject properties =>
      let stepback := indent in
      let indent := indent ++ "  " in
      let partial :=
        (fix members (ps : list (string * json)) : list string :=
           match ps with
           | [] => []
           | (k, x) :: ps' =>
               (quoteJSON k ++ ": " ++ serialize indent x) :: members ps'
           end) properties in
      match partial with
      | [] => "{}"
      | _ => "{" ++ nl ++ indent ++ join ("," ++ nl ++ indent) partial
                 ++ nl ++ stepback ++ "}"
      end
  end.

Definition jsonOfStrings (o : obj string) : json :=
  JObject (map (fun '(k, v) => (k, JString v)) (entries o)).

Definition jsonOfNat (n : nat) : json := JNumber (Int (Z.of_nat n)).

Definition jsonOfReport (report : ReportT) : json :=
  JObject
    [("timestamp", JString (timestamp report));
     ("testSuite", JString (testSuite report));
     ("environment",
       JObject [("node", JString (node (environment report)));
                ("platform", JString (platform (environment report)));
                ("arch", JString (arch (environment report)))]);
     ("results",
       JObject (map (fun '(test, result) => (test, jsonOfStrings result))
                    (entries (results report))));
     ("summary",
       JObject [("totalTestSuites", jsonOfNat (totalTestSuites (summary report)));
                ("passed", jsonOfNat (passed (summary report)));
                ("failed", jsonOfNat (failed (summary report)));
                ("skipped", jsonOfNat (skipped (summary report)));
                ("overallScore", JNumber (overallScore (summary report)))]);
     ("requirements", jsonOfStrings (requirements report))].

(** [JSON.stringify(report, null, 2)] *)
Definition renderJSON (report : ReportT) : string :=
  serialize "" (jsonOfReport report).

(** *** The human-readable rendering: [generateHTMLReport] *)

(** [`${v}`] for a property that may be [undefined]. *)
Definition interpolate (v : option string) : string :=
  match v with
  | Some s => s
  | None => "undefined"
  end.

(** [v ? ... : ...] for a property that holds a string when it exists:
    [undefined] and the empty string are falsy. *)
Definition truthy (v : option string) : bool :=
  match v with
  | Some s => negb (String.eqb s "")
  | None => false
  end.

Definition statusIcon (status : option string) : string :=
  match status with
  | Some s =>
      if String.eqb s "PASSED" then "✅"
      else if String.eqb s "FAILED" then "❌"
      else if String.eqb s "SKIPPED" then "⏭️"
      else "❓"
  | None => "❓"
  end.

Definition statusColor (status : option string) : string :=
  match status with
  | Some s =>
      if String.eqb s "PASSED" then "#22c55e"
      else if String.eqb s "FAILED" then "#ef4444"
      else if String.eqb s "SKIPPED" then "#f59e0b"
      else "#6b7280"
  | None => "#6b7280"
  end.

(** [${result.error ? `<p ...>Error: ${result.error}</p>` : ''}] *)
Definition renderError (result : SuiteResult) : string :=
  if truthy (get result "error")
  then "<p style=" ++ dq ++ "color: #ef4444; font-size: 0.9em;" ++ dq ++ ">Error: "
       ++ interpolate (get result "error") ++ "</p>"
  else "".

(** [${result.details ? `<p ...>${result.details}</p>` : ''}] *)
Definition renderDetails (result : SuiteResult) : string :=
  if truthy (get result "details")
  then "<p style=" ++ dq ++ "color: #6b7280; font-size: 0.9em;" ++ dq ++ ">"
       ++ interpolate (get result "details") ++ "</p>"
  else "".

(** The item of one suite: the body of the [map] over
    [Object.entries(report.results)]. *)
Definition renderResult (entry : string * SuiteResult) : string :=
  let '(test, result) := entry in
  "
            <div class=" ++ dq ++ "result-item" ++ dq ++ ">
                <div class=" ++ dq ++ "result-info" ++ dq ++ ">
                    <h3>" ++ statusIcon (get result "status") ++ " " ++ test ++ "</h3>
                    <p>" ++ interpolate (get result "description") ++ "</p>
                    " ++ renderError result ++ "
                    " ++ renderDetails result ++ "
                </div>
                <div class=" ++ dq ++ "result-status" ++ dq ++ " style=" ++ dq ++ "background-color: " ++ statusColor (get result "status") ++ dq ++ ">
                    " ++ interpolate (get result "status") ++ "
                </div>
            </div>
        ".

Definition renderRequirement (entry : string * string) : string :=
  let '(req, desc) := entry in
  "
                <li><strong>" ++ req ++ ":</strong> " ++ desc ++ "</li>
            ".

Definition natToString (n : nat) : string := numberToString (Int (Z.of_nat n)).


(** The fixed text of the page, between the interpolations. *)

Definition html_head : string :=
  "
<!DOCTYPE html>
<html lang=" ++ q "ja" ++ ">
<head>
    <meta charset=" ++ q "UTF-8" ++ ">
    <meta name=" ++ q "viewport" ++ " content=" ++ q "width=device-width, initial-scale=1.0" ++ ">
    <title>Integration Test Report - 闘魂Elixir</title>
    <style>
        body {
            font-family: -apple-system, BlinkMacSystemFont, 'Segoe UI', Roboto, sans-serif;
            line-height: 1.6;
            color: #333;
            max-width: 1200px;
            margin: 0 auto;
            padding: 20px;
            background: #f8fafc;
        }
        .header {
            background: linear-gradient(135deg, #ff5b2e, #ffd166);
            color: white;
            padding: 30px;
            border-radius: 12px;
            margin-bottom: 30px;
            text-align: center;
        }
        .summary {
            display: grid;
            grid-template-columns: repeat(auto-fit, minmax(200px, 1fr));
            gap: 20px;
            margin-bottom: 30px;
        }
        .summary-card {
            background: white;
            padding: 20px;
            border-radius: 8px;
            box-shadow: 0 2px 4px rgba(0,0,0,0.1);
            text-align: center;
        }
        .summary-card h3 {
            margin: 0 0 10px 0;
            font-size: 2em;
            font-weight: bold;
        }
        .results {
            background: white;
            border-radius: 8px;
            box-shadow: 0 2px 4px rgba(0,0,0,0.1);
            overflow: hidden;
        }
        .result-item {
            padding: 20px;
            border-bottom: 1px solid #e5e7eb;
            display: flex;
            align-items: center;
            justify-content: space-between;
        }
        .result-item:last-child {
            border-bottom: none;
        }
        .result-info {
            flex: 1;
        }
        .result-status {
            padding: 6px 12px;
            border-radius: 20px;
            font-weight: bold;
            color: white;
        }
        .requirements {
            background: white;
            padding: 20px;
            border-radius: 8px;
            box-shadow: 0 2px 4px rgba(0,0,0,0.1);
            margin-top: 30px;
        }
        .timestamp {
            text-align: center;
            color: #6b7280;
            margin-top: 30px;
            font-size: 0.9em;
        }
    </style>
</head>
<body>
    <div class=" ++ q "header" ++ ">
        <h1>🔥 Integration Test Report</h1>
        <h2>闘魂Elixir Landing Page</h2>
        <p>Overall Score: ".

Definition html_passed_card : string :=
  "%</p>
    </div>
    
    <div class=" ++ q "summary" ++ ">
        <div class=" ++ q "summary-card" ++ ">
            <h3 style=" ++ q "color: #22c55e" ++ ">".

Definition html_failed_card : string :=
  "</h3>
            <p>Tests Passed</p>
        </div>
        <div class=" ++ q "summary-card" ++ ">
            <h3 style=" ++ q "color: #ef4444" ++ ">".

Definition html_skipped_card : string :=
  "</h3>
            <p>Tests Failed</p>
        </div>
        <div class=" ++ q "summary-card" ++ ">
            <h3 style=" ++ q "color: #f59e0b" ++ ">".

Definition html_total_card : string :=
  "</h3>
            <p>Tests Skipped</p>
        </div>
        <div class=" ++ q "summary-card" ++ ">
            <h3>".

Definition html_results_open : string :=
  "</h3>
            <p>Total Test Suites</p>
        </div>
    </div>
    
    <div class=" ++ q "results" ++ ">
        <h2 style=" ++ q "padding: 20px; margin: 0; background: #f8fafc; border-bottom: 1px solid #e5e7eb;" ++ ">Test Results</h2>
        ".

Definition html_requirements_open : string :=
  "
    </div>
    
    <div class=" ++ q "requirements" ++ ">
        <h2>Requirements Coverage</h2>
        <ul>
            ".

Definition html_timestamp_open : string :=
  "
        </ul>
    </div>
    
    <div class=" ++ q "timestamp" ++ ">
        Generated on ".

Definition html_close : string :=
  "
    </div>
</body>
</html>
  ".

Section Html.

(** [new Date(timestamp).toLocaleString('ja-JP')]: the local rendering of
    the instant, which depends on the time zone of the host. *)
Variable toLocaleString : string -> string.

Definition generateHTMLReport (report : ReportT) : string :=
  html_head ++ numberToString (overallScore (summary report))
  ++ html_passed_card ++ natToString (passed (summary report))
  ++ html_failed_card ++ natToString (failed (summary report))
  ++ html_skipped_card ++ natToString (skipped (summary report))
  ++ html_total_card ++ natToString (totalTestSuites (summary report))
  ++ html_results_open
  ++ join "" (map renderResult (entries (results report)))
  ++ html_requirements_open
  ++ join "" (map renderRequirement (entries (requirements report)))
  ++ html_timestamp_open ++ toLocaleString (timestamp report)
  ++ html_close.

End Html.

(** *** Facts about the summary *)

(** The status of a well-formed suite result is one of the three. *)
Definition validStatus (r : SuiteResult) : bool :=
  statusIs "PASSED" r || statusIs "FAILED" r || statusIs "SKIPPED" r.

Lemma statusIs_exclusive (r : SuiteResult) :
  validStatus r = true ->
  (if statusIs "PASSED" r then 1 else 0)
  + (if statusIs "FAILED" r then 1 else 0)
  + (if statusIs "SKIPPED" r then 1 else 0) = 1.
Proof.
  unfold validStatus, statusIs.
  destruct (get r "status") as [s|]; [|discriminate].
  destruct (String.eqb s "PASSED") eqn:E1.
  { apply String.eqb_eq in E1. now subst s. }
  destruct (String.eqb s "FAILED") eqn:E2.
  { apply String.eqb_eq in E2. now subst s. }
  destruct (String.eqb s "SKIPPED") eqn:E3; [reflexivity | discriminate].
Qed.

Lemma length_filter_cons {A : Type} (p : A -> bool) (x : A) (l : list A) :
  List.length (filter p (x :: l))
  = (if p x then 1 else 0) + List.length (filter p l).
Proof. simpl. now destruct (p x). Qed.

Lemma counts_partition (rs : list SuiteResult) :
  (forall r, In r rs -> validStatus r = true) ->
  List.length (filter (statusIs "PASSED") rs)
  + List.length (filter (statusIs "FAILED") rs)
  + List.length (filter (statusIs "SKIPPED") rs) = List.length rs.
Proof.
  induction rs as [|r rs IH]; intros H; [reflexivity|].
  rewrite !length_filter_cons.
  pose proof (statusIs_exclusive r (H r (or_introl eq_refl))) as Hr.
  assert (IH' := IH (fun x Hx => H x (or_intror Hx))).
  simpl List.length. lia.
Qed.

Lemma length_filter_le {A : Type} (p : A -> bool) (l : list A) :
  List.length (filter p l) <= List.length l.
Proof.
  induction l as [|x l IH]; [apply Nat.le_refl|].
  rewrite length_filter_cons. simpl List.length. destruct (p x); lia.
Qed.

Example Math_round_tie_up : Math_round 2.5%float = Int 3.
Proof. reflexivity. Qed.

Example Math_round_negative_tie : Math_round (-2.5)%float = Int (-2).
Proof. reflexivity. Qed.

Example score_one_of_three : score 1 3 = Int 33.
Proof. reflexivity. Qed.

Example score_23_of_40 :
  PrimFloat.mul (PrimFloat.div (num 23) (num 40)) (num 100)
  = 0x1.cbfffffffffffp+5%float   (* 57.49999999999999 *)
  /\ score 23 40 = Int 57 /\ round_half_up (100 * 23) 40 = 58%Z.
Proof. repeat split; reflexivity. Qed.

(** Up to 39 suites the double arithmetic of the score loses nothing:
    checked on every pair [passed <= total]. *)
Definition score_exact (p t : nat) : bool :=
  match score p t with
  | Int z => (z =? round_half_up (100 * Z.of_nat p) (Z.of_nat t))%Z
  | _ => false
  end.

Lemma score_exact_table :
  forallb (fun t => forallb (fun p => score_exact p t) (seq 0 (S t)))
          (seq 1 39) = true.
Proof. vm_compute. reflexivity. Qed.

Lemma score_small (p t : nat) :
  p <= t -> 1 <= t <= 39 ->
  score p t = Int (round_half_up (100 * Z.of_nat p) (Z.of_nat t)).
Proof.
  intros Hp Ht.
  pose proof score_exact_table as H.
  rewrite forallb_forall in H.
  assert (Hin : In t (seq 1 39)) by (apply in_seq; lia).
  specialize (H t Hin). rewrite forallb_forall in H.
  assert (Hin' : In p (seq 0 (S t))) by (apply in_seq; lia).
  specialize (H p Hin'). unfold score_exact in H.
  destruct (score p t) as [z| |]; try discriminate.
  apply Z.eqb_eq in H. now subst.
Qed.

(** Forty suites and more. Up to 39 suites the score is the exact rounding;
    from 40 on the double of [(p / t) * 100] can lie just below an exact
    tie, as for 23 of 40, and then [Math.round] gives one less. *)

(** An exact tie: [100 * p / t] lies halfway between two integers. *)
Definition tie (p t : nat) : bool :=
  ((200 * Z.of_nat p) mod (2 * Z.of_nat t) =? Z.of_nat t)%Z.

(** [Math_round], its powers of two written as shifts. *)
Definition roundShift (x : float) : jsint :=
  match Prim2SF x with
  | S754_zero _ => Int 0
  | S754_infinity s => Infinity s
  | S754_nan => NaN
  | S754_finite s m e =>
      let v := if s then Z.neg m else Z.pos m in
      Int (if (0 <=? e)%Z then v * 2 ^ e
           else Z.shiftr (2 * v + Z.shiftl 1 (- e)) (1 - e))%Z
  end.

Lemma Math_round_shift (x : float) : Math_round x = roundShift x.
Proof.
  unfold Math_round, roundShift.
  destruct (Prim2SF x) as [s|s| |s m e]; try reflexivity.
  cbv zeta. f_equal. destruct (Z.leb_spec 0 e) as [H|H]; [reflexivity|].
  rewrite Z.shiftr_div_pow2, Z.shiftl_mul_pow2 by lia.
  now rewrite Z.mul_1_l.
Qed.

Definition numZ (z : Z) : float := of_uint63 (Uint63.of_Z z).

(** The score is the exact rounding, or one less on a tie. *)
Definition score_close (p t : Z) : bool :=
  match roundShift (PrimFloat.mul (PrimFloat.div (numZ p) (numZ t)) (numZ 100)) with
  | Int z =>
      let r := round_half_up (100 * p) t in
      if ((200 * p) mod (2 * t) =? t)%Z
      then (z =? r)%Z || (z =? r - 1)%Z
      else (z =? r)%Z
  | _ => false
  end.

Fixpoint upFrom (a : Z) (n : nat) : list Z :=
  match n with
  | O => []
  | S n' => a :: upFrom (a + 1) n'
  end.

Lemma In_upFrom (z a : Z) (n : nat) :
  (a <= z < a + Z.of_nat n)%Z -> In z (upFrom a n).
Proof.
  revert a. induction n as [|n IH]; intros a H; [lia|].
  simpl. destruct (Z.eq_dec a z) as [E|E]; [now left|].
  right. apply IH. lia.
Qed.

Lemma score_close_table :
  forallb (fun t => forallb (fun p => score_close p t)
                            (upFrom 0 (S (Z.to_nat t))))
          (upFrom 1 500) = true.
Proof. vm_compute. reflexivity. Qed.

Lemma score_large (p t : nat) :
  p <= t -> 1 <= t <= 500 ->
  let r := round_half_up (100 * Z.of_nat p) (Z.of_nat t) in
  (tie p t = false -> score p t = Int r)
  /\ (tie p t = true -> score p t = Int r \/ score p t = Int (r - 1)).
Proof.
  intros Hp Ht. cbv zeta.
  pose proof score_close_table as H. rewrite forallb_forall in H.
  assert (Hin : In (Z.of_nat t) (upFrom 1 500)) by (apply In_upFrom; lia).
  specialize (H _ Hin). rewrite forallb_forall in H.
  assert (Hin' : In (Z.of_nat p) (upFrom 0 (S (Z.to_nat (Z.of_nat t)))))
    by (apply In_upFrom; lia).
  specialize (H _ Hin'). unfold score_close in H.
  assert (Hs : score p t
               = roundShift (PrimFloat.mul
                               (PrimFloat.div (numZ (Z.of_nat p))
                                              (numZ (Z.of_nat t)))
                               (numZ 100))).
  { unfold score. replace (0 <? t)%nat with true
      by (symmetry; apply Nat.ltb_lt; lia).
    now rewrite Math_round_shift. }
  rewrite <- Hs in H. unfold tie.
  destruct (score p t) as [z| |]; try discriminate.
  destruct ((200 * Z.of_nat p) mod (2 * Z.of_nat t) =? Z.of_nat t)%Z.
  - split; [discriminate|]. intros _.
    apply orb_true_iff in H as [H|H]; apply Z.eqb_eq in H; subst; auto.
  - split; [|discriminate]. intros _. apply Z.eqb_eq in H. now subst.
Qed.

(** The summary of results whose statuses are among PASSED, FAILED and
    SKIPPED: the counts add up to the number of results, which is
    [totalTestSuites], and the score is that of the passed count. *)
Lemma summarize_valid (results : obj SuiteResult) :
  (forall r, In r (values results) -> validStatus r = true) ->
  let s := summarize results in
  passed s + failed s + skipped s = List.length results
  /\ totalTestSuites s = List.length results
  /\ passed s <= List.length results
  /\ overallScore s = score (passed s) (List.length results).
Proof.
  intros Hvalid. cbv zeta. unfold summarize; simpl.
  assert (Hk : List.length (keys results) = List.length results)
    by (unfold keys; apply length_map).
  assert (Hvl : List.length (values results) = List.length results)
    by (unfold values; apply length_map).
  split; [rewrite <- Hvl; now apply counts_partition|].
  split; [exact Hk|].
  split; [rewrite <- Hvl; apply length_filter_le|].
  now rewrite Hk.
Qed.

(** *** Recording a result under a name *)

Lemma count_set_present (p : SuiteResult -> bool) (o : obj SuiteResult)
    (k : string) (old v : SuiteResult) :
  get o k = Some old ->
  List.length (filter p (values (set o k v))) + (if p old then 1 else 0)
  = List.length (filter p (values o)) + (if p v then 1 else 0).
Proof.
  unfold values.
  induction o as [|[k' v'] o IH]; simpl; [discriminate|].
  destruct (String.eqb k' k) eqn:E; simpl.
  - intros [= ->]. destruct (p old), (p v); simpl; lia.
  - intros H. specialize (IH H). destruct (p v'); simpl; lia.
Qed.

Lemma wf_recorded (recs : list (string * SuiteResult)) (o : obj SuiteResult) :
  wf o -> wf (fold_left (fun acc nr => set acc (fst nr) (snd nr)) recs o).
Proof.
  revert o. induction recs as [|[n r] recs IH]; intros o Ho; simpl; [exact Ho|].
  apply IH. now apply wf_set.
Qed.

(** C9. Recording a result under a name that the results already hold
    replaces the entry of that name: the names, their order and their
    number are unchanged, the name now maps to the new result, every other
    name keeps its result, and in each count of the summary the old result
    is exchanged for the new one. Names stay pairwise distinct, so the
    summary counts the name once. *)
Theorem record_replaces (results : obj SuiteResult) (name : string)
    (previous result : SuiteResult)
    (Hpresent : get results name = Some previous) :
  let results' := set results name result in
  keys results' = keys results
  /\ get results' name = Some result
  /\ (forall other, other <> name -> get results' other = get results other)
  /\ totalTestSuites (summarize results') = totalTestSuites (summarize results)
  /\ (forall status,
        List.length (filter (statusIs status) (values results'))
        + (if statusIs status previous then 1 else 0)
        = List.length (filter (statusIs status) (values results))
          + (if statusIs status result then 1 else 0))
  /\ (wf results ->
      wf results' /\ count_occ string_dec (keys results') name = 1).
Proof.
  cbv zeta.
  assert (Hin : In name (keys results)).
  { destruct (in_dec string_dec name (keys results)) as [H|H]; [exact H|].
    apply get_None_keys in H. congruence. }
  assert (Hk : keys (set results name result) = keys results)
    by now apply keys_set_present.
  split; [exact Hk|].
  split; [apply get_set_same|].
  split; [intros other Hne; now apply get_set_other|].
  split; [simpl; now rewrite Hk|].
  split; [intros status; now apply count_set_present|].
  intros Hwf. split; [now apply wf_set|].
  rewrite Hk. unfold wf in Hwf.
  rewrite (NoDup_count_occ string_dec) in Hwf. specialize (Hwf name).
  apply (count_occ_In string_dec) in Hin. lia.
Qed.

Lemma record_replaces_witness :
  let results : obj SuiteResult :=
    [("lighthouseAudit", [("status", "SKIPPED")]);
     ("browserTests", [("status", "PASSED")])] in
  let results' := set results "lighthouseAudit" [("status", "FAILED")] in
  keys results' = ["lighthouseAudit"; "browserTests"]
  /\ get results' "lighthouseAudit" = Some [("status", "FAILED")]
  /\ failed (summarize results') = 1
  /\ skipped (summarize results') = 0.
Proof.
  cbv zeta.
  destruct (@record_replaces
              [("lighthouseAudit", [("status", "SKIPPED")]);
               ("browserTests", [("status", "PASSED")])]
              "lighthouseAudit" [("status", "SKIPPED")] [("status", "FAILED")]
              eq_refl) as (H1 & H2 & _).
  split; [exact H1|]. split; [exact H2|]. split; reflexivity.
Defined.

(** *** Facts about the renderings *)

Lemma append_assoc (a b c : string) : (a ++ b) ++ c = a ++ b ++ c.
Proof. induction a as [|x a IH]; simpl; [reflexivity | now rewrite IH]. Qed.

(** [sub] occurs in [s]. *)
Definition contains (s sub : string) : Prop :=
  exists pre post, s = pre ++ sub ++ post.

Fixpoint startsWith (p s : string) : bool :=
  match p, s with
  | EmptyString, _ => true
  | String a p', String b s' => Ascii.eqb a b && startsWith p' s'
  | String _ _, EmptyString => false
  end.

(** [s.includes(sub)] *)
Fixpoint includes (sub s : string) : bool :=
  match s with
  | EmptyString => startsWith sub s
  | String _ s' => startsWith sub s || includes sub s'
  end.

Lemma startsWith_append (p s : string) :
  startsWith p s = true <-> exists post, s = p ++ post.
Proof.
  revert s. induction p as [|a p IH]; intros s; simpl.
  - split; [intros _; now exists s | reflexivity].
  - destruct s as [|b s].
    + split; [discriminate | intros [post H]; discriminate].
    + rewrite andb_true_iff, Ascii.eqb_eq, IH. split.
      * intros [-> [post ->]]. now exists post.
      * intros [post [= -> ->]]. split; [reflexivity | now exists post].
Qed.

Lemma includes_contains (sub s : string) :
  includes sub s = true <-> contains s sub.
Proof.
  unfold contains. induction s as [|c s IH].
  - simpl includes. rewrite startsWith_append. split.
    + intros [post H]. now exists "", post.
    + intros [pre [post H]]. destruct pre; [now exists post | discriminate].
  - simpl includes. rewrite orb_true_iff, IH, startsWith_append. split.
    + intros [[post H]|[pre [post H]]].
      * now exists "", post.
      * exists (String c pre), post. simpl. now rewrite H.
    + intros [[|x pre] [post H]].
      * left. now exists post.
      * right. injection H as _ H. now exists pre, post.
Qed.

Lemma contains_app_r (a b sub : string) :
  contains b sub -> contains (a ++ b) sub.
Proof.
  intros [pre [post ->]]. exists (a ++ pre), post. now rewrite append_assoc.
Qed.

Lemma contains_app_l (a b sub : string) :
  contains a sub -> contains (a ++ b) sub.
Proof.
  intros [pre [post ->]]. exists pre, (post ++ b).
  now rewrite !append_assoc.
Qed.

(** The two results of the specification's example. *)
Definition exampleResults : obj SuiteResult :=
  [("a", [("status", "PASSED")]);
   ("b", [("status", "FAILED"); ("error", "timeout")])].

(** C6. The summary of the example is 1 passed, 1 failed, 0 skipped and a
    score of 50. Its page, at any instant and on any host, holds the
    heading of each suite with its icon, the PASSED badge, and the error
    text of "b"; the item of "a" holds the check mark and PASSED and no
    error line. In every item the error line is empty unless the result
    has an [error], which it then quotes, and the same for [details]. *)
Theorem example_report :
  summarize exampleResults
  = {| totalTestSuites := 2; passed := 1; failed := 1; skipped := 0;
       overallScore := Int 50 |}
  /\ (forall (toLocaleString : string -> string) (ts : string)
             (env : Environment),
        let html := generateHTMLReport toLocaleString
                      (buildReport ts env exampleResults) in
        contains html "<h3>✅ a</h3>"
        /\ contains html "<h3>❌ b</h3>"
        /\ contains html ("PASSED")
        /\ contains html ("Error: timeout</p>"))
  /\ (let a := renderResult ("a", [("status", "PASSED")]) in
      includes "✅ a" a = true /\ includes "PASSED" a = true
      /\ includes "Error" a = false /\ includes "timeout" a = false)
  /\ (let b := renderResult ("b", [("status", "FAILED"); ("error", "timeout")]) in
      includes "❌ b" b = true /\ includes "FAILED" b = true
      /\ includes "Error: timeout" b = true)
  /\ (forall result : SuiteResult,
        renderError result = ""
        \/ exists e, get result "error" = Some e
                     /\ contains (renderError result) ("Error: " ++ e))
  /\ (forall result : SuiteResult,
        renderDetails result = ""
        \/ exists d, get result "details" = Some d
                     /\ contains (renderDetails result) d).
Proof.
  split; [vm_compute; reflexivity|].
  split.
  { intros toLocaleString ts env. cbv zeta. unfold generateHTMLReport.
    assert (Hitems : forall sub,
               includes sub (join "" (map renderResult exampleResults)) = true ->
               contains
                 (html_head ++ numberToString
                    (overallScore (summary (buildReport ts env exampleResults)))
                  ++ html_passed_card ++ natToString
                       (passed (summary (buildReport ts env exampleResults)))
                  ++ html_failed_card ++ natToString
                       (failed (summary (buildReport ts env exampleResults)))
                  ++ html_skipped_card ++ natToString
                       (skipped (summary (buildReport ts env exampleResults)))
                  ++ html_total_card ++ natToString
                       (totalTestSuites (summary (buildReport ts env exampleResults)))
                  ++ html_results_open
                  ++ join "" (map renderResult
                                (entries (results (buildReport ts env exampleResults))))
                  ++ html_requirements_open
                  ++ join "" (map renderRequirement
                                (entries (requirements (buildReport ts env exampleResults))))
                  ++ html_timestamp_open ++ toLocaleString
                       (timestamp (buildReport ts env exampleResults))
                  ++ html_close) sub).
    { intros sub Hsub. do 11 apply contains_app_r. apply contains_app_l.
      now apply includes_contains. }
    repeat split; apply Hitems; vm_compute; reflexivity. }
  split; [cbv zeta; repeat split; vm_compute; reflexivity|].
  split; [cbv zeta; repeat split; vm_compute; reflexivity|].
  split.
  - intros result. unfold renderError.
    destruct (get result "error") as [e|] eqn:E; simpl; [|now left].
    destruct (String.eqb e ""); simpl; [now left|].
    right. exists e. split; [reflexivity|].
    exists ("<p style=" ++ dq ++ "color: #ef4444; font-size: 0.9em;" ++ dq ++ ">"), "</p>".
    now rewrite !append_assoc.
  - intros result. unfold renderDetails.
    destruct (get result "details") as [d|] eqn:E; simpl; [|now left].
    destruct (String.eqb d ""); simpl; [now left|].
    right. exists d. split; [reflexivity|].
    exists ("<p style=" ++ dq ++ "color: #6b7280; font-size: 0.9em;" ++ dq ++ ">"), "</p>".
    now rewrite !append_assoc.
Qed.

Lemma join_cons (sep x y : string) (l : list string) :
  join sep (x :: y :: l) = x ++ sep ++ join sep (y :: l).
Proof. reflexivity. Qed.

(** C8. The machine-readable rendering of a report depends on the instant
    of the rendering through the value of its [timestamp] property alone:
    for given results and environment, there are a text before and a text
    after that value which are the same at every instant. Two renderings
    at the same instant are identical. *)
Theorem json_same_but_timestamp (env : Environment)
    (results : obj SuiteResult) :
  exists before after : string,
    forall ts : string,
      renderJSON (buildReport ts env results)
      = before ++ quoteJSON ts ++ after.
Proof.
  exists ("{" ++ nl ++ "  " ++ quoteJSON "timestamp" ++ ": ").
  eexists. intros ts.
  unfold renderJSON, jsonOfReport, buildReport.
  cbn [timestamp testSuite environment Report.results summary requirements].
  cbn [serialize]. rewrite join_cons.
  rewrite !append_assoc. reflexivity.
Qed.

(** *** Statuses outside the three *)

Lemma status_indicator (r : SuiteResult) :
  (if statusIs "PASSED" r then 1 else 0)
  + (if statusIs "FAILED" r then 1 else 0)
  + (if statusIs "SKIPPED" r then 1 else 0)
  = if validStatus r then 1 else 0.
Proof.
  destruct (validStatus r) eqn:E; [now apply statusIs_exclusive|].
  unfold validStatus in E.
  destruct (statusIs "PASSED" r), (statusIs "FAILED" r),
    (statusIs "SKIPPED" r); simpl in E; try discriminate; reflexivity.
Qed.

Lemma counts_split (rs : list SuiteResult) :
  List.length (filter (statusIs "PASSED") rs)
  + List.length (filter (statusIs "FAILED") rs)
  + List.length (filter (statusIs "SKIPPED") rs)
  + List.length (filter (fun r => negb (validStatus r)) rs)
  = List.length rs.
Proof.
  induction rs as [|r rs IH]; [reflexivity|].
  rewrite !length_filter_cons. pose proof (status_indicator r) as Hr.
  simpl List.length. destruct (validStatus r); cbn [negb]; lia.
Qed.

Lemma filter_none {A : Type} (p : A -> bool) (l : list A) :
  List.length (filter p l) = 0 <-> forall x, In x l -> p x = false.
Proof.
  induction l as [|a l IH]; simpl.
  - split; [intros _ x [] | reflexivity].
  - destruct (p a) eqn:Ha; simpl.
    + split; [discriminate|]. intros H.
      specialize (H a (or_introl eq_refl)). congruence.
    + rewrite IH. split.
      * intros H x [<-|Hx]; auto.
      * intros H x Hx. apply H. now right.
Qed.

(** X3. The summary of any results, whatever their statuses: the three counts
    and the number of results whose status is none of PASSED, FAILED and
    SKIPPED (a missing status included) add up to the number of suites.
    So the counts never exceed the total, and they add up to it exactly
    when every status is one of the three. *)
Theorem counts_within_total (results : obj SuiteResult) :
  let s := summarize results in
  let others :=
    List.length (filter (fun r => negb (validStatus r)) (values results)) in
  passed s + failed s + skipped s + others = totalTestSuites s
  /\ passed s + failed s + skipped s <= totalTestSuites s
  /\ (passed s + failed s + skipped s = totalTestSuites s
      <-> forall r, In r (values results) -> validStatus r = true).
Proof.
  cbv zeta. pose proof (counts_split (values results)) as H.
  assert (Ht : totalTestSuites (summarize results)
               = List.length (values results)).
  { simpl. unfold keys, values. now rewrite !length_map. }
  rewrite Ht. simpl passed. simpl failed. simpl skipped.
  split; [exact H|]. split; [lia|].
  transitivity
    (List.length (filter (fun r => negb (validStatus r)) (values results)) = 0);
    [lia|].
  rewrite filter_none. split; intros Hall r Hr; specialize (Hall r Hr).
  - now apply negb_false_iff.
  - now rewrite Hall.
Qed.

(** *** Every suite on the page *)

Lemma append_empty_r (s : string) : s ++ "" = s.
Proof. induction s as [|c s IH]; simpl; [reflexivity | now rewrite IH]. Qed.

Lemma contains_refl (s : string) : contains s s.
Proof. exists "", "". simpl. now rewrite append_empty_r. Qed.

Lemma contains_join {A : Type} (f : A -> string) (l : list A) (x : A) :
  In x l -> contains (join "" (map f l)) (f x).
Proof.
  induction l as [|a l IH]; [intros []|].
  assert (E : join "" (map f (a :: l)) = f a ++ join "" (map f l)).
  { destruct l as [|b l]; simpl; [now rewrite append_empty_r | reflexivity]. }
  rewrite E. intros [<-|Hin].
  - apply contains_app_l, contains_refl.
  - now apply contains_app_r, IH.
Qed.

Lemma contains_heading (p a x y z b r rest : string) :
  contains ((p ++ a) ++ x ++ y ++ z ++ (b ++ r) ++ rest)
           (a ++ x ++ y ++ z ++ b).
Proof. exists p, (r ++ rest). now rewrite !append_assoc. Qed.

(** X4. The page of any report holds the item of every suite of the report.
    The item shows the name of the suite after the icon of its status,
    and the status itself; name and status are copied as they are, with
    no escaping. *)
Theorem page_lists_every_suite (toLocaleString : string -> string)
    (report : ReportT) :
  Forall
    (fun entry =>
       contains (generateHTMLReport toLocaleString report)
                (renderResult entry)
       /\ contains (renderResult entry)
            ("<h3>" ++ statusIcon (get (snd entry) "status") ++ " "
             ++ fst entry ++ "</h3>")
       /\ contains (renderResult entry)
            (interpolate (get (snd entry) "status")))
    (entries (results report)).
Proof.
  apply Forall_forall. intros [test result] Hin. split; [|split].
  - unfold generateHTMLReport. do 11 apply contains_app_r.
    apply contains_app_l. now apply contains_join.
  - unfold renderResult. cbn [fst snd]. do 8 apply contains_app_r.
    match goal with
    | |- contains (?c2 ++ ?i ++ ?s ++ ?t ++ ?c3 ++ ?rest) _ =>
        replace c2 with (substring 0 (String.length c2 - 4) c2 ++ "<h3>")
          by reflexivity;
        replace c3 with ("</h3>" ++ substring 5 (String.length c3 - 5) c3)
          by reflexivity
    end.
    apply contains_heading.
  - unfold renderResult. cbn [fst snd]. do 28 apply contains_app_r.
    apply contains_app_l, contains_refl.
Qed.

(** *** Every suite in the JSON report *)

Lemma contains_trans (a b c : string) :
  contains a b -> contains b c -> contains a c.
Proof.
  intros [p1 [q1 ->]] [p2 [q2 ->]]. exists (p1 ++ p2), (q2 ++ q1).
  now rewrite !append_assoc.
Qed.

Lemma contains_join_sep (sep : string) (l : list string) (x : string) :
  In x l -> contains (join sep l) x.
Proof.
  induction l as [|a l IH]; [intros []|].
  destruct l as [|b l].
  - intros [<-|[]]. apply contains_refl.
  - rewrite join_cons. intros [<-|Hin].
    + apply contains_app_l, contains_refl.
    + now apply contains_app_r, contains_app_r, IH.
Qed.

(** A property of an object is in its serialization, one step further
    indented. *)
Lemma serialize_member (indent : string) (properties : list (string * json))
    (k : string) (x : json) :
  In (k, x) properties ->
  contains (serialize indent (JObject properties))
           (quoteJSON k ++ ": " ++ serialize (indent ++ "  ") x).
Proof.
  intros Hin. cbn [serialize].
  set (members := fix members (ps : list (string * json)) : list string :=
         match ps with
         | [] => []
         | (k0, x0) :: ps' =>
             (quoteJSON k0 ++ ": " ++ serialize (indent ++ "  ") x0)
             :: members ps'
         end).
  assert (Hm : In (quoteJSON k ++ ": " ++ serialize (indent ++ "  ") x)
                  (members properties)).
  { induction properties as [|[k0 x0] ps IH]; [contradiction|].
    destruct Hin as [[= -> ->]|Hin]; [now left | right; now apply IH]. }
  destruct (members properties) as [|m ms] eqn:E; [contradiction|].
  do 3 apply contains_app_r. apply contains_app_l.
  now apply contains_join_sep.
Qed.

(** X5. The JSON report of any results holds, for every suite, the name of
    the suite with the object of its result, and that object holds every
    property of the result with its value, both as JSON strings. *)
Theorem json_lists_every_suite (ts : string) (env : Environment)
    (results : obj SuiteResult) :
  Forall
    (fun entry =>
       contains (renderJSON (buildReport ts env results))
                (quoteJSON (fst entry) ++ ": "
                 ++ serialize "    " (jsonOfStrings (snd entry)))
       /\ Forall
            (fun property =>
               contains (serialize "    " (jsonOfStrings (snd entry)))
                        (quoteJSON (fst property) ++ ": "
                         ++ quoteJSON (snd property)))
            (entries (snd entry)))
    (entries results).
Proof.
  apply Forall_forall. intros [test result] Hin. cbn [fst snd]. split.
  - unfold renderJSON, jsonOfReport.
    eapply contains_trans.
    + apply (@serialize_member "" _ "results"
               (JObject (map (fun '(test, result) =>
                                (test, jsonOfStrings result))
                             (entries (Report.results
                                         (buildReport ts env results)))))).
      cbn [In]. tauto.
    + do 2 apply contains_app_r.
      apply (@serialize_member ("" ++ "  ") _ test (jsonOfStrings result)).
      cbn [Report.results buildReport]. apply in_map_iff.
      now exists (test, result).
  - apply Forall_forall. intros [k v] Hkv. cbn [fst snd].
    apply (@serialize_member "    " _ k (JString v)).
    unfold jsonOfStrings. apply in_map_iff. now exists (k, v).
Qed.

End Report.

(* ===================================================================== *)
(** ** integration-test.js: the runner *)
(* ===================================================================== *)

Module Runner.
Import JsObject Report.
Local Open Scope string_scope.

Record Config : Type := {
  outputDir : string;
  runLocal : bool;
  runDeployment : bool
}.

Definition CONFIG : Config := {|
  outputDir := "./integration-test-reports";
  runLocal := true;
  runDeployment := true
|}.

(** A thrown [Error]. *)
Record Error : Type := { message : string }.

(** What a call of a suite function does: it resolves to a boolean or it
    throws. *)
Inductive outcome : Type :=
| Returns (result : bool)
| Throws (error : Error).

(** [runLighthouseAudit] and [runBrowserTests] probe the local server
    themselves and call [process.exit(1)] when it does not answer;
    [runDeploymentTests] has no such exit. *)
Inductive localOutcome : Type :=
| Ran (o : outcome)
| ServerUnreachable.

Inductive suite : Type := lighthouseSuite | browserSuite | deploymentSuite.

(** What the world outside the runner decides during one run. *)
Record World : Type := {
  npmInstall : string -> bool;      (* [npm install --save-dev dep] succeeds *)
  serverUp : nat -> bool;           (* the answer to the n-th [curl] probe *)
  lighthouse : localOutcome;
  browser : localOutcome;
  deployment : outcome;
  now : string;                     (* [new Date().toISOString()] *)
  host : Environment;
  toLocaleString : string -> string;
  pathJoin : string -> string -> string;  (* [path.join] of the host *)
  writeJSON : option Error;         (* [fs.writeFileSync] of the JSON throws *)
  writeHTML : option Error          (* [fs.writeFileSync] of the page throws *)
}.

Inductive event : Type :=
| Log (line : string)
| Install (dep : string) (ok : bool)
| Curl (n : nat) (ok : bool)
| Invoke (s : suite)
| Threw (s : suite) (e : Error)
| WriteFile (path content : string).

(** The state of a run: what has happened, the number of probes made, and
    the local [results] object. *)
Record State : Type := {
  trace : list event;
  probes : nat;
  recorded : obj SuiteResult
}.

Definition initial : State := {| trace := []; probes := 0; recorded := empty |}.

(** How a computation ends: with a value, with an exception, or with the
    end of the process. *)
Inductive completion (A : Type) : Type :=
| Normal (a : A)
| Thrown (e : Error)
| Exit (code : Z).
Arguments Normal {A} a.
Arguments Thrown {A} e.
Arguments Exit {A} code.

(** Computations over a state [S] that end in one of these ways. *)
Definition Mon (S A : Type) : Type := S -> completion A * S.

Definition ret {S A : Type} (a : A) : Mon S A := fun st => (Normal a, st).

Definition bind {S A B : Type} (m : Mon S A) (k : A -> Mon S B) : Mon S B :=
  fun st =>
    match m st with
    | (Normal a, st') => k a st'
    | (Thrown e, st') => (Thrown e, st')
    | (Exit c, st') => (Exit c, st')
    end.

Declare Scope run_scope.
Delimit Scope run_scope with run.
Notation "x <- m ;; k" := (bind m (fun x => k))
  (at level 100, m at next level, right associativity) : run_scope.
Notation "m ;; k" := (bind m (fun _ => k))
  (at level 100, right associativity) : run_scope.
Local Open Scope run_scope.

(** [try { body } catch (error) { handler }]: the end of the process is
    not an exception. *)
Definition tryCatch {S A : Type} (body : Mon S A) (handler : Error -> Mon S A)
  : Mon S A :=
  fun st =>
    match body st with
    | (Thrown e, st') => handler e st'
    | r => r
    end.

Definition throw {S A : Type} (e : Error) : Mon S A := fun st => (Thrown e, st).

(** [process.exit(code)] *)
Definition exit {S A : Type} (code : Z) : Mon S A := fun st => (Exit code, st).

Definition when {S : Type} (b : bool) (m : Mon S unit) : Mon S unit :=
  if b then m else ret tt.

(** The runner's computations. *)
Definition M (A : Type) : Type := Mon State A.

Definition emit (e : event) : M unit :=
  fun st => (Normal tt, {| trace := trace st ++ [e]; probes := probes st;
                           recorded := recorded st |}).

Definition log (line : string) : M unit := emit (Log line).

(** [results[name] = result] *)
Definition record (name : string) (result : SuiteResult) : M unit :=
  fun st => (Normal tt, {| trace := trace st; probes := probes st;
                           recorded := set (recorded st) name result |}).

Definition getResults : M (obj SuiteResult) :=
  fun st => (Normal (recorded st), st).

(** [s.repeat(n)] *)
Fixpoint repeatString (s : string) (n : nat) : string :=
  match n with
  | O => ""
  | S n' => s ++ repeatString s n'
  end.

Definition separator : string := nl ++ repeatString "=" 60 ++ nl.

(** [timestamp.replace(/[:.]/g, '-')] *)
Fixpoint hyphenate (s : string) : string :=
  match s with
  | EmptyString => ""
  | String c s' =>
      String (if Ascii.eqb c ":" || Ascii.eqb c "." then "-"%char else c)
             (hyphenate s')
  end.

Section Run.

Variable cfg : Config.
Variable w : World.

(** [checkLocalServer]: [true] when [curl] succeeds, [false] when
    [execSync] throws. *)
Definition checkLocalServer : M bool :=
  fun st =>
    let ok := serverUp w (probes st) in
    (Normal ok, {| trace := trace st ++ [Curl (probes st) ok];
                   probes := S (probes st);
                   recorded := recorded st |}).

Definition installOne (dep : string) : M unit :=
  log ("Installing " ++ dep ++ "...") ;;
  if npmInstall w dep
  then emit (Install dep true) ;; log ("✅ " ++ dep ++ " installed" ++ nl)
  else emit (Install dep false) ;;
       log ("⚠️  Failed to install " ++ dep ++ ", trying to continue..." ++ nl).

Definition installDependencies : M unit :=
  log ("📦 Installing test dependencies..." ++ nl) ;;
  installOne "lighthouse" ;;
  installOne "@playwright/test".

(** A call of an imported suite function. *)
Definition invoke (s : suite) (o : outcome) : M bool :=
  emit (Invoke s) ;;
  match o with
  | Returns b => ret b
  | Throws e => emit (Threw s e) ;; throw e
  end.

Definition invokeLocal (s : suite) (o : localOutcome) : M bool :=
  match o with
  | Ran o' => invoke s o'
  | ServerUnreachable => emit (Invoke s) ;; exit 1%Z
  end.

Definition writeFileSync (path content : string) (failure : option Error)
  : M unit :=
  match failure with
  | None => emit (WriteFile path content)
  | Some e => throw e
  end.

(** [generateComprehensiveReport(results)] *)
Definition generateComprehensiveReport (results : obj SuiteResult)
  : M ReportT :=
  let timestamp := now w in
  let report := buildReport timestamp (host w) results in
  let reportPath :=
    pathJoin w (outputDir cfg)
      ("integration-test-report-" ++ hyphenate timestamp ++ ".json") in
  writeFileSync reportPath (renderJSON report) (writeJSON w) ;;
  let htmlReport := generateHTMLReport (toLocaleString w) report in
  let htmlPath :=
    pathJoin w (outputDir cfg)
      ("integration-test-report-" ++ hyphenate timestamp ++ ".html") in
  writeFileSync htmlPath htmlReport (writeHTML w) ;;
  log ("📄 Comprehensive report saved to: " ++ reportPath) ;;
  log ("🌐 HTML report saved to: " ++ htmlPath) ;;
  ret report.

Definition skippedResult (description : string) : SuiteResult :=
  [("status", "SKIPPED"); ("description", description);
   ("error", "Local server not accessible")].

Definition completedResult (ok : bool) (description details : string)
  : SuiteResult :=
  [("status", if ok then "PASSED" else "FAILED");
   ("description", description); ("details", details)].

Definition failedResult (description : string) (error : Error) : SuiteResult :=
  [("status", "FAILED"); ("description", description);
   ("error", message error)].

(** Test 1 of [runIntegrationTests]: the Lighthouse audit (lines 320-349). *)
Definition lighthouseAuditTest : M unit :=
  log "1️⃣  LIGHTHOUSE PERFORMANCE AUDIT" ;;
  log ("=================================" ++ nl) ;;
  up <- checkLocalServer ;;
  (if negb up then
     log "⚠️  Local server not running. Please start it with: npm run serve" ;;
     log ("   Skipping local tests..." ++ nl) ;;
     record "lighthouseAudit" (skippedResult "Lighthouse performance audit")
   else
     tryCatch
       (lighthouseResult <- invokeLocal lighthouseSuite (lighthouse w) ;;
        record "lighthouseAudit"
          (completedResult lighthouseResult "Lighthouse performance audit"
             "Performance, accessibility, SEO, and best practices validation"))
       (fun error =>
          record "lighthouseAudit"
            (failedResult "Lighthouse performance audit" error))) ;;
  log separator.

(** Test 2: the cross-browser tests (lines 352-378). *)
Definition browserTestsTest : M unit :=
  log "2️⃣  CROSS-BROWSER COMPATIBILITY TESTS" ;;
  log ("====================================" ++ nl) ;;
  up <- checkLocalServer ;;
  (if negb up then
     record "browserTests" (skippedResult "Cross-browser compatibility tests")
   else
     tryCatch
       (browserResult <- invokeLocal browserSuite (browser w) ;;
        record "browserTests"
          (completedResult browserResult "Cross-browser compatibility tests"
             "Responsive design, animations, and accessibility across browsers"))
       (fun error =>
          record "browserTests"
            (failedResult "Cross-browser compatibility tests" error))) ;;
  log separator.

(** Test 3: the deployment verification (lines 383-401). *)
Definition deploymentVerificationTest : M unit :=
  log "3️⃣  GITHUB PAGES DEPLOYMENT VERIFICATION" ;;
  log ("=======================================" ++ nl) ;;
  tryCatch
    (deploymentResult <- invoke deploymentSuite (deployment w) ;;
     record "deploymentVerification"
       (completedResult deploymentResult "GitHub Pages deployment verification"
          "GitHub Actions, custom domain, HTTPS, and SEO validation"))
    (fun error =>
       record "deploymentVerification"
         (failedResult "GitHub Pages deployment verification" error)) ;;
  log separator.

(** [Object.entries(report.requirements).forEach(([req, desc]) =>
      console.log(`${req}: ${desc}`))] *)
Fixpoint logRequirements (reqs : list (string * string)) : M unit :=
  match reqs with
  | [] => ret tt
  | (req, desc) :: reqs' => log (req ++ ": " ++ desc) ;; logRequirements reqs'
  end.

(** The end of [runIntegrationTests]: the report and the final summary
    (lines 404-428). *)
Definition reportAndSummary : M bool :=
  log "📊 GENERATING COMPREHENSIVE REPORT" ;;
  log ("=================================" ++ nl) ;;
  results <- getResults ;;
  report <- generateComprehensiveReport results ;;
  log "🎯 FINAL INTEGRATION TEST SUMMARY" ;;
  log "=================================" ;;
  log ("Overall Score: " ++ numberToString (overallScore (summary report)) ++ "%") ;;
  log ("Tests Passed: " ++ natToString (passed (summary report)) ++ "/"
       ++ natToString (totalTestSuites (summary report))) ;;
  log ("Tests Failed: " ++ natToString (failed (summary report)) ++ "/"
       ++ natToString (totalTestSuites (summary report))) ;;
  log ("Tests Skipped: " ++ natToString (skipped (summary report)) ++ "/"
       ++ natToString (totalTestSuites (summary report)) ++ nl) ;;
  log "📋 Requirements Verification:" ;;
  log "============================" ;;
  logRequirements (entries (requirements report)) ;;
  log (nl ++ "🎉 Integration testing complete!" ++ nl) ;;
  ret (failed (summary report) =? 0)%nat.

(** [runIntegrationTests] *)
Definition runIntegrationTests : M bool :=
  log ("🧪 Starting Integration Test Suite for 闘魂Elixir Landing Page" ++ nl) ;;
  log ("================================================================" ++ nl) ;;
  installDependencies ;;
  when (runLocal cfg) (lighthouseAuditTest ;; browserTestsTest) ;;
  when (runDeployment cfg) deploymentVerificationTest ;;
  reportAndSummary.

(** The entry point: [runIntegrationTests().then(success =>
    process.exit(success ? 0 : 1)).catch(error => process.exit(1))]. *)
Definition main : Z * State :=
  match runIntegrationTests initial with
  | (Normal success, st) => ((if success then 0 else 1)%Z, st)
  | (Thrown error, st) => (1%Z, st)
  | (Exit code, st) => (code, st)
  end.

(** *** The run without its console output

    What the claims about a run speak of is the probes, the calls of the
    suite functions, the recorded results and the way the run ends. The
    computations below keep these and drop the console and the files; the
    runner refines them. *)

Definition observable (e : event) : bool :=
  match e with
  | Curl _ _ | Invoke _ | Threw _ _ => true
  | Log _ | Install _ _ | WriteFile _ _ => false
  end.

Record Obs : Type := {
  seen : list event;
  probed : nat;
  store : obj SuiteResult
}.

Definition abs (st : State) : Obs :=
  {| seen := filter observable (trace st);
     probed := probes st;
     store := recorded st |}.

Definition start : Obs := {| seen := []; probed := 0; store := empty |}.

Definition see (e : event) : Mon Obs unit :=
  fun a => (Normal tt, {| seen := seen a ++ [e]; probed := probed a;
                          store := store a |}).

Definition probe : Mon Obs bool :=
  fun a =>
    let ok := serverUp w (probed a) in
    (Normal ok, {| seen := seen a ++ [Curl (probed a) ok];
                   probed := S (probed a); store := store a |}).

Definition keep (name : string) (result : SuiteResult) : Mon Obs unit :=
  fun a => (Normal tt, {| seen := seen a; probed := probed a;
                          store := set (store a) name result |}).

Definition call (s : suite) (o : outcome) : Mon Obs bool :=
  see (Invoke s) ;;
  match o with
  | Returns b => ret b
  | Throws e => see (Threw s e) ;; throw e
  end.

Definition callLocal (s : suite) (o : localOutcome) : Mon Obs bool :=
  match o with
  | Ran o' => call s o'
  | ServerUnreachable => see (Invoke s) ;; exit 1%Z
  end.

Definition localTest (s : suite) (o : localOutcome)
    (name description details : string) : Mon Obs unit :=
  up <- probe ;;
  if negb up then keep name (skippedResult description)
  else tryCatch
         (r <- callLocal s o ;; keep name (completedResult r description details))
         (fun error => keep name (failedResult description error)).

Definition deploymentTest : Mon Obs unit :=
  tryCatch
    (r <- call deploymentSuite (deployment w) ;;
     keep "deploymentVerification"
       (completedResult r "GitHub Pages deployment verification"
          "GitHub Actions, custom domain, HTTPS, and SEO validation"))
    (fun error =>
       keep "deploymentVerification"
         (failedResult "GitHub Pages deployment verification" error)).

Definition look : Mon Obs (obj SuiteResult) := fun a => (Normal (store a), a).

Definition written (failure : option Error) : Mon Obs unit :=
  match failure with
  | None => ret tt
  | Some e => throw e
  end.

Definition reportWritten (results : obj SuiteResult) : Mon Obs ReportT :=
  written (writeJSON w) ;;
  written (writeHTML w) ;;
  ret (buildReport (now w) (host w) results).

Definition reporting : Mon Obs bool :=
  results <- look ;;
  report <- reportWritten results ;;
  ret (failed (summary report) =? 0)%nat.

Definition observableTests : Mon Obs unit :=
  when (runLocal cfg)
    (localTest lighthouseSuite (lighthouse w) "lighthouseAudit"
       "Lighthouse performance audit"
       "Performance, accessibility, SEO, and best practices validation" ;;
     localTest browserSuite (browser w) "browserTests"
       "Cross-browser compatibility tests"
       "Responsive design, animations, and accessibility across browsers") ;;
  when (runDeployment cfg) deploymentTest.

Definition observableRun : Mon Obs bool := observableTests ;; reporting.

(** [m] refines [m']: from states that look alike, they end alike in
    states that look alike. *)
Definition refines {A : Type} (m : M A) (m' : Mon Obs A) : Prop :=
  forall st, fst (m st) = fst (m' (abs st))
             /\ abs (snd (m st)) = snd (m' (abs st)).

Lemma refines_ret {A : Type} (a : A) : refines (ret a) (ret a).
Proof. intros st. now split. Qed.

Lemma refines_throw {A : Type} (e : Error) : refines (@throw State A e) (throw e).
Proof. intros st. now split. Qed.

Lemma refines_exit {A : Type} (c : Z) : refines (@exit State A c) (exit c).
Proof. intros st. now split. Qed.

Lemma refines_bind {A B : Type} (m : M A) (m' : Mon Obs A)
    (k : A -> M B) (k' : A -> Mon Obs B) :
  refines m m' -> (forall a, refines (k a) (k' a)) ->
  refines (bind m k) (bind m' k').
Proof.
  intros Hm Hk st. unfold bind. destruct (Hm st) as [Hc Hs].
  destruct (m st) as [c st1], (m' (abs st)) as [c' a1]. simpl in Hc, Hs.
  subst c' a1. destruct c as [a|e|n]; [apply Hk | now split | now split].
Qed.

(** A step that only writes to the console or to a file is invisible. *)
Lemma refines_quiet_bind {A : Type} (m : M unit) (k : M A) (k' : Mon Obs A) :
  refines m (ret tt) -> refines k k' -> refines (bind m (fun _ => k)) k'.
Proof.
  intros Hm Hk st. unfold bind. destruct (Hm st) as [Hc Hs].
  destruct (m st) as [c st1]. simpl in Hc, Hs. subst c. rewrite <- Hs.
  apply Hk.
Qed.

Lemma refines_bind_quiet (m : M unit) (m' : Mon Obs unit) (k : M unit) :
  refines m m' -> refines k (ret tt) -> refines (bind m (fun _ => k)) m'.
Proof.
  intros Hm Hk st. unfold bind. destruct (Hm st) as [Hc Hs].
  destruct (m st) as [c st1], (m' (abs st)) as [c' a1]. simpl in Hc, Hs.
  subst c' a1. destruct c as [[]|e|n]; [apply Hk | now split | now split].
Qed.

Lemma refines_tryCatch {A : Type} (m : M A) (m' : Mon Obs A)
    (h : Error -> M A) (h' : Error -> Mon Obs A) :
  refines m m' -> (forall e, refines (h e) (h' e)) ->
  refines (tryCatch m h) (tryCatch m' h').
Proof.
  intros Hm Hh st. unfold tryCatch. destruct (Hm st) as [Hc Hs].
  destruct (m st) as [c st1], (m' (abs st)) as [c' a1]. simpl in Hc, Hs.
  subst c' a1. destruct c as [a|e|n]; [now split | apply Hh | now split].
Qed.

Lemma refines_when (b : bool) (m : M unit) (m' : Mon Obs unit) :
  refines m m' -> refines (when b m) (when b m').
Proof. intros H. destruct b; [exact H | apply refines_ret]. Qed.

Lemma filter_observable_app (t : list event) (e : event) :
  filter observable (t ++ [e])%list
  = (filter observable t ++ (if observable e then [e] else []))%list.
Proof. rewrite filter_app. simpl. now destruct (observable e). Qed.

Lemma refines_emit_quiet (e : event) :
  observable e = false -> refines (emit e) (ret tt).
Proof.
  intros He st. split; [reflexivity|]. unfold abs, emit; simpl.
  rewrite filter_observable_app, He. now rewrite app_nil_r.
Qed.

Lemma refines_emit_see (e : event) :
  observable e = true -> refines (emit e) (see e).
Proof.
  intros He st. split; [reflexivity|]. unfold abs, emit, see; simpl.
  now rewrite filter_observable_app, He.
Qed.

Lemma refines_log (line : string) : refines (log line) (ret tt).
Proof. now apply refines_emit_quiet. Qed.

Lemma refines_record (name : string) (result : SuiteResult) :
  refines (record name result) (keep name result).
Proof. intros st. now split. Qed.

Lemma refines_checkLocalServer : refines checkLocalServer probe.
Proof.
  intros st. split; [reflexivity|]. unfold abs, checkLocalServer, probe; simpl.
  now rewrite filter_observable_app.
Qed.

Lemma refines_invoke (s : suite) (o : outcome) : refines (invoke s o) (call s o).
Proof.
  unfold invoke, call. apply refines_bind; [now apply refines_emit_see|].
  intros _. destruct o as [b|e]; [apply refines_ret|].
  apply refines_bind; [now apply refines_emit_see | intros _; apply refines_throw].
Qed.

Lemma refines_invokeLocal (s : suite) (o : localOutcome) :
  refines (invokeLocal s o) (callLocal s o).
Proof.
  destruct o as [o|]; [apply refines_invoke|].
  unfold invokeLocal, callLocal.
  apply refines_bind; [now apply refines_emit_see | intros _; apply refines_exit].
Qed.

Lemma refines_installOne (dep : string) : refines (installOne dep) (ret tt).
Proof.
  unfold installOne. apply refines_quiet_bind; [apply refines_log|].
  destruct (npmInstall w dep);
    (apply refines_quiet_bind; [now apply refines_emit_quiet | apply refines_log]).
Qed.

Lemma refines_installDependencies : refines installDependencies (ret tt).
Proof.
  unfold installDependencies.
  apply refines_quiet_bind; [apply refines_log|].
  apply refines_quiet_bind; [apply refines_installOne|].
  apply refines_installOne.
Qed.

Lemma refines_logRequirements (reqs : list (string * string)) :
  refines (logRequirements reqs) (ret tt).
Proof.
  induction reqs as [|[req desc] reqs IH]; simpl; [apply refines_ret|].
  apply refines_quiet_bind; [apply refines_log | exact IH].
Qed.

Lemma refines_lighthouseAuditTest :
  refines lighthouseAuditTest
    (localTest lighthouseSuite (lighthouse w) "lighthouseAudit"
       "Lighthouse performance audit"
       "Performance, accessibility, SEO, and best practices validation").
Proof.
  unfold lighthouseAuditTest, localTest.
  do 2 (apply refines_quiet_bind; [apply refines_log|]).
  apply refines_bind; [apply refines_checkLocalServer|].
  intros up. apply refines_bind_quiet; [|apply refines_log].
  destruct (negb up).
  - do 2 (apply refines_quiet_bind; [apply refines_log|]). apply refines_record.
  - apply refines_tryCatch; [|intros e; apply refines_record].
    apply refines_bind; [apply refines_invokeLocal | intros r; apply refines_record].
Qed.

Lemma refines_browserTestsTest :
  refines browserTestsTest
    (localTest browserSuite (browser w) "browserTests"
       "Cross-browser compatibility tests"
       "Responsive design, animations, and accessibility across browsers").
Proof.
  unfold browserTestsTest, localTest.
  do 2 (apply refines_quiet_bind; [apply refines_log|]).
  apply refines_bind; [apply refines_checkLocalServer|].
  intros up. apply refines_bind_quiet; [|apply refines_log].
  destruct (negb up); [apply refines_record|].
  apply refines_tryCatch; [|intros e; apply refines_record].
  apply refines_bind; [apply refines_invokeLocal | intros r; apply refines_record].
Qed.

Lemma refines_deploymentVerificationTest :
  refines deploymentVerificationTest deploymentTest.
Proof.
  unfold deploymentVerificationTest, deploymentTest.
  do 2 (apply refines_quiet_bind; [apply refines_log|]).
  apply refines_bind_quiet; [|apply refines_log].
  apply refines_tryCatch; [|intros e; apply refines_record].
  apply refines_bind; [apply refines_invoke | intros r; apply refines_record].
Qed.

Lemma refines_writeFileSync (path content : string) (failure : option Error) :
  refines (writeFileSync path content failure) (written failure).
Proof.
  destruct failure as [e|]; [apply refines_throw|].
  now apply refines_emit_quiet.
Qed.

Lemma refines_getResults : refines getResults look.
Proof. intros st. now split. Qed.

Lemma refines_generateComprehensiveReport (results : obj SuiteResult) :
  refines (generateComprehensiveReport results) (reportWritten results).
Proof.
  unfold generateComprehensiveReport, reportWritten. cbv zeta.
  apply refines_bind; [apply refines_writeFileSync | intros _].
  apply refines_bind; [apply refines_writeFileSync | intros _].
  do 2 (apply refines_quiet_bind; [apply refines_log|]).
  apply refines_ret.
Qed.

Lemma refines_reportAndSummary : refines reportAndSummary reporting.
Proof.
  unfold reportAndSummary, reporting.
  do 2 (apply refines_quiet_bind; [apply refines_log|]).
  apply refines_bind; [apply refines_getResults | intros results].
  apply refines_bind; [apply refines_generateComprehensiveReport | intros report].
  do 8 (apply refines_quiet_bind; [apply refines_log|]).
  apply refines_quiet_bind; [apply refines_logRequirements|].
  apply refines_quiet_bind; [apply refines_log|].
  apply refines_ret.
Qed.

Lemma bind_assoc {S A B C : Type} (m : Mon S A) (k : A -> Mon S B)
    (h : B -> Mon S C) (st : S) :
  bind (bind m k) h st = bind m (fun a => bind (k a) h) st.
Proof. unfold bind. now destruct (m st) as [[a|e|c] st']. Qed.

Lemma refines_runIntegrationTests : refines runIntegrationTests observableRun.
Proof.
  assert (H : refines runIntegrationTests
                (when (runLocal cfg)
                   (localTest lighthouseSuite (lighthouse w) "lighthouseAudit"
                      "Lighthouse performance audit"
                      "Performance, accessibility, SEO, and best practices validation" ;;
                    localTest browserSuite (browser w) "browserTests"
                      "Cross-browser compatibility tests"
                      "Responsive design, animations, and accessibility across browsers") ;;
                 when (runDeployment cfg) deploymentTest ;;
                 reporting)).
  { unfold runIntegrationTests.
    do 2 (apply refines_quiet_bind; [apply refines_log|]).
    apply refines_quiet_bind; [apply refines_installDependencies|].
    apply refines_bind.
    { apply refines_when. apply refines_bind;
        [apply refines_lighthouseAuditTest | intros _; apply refines_browserTestsTest]. }
    intros _. apply refines_bind.
    { apply refines_when. apply refines_deploymentVerificationTest. }
    intros _. apply refines_reportAndSummary. }
  intros st. unfold observableRun, observableTests. rewrite bind_assoc. apply H.
Qed.

(** What a finished run lets one observe. *)
Lemma run_observed :
  fst (runIntegrationTests initial) = fst (observableRun start)
  /\ abs (snd (runIntegrationTests initial)) = snd (observableRun start).
Proof. exact (refines_runIntegrationTests initial). Qed.

Lemma In_observed (e : event) (st : State) :
  observable e = true -> (In e (trace st) <-> In e (seen (abs st))).
Proof.
  intros He. unfold abs; simpl. rewrite filter_In. tauto.
Qed.



(** *** Facts about the observable run *)

(** Case analysis on what the world decides, as the run meets it. *)
Ltac world_case :=
  match goal with
  | |- context [match ?x with _ => _ end] =>
      lazymatch x with
      | context [match _ with _ => _ end] => fail
      | negb ?y => destruct y eqn:?
      | _ => destruct x eqn:?
      end
  end.

Ltac unfold_run :=
  unfold observableRun, observableTests, localTest, deploymentTest, reporting, reportWritten,
    written, look, callLocal, call, probe, keep, see, when, tryCatch, throw,
    exit, bind, ret, start.

Ltac explore_run := unfold_run; repeat (cbn -[summarize]; try world_case).

Lemma filter_split {A : Type} (p : A -> bool) (l a b : list A) (x : A) :
  filter p l = (a ++ x :: b)%list ->
  exists l1 l2, l = (l1 ++ x :: l2)%list /\ filter p l1 = a /\ filter p l2 = b.
Proof.
  revert a. induction l as [|y l IH]; intros a H; simpl in H.
  - destruct a; discriminate.
  - destruct (p y) eqn:Hy.
    + destruct a as [|z a]; simpl in H.
      * injection H as -> H. exists [], l. simpl. auto.
      * injection H as -> H. destruct (IH a H) as (l1 & l2 & -> & H1 & H2).
        exists (z :: l1), l2. simpl. rewrite Hy, H1. auto.
    + destruct (IH a H) as (l1 & l2 & -> & H1 & H2).
      exists (y :: l1), l2. simpl. rewrite Hy. auto.
Qed.


Lemma main_run :
  snd main = snd (runIntegrationTests initial)
  /\ fst main = match fst (runIntegrationTests initial) with
                | Normal success => if success then 0%Z else 1%Z
                | Thrown _ => 1%Z
                | Exit code => code
                end.
Proof.
  unfold main. destruct (runIntegrationTests initial) as [[b|e|c] st]; now split.
Qed.

Lemma recorded_main :
  recorded (snd main) = store (snd (observableRun start)).
Proof.
  destruct main_run as [-> _]. destruct run_observed as [_ <-]. reflexivity.
Qed.




Lemma seen_main (e : event) :
  observable e = true ->
  (In e (trace (snd main)) <-> In e (seen (snd (observableRun start)))).
Proof.
  intros He. destruct main_run as [-> _]. destruct run_observed as [_ <-].
  now apply In_observed.
Qed.

Lemma snd_observableRun : snd (observableRun start) = snd (observableTests start).
Proof.
  unfold observableRun, bind.
  destruct (observableTests start) as [[[]|e|c] a]; try reflexivity.
  unfold reporting, reportWritten, written, look, bind, ret, throw.
  now destruct (writeJSON w), (writeHTML w).
Qed.

Lemma observableRun_server_down :
  let a := snd (observableRun start) in
  (In (Curl 0 false) (seen a) ->
   get (store a) "lighthouseAudit"
     = Some (skippedResult "Lighthouse performance audit")
   /\ ~ In (Invoke lighthouseSuite) (seen a))
  /\ (In (Curl 1 false) (seen a) ->
      get (store a) "browserTests"
        = Some (skippedResult "Cross-browser compatibility tests")
      /\ ~ In (Invoke browserSuite) (seen a)).
Proof.
  cbv zeta. rewrite snd_observableRun.
  explore_run; (split; intros H; [split; [|intros H']|split; [|intros H']]);
    simpl in *; try reflexivity;
    repeat match goal with
           | H : _ \/ _ |- _ => destruct H
           | H : False |- _ => destruct H
           | H : _ = _ |- _ => discriminate H
           end.
Qed.

Lemma observableTests_probes :
  runLocal cfg = true -> serverUp w 0 = false ->
  let a := snd (observableTests start) in
  In (Curl 0 false) (seen a) /\ In (Curl 1 (serverUp w 1)) (seen a).
Proof.
  intros Hlocal Hdown. cbv zeta. unfold_run. rewrite Hlocal.
  cbn -[summarize]. rewrite Hdown.
  repeat (cbn -[summarize]; try world_case); simpl; tauto.
Qed.

(** C7. When the probe of the local server that precedes the Lighthouse
    audit fails, the audit is recorded as SKIPPED with the error
    'Local server not accessible' and [runLighthouseAudit] is not called;
    when the probe that precedes the browser tests fails, the same holds
    of the browser tests and [runBrowserTests]. So, when the local tests
    are configured and the server does not answer, both suites are
    recorded as SKIPPED and neither function is called. *)
Theorem server_down_skips :
  let st := snd main in
  (In (Curl 0 false) (trace st) ->
   get (recorded st) "lighthouseAudit"
     = Some [("status", "SKIPPED");
             ("description", "Lighthouse performance audit");
             ("error", "Local server not accessible")]
   /\ ~ In (Invoke lighthouseSuite) (trace st))
  /\ (In (Curl 1 false) (trace st) ->
      get (recorded st) "browserTests"
        = Some [("status", "SKIPPED");
                ("description", "Cross-browser compatibility tests");
                ("error", "Local server not accessible")]
      /\ ~ In (Invoke browserSuite) (trace st))
  /\ (runLocal cfg = true -> (forall n, serverUp w n = false) ->
      get (recorded st) "lighthouseAudit"
        = Some [("status", "SKIPPED");
                ("description", "Lighthouse performance audit");
                ("error", "Local server not accessible")]
      /\ get (recorded st) "browserTests"
         = Some [("status", "SKIPPED");
                 ("description", "Cross-browser compatibility tests");
                 ("error", "Local server not accessible")]
      /\ ~ In (Invoke lighthouseSuite) (trace st)
      /\ ~ In (Invoke browserSuite) (trace st)).
Proof.
  cbv zeta. rewrite recorded_main, !seen_main by reflexivity.
  destruct observableRun_server_down as [H0 H1].
  split; [exact H0|]. split; [exact H1|].
  intros Hlocal Hdown.
  destruct (observableTests_probes Hlocal (Hdown 0)) as [Hp0 Hp1].
  rewrite (Hdown 1) in Hp1. rewrite <- snd_observableRun in Hp0, Hp1.
  destruct (H0 Hp0) as [Hl Hnl]. destruct (H1 Hp1) as [Hb Hnb].
  repeat split; assumption.
Qed.

(** [x] occurs in [l] and [y] occurs after it. *)
Definition precedes {A : Type} (x y : A) (l : list A) : Prop :=
  exists l1 l2, l = (l1 ++ x :: l2)%list /\ In y l2.

Lemma precedes_here {A : Type} (x y : A) (l : list A) :
  In y l -> precedes x y (x :: l).
Proof. intros H. now exists [], l. Qed.

Lemma precedes_later {A : Type} (x y z : A) (l : list A) :
  precedes x y l -> precedes x y (z :: l).
Proof. intros (l1 & l2 & -> & H). now exists (z :: l1), l2. Qed.

Lemma precedes_filter {A : Type} (p : A -> bool) (x y : A) (l : list A) :
  precedes x y (filter p l) -> precedes x y l.
Proof.
  intros (a & b & H & Hy).
  destruct (filter_split p l a b x H) as (l1 & l2 & -> & _ & <-).
  exists l1, l2. split; [reflexivity|]. now apply filter_In in Hy.
Qed.

Lemma observableTests_browser_throws (e : Error) :
  runDeployment cfg = true ->
  let a := snd (observableTests start) in
  In (Threw browserSuite e) (seen a) ->
  keys (store a) = ["lighthouseAudit"; "browserTests"; "deploymentVerification"]
  /\ get (store a) "browserTests"
     = Some (failedResult "Cross-browser compatibility tests" e)
  /\ (serverUp w 0 = false ->
      get (store a) "lighthouseAudit"
      = Some (skippedResult "Lighthouse performance audit"))
  /\ (serverUp w 0 = true ->
      exists o, lighthouse w = Ran o
        /\ get (store a) "lighthouseAudit"
           = Some match o with
                  | Returns b =>
                      completedResult b "Lighthouse performance audit"
                        "Performance, accessibility, SEO, and best practices validation"
                  | Throws e1 => failedResult "Lighthouse performance audit" e1
                  end)
  /\ get (store a) "deploymentVerification"
     = Some match deployment w with
            | Returns b =>
                completedResult b "GitHub Pages deployment verification"
                  "GitHub Actions, custom domain, HTTPS, and SEO validation"
            | Throws e3 =>
                failedResult "GitHub Pages deployment verification" e3
            end
  /\ precedes (Threw browserSuite e) (Invoke deploymentSuite) (seen a).
Proof.
  intros Hdep. cbv zeta. unfold_run. rewrite Hdep.
  repeat (cbn -[summarize]; try world_case);
    intros H; simpl in H;
    repeat match goal with
           | H : _ \/ _ |- _ => destruct H
           | H : False |- _ => destruct H
           | H : _ = _ |- _ => discriminate H
           | H : Threw _ _ = Threw _ _ |- _ => injection H as ->
           end;
    (split; [reflexivity|]); (split; [reflexivity|]);
    (split; [intros Hup; first [discriminate Hup | reflexivity]|]);
    (split; [intros Hup; first [discriminate Hup | eexists; split; reflexivity]|]);
    (split; [reflexivity|]);
    repeat first [apply precedes_here; simpl; tauto | apply precedes_later].
Qed.

Lemma observableTests_other_throws :
  let a := snd (observableTests start) in
  (forall e, In (Threw lighthouseSuite e) (seen a) ->
             get (store a) "lighthouseAudit"
             = Some (failedResult "Lighthouse performance audit" e)
             /\ precedes (Threw lighthouseSuite e) (Curl 1 (serverUp w 1)) (seen a))
  /\ (forall e, In (Threw deploymentSuite e) (seen a) ->
                get (store a) "deploymentVerification"
                = Some (failedResult "GitHub Pages deployment verification" e)).
Proof.
  cbv zeta. explore_run; (split; intros e H; simpl in H);
    repeat match goal with
           | H : _ \/ _ |- _ => destruct H
           | H : False |- _ => destruct H
           | H : _ = _ |- _ => discriminate H
           | H : Threw _ _ = Threw _ _ |- _ => injection H as ->
           end;
    try reflexivity;
    (split; [reflexivity|]);
    repeat first [apply precedes_here; simpl; tauto | apply precedes_later].
Qed.

Lemma precedes_main (x y : event) :
  precedes x y (seen (snd (observableTests start))) ->
  precedes x y (trace (snd main)).
Proof.
  intros Hp. apply precedes_filter with (p := observable).
  destruct main_run as [-> _]. destruct run_observed as [_ Habs].
  rewrite snd_observableRun in Habs. rewrite <- Habs in Hp. exact Hp.
Qed.

(** C3. With the deployment test configured, a run in which the browser
    suite function throws [e] records exactly three suites: the browser
    tests as FAILED with the message of [e], the Lighthouse audit by its own
    outcome (SKIPPED when its probe failed, PASSED or FAILED by the value it
    returned, FAILED with the message it threw), and the deployment
    verification by its own outcome; the deployment suite function is
    called after the throw. Likewise a throw of the Lighthouse suite
    function is recorded as FAILED with its message and the run goes on to
    the probe of the browser tests, and a throw of the deployment suite
    function is recorded as FAILED with its message. *)
Theorem suite_failure_isolated :
  let st := snd main in
  (forall e : Error,
      runDeployment cfg = true ->
      In (Threw browserSuite e) (trace st) ->
      keys (recorded st)
      = ["lighthouseAudit"; "browserTests"; "deploymentVerification"]
      /\ totalTestSuites (summarize (recorded st)) = 3
      /\ get (recorded st) "browserTests"
         = Some [("status", "FAILED");
                 ("description", "Cross-browser compatibility tests");
                 ("error", message e)]
      /\ (serverUp w 0 = false ->
          get (recorded st) "lighthouseAudit"
          = Some [("status", "SKIPPED");
                  ("description", "Lighthouse performance audit");
                  ("error", "Local server not accessible")])
      /\ (serverUp w 0 = true ->
          exists o, lighthouse w = Ran o
            /\ get (recorded st) "lighthouseAudit"
               = Some match o with
                      | Returns b =>
                          [("status", if b then "PASSED" else "FAILED");
                           ("description", "Lighthouse performance audit");
                           ("details",
                            "Performance, accessibility, SEO, and best practices validation")]
                      | Throws e1 =>
                          [("status", "FAILED");
                           ("description", "Lighthouse performance audit");
                           ("error", message e1)]
                      end)
      /\ get (recorded st) "deploymentVerification"
         = Some match deployment w with
                | Returns b =>
                    [("status", if b then "PASSED" else "FAILED");
                     ("description", "GitHub Pages deployment verification");
                     ("details",
                      "GitHub Actions, custom domain, HTTPS, and SEO validation")]
                | Throws e3 =>
                    [("status", "FAILED");
                     ("description", "GitHub Pages deployment verification");
                     ("error", message e3)]
                end
      /\ precedes (Threw browserSuite e) (Invoke deploymentSuite) (trace st))
  /\ (forall e : Error,
        In (Threw lighthouseSuite e) (trace st) ->
        get (recorded st) "lighthouseAudit"
        = Some [("status", "FAILED");
                ("description", "Lighthouse performance audit");
                ("error", message e)]
        /\ precedes (Threw lighthouseSuite e) (Curl 1 (serverUp w 1)) (trace st))
  /\ (forall e : Error,
        In (Threw deploymentSuite e) (trace st) ->
        get (recorded st) "deploymentVerification"
        = Some [("status", "FAILED");
                ("description", "GitHub Pages deployment verification");
                ("error", message e)]).
Proof.
  cbv zeta. split; [|split].
  - intros e Hdep Hthrow. apply seen_main in Hthrow; [|reflexivity].
    rewrite snd_observableRun in Hthrow.
    destruct (observableTests_browser_throws e Hdep Hthrow)
      as (Hk & Hb & Hl0 & Hl1 & Hd & Hp).
    rewrite recorded_main, snd_observableRun.
    split; [exact Hk|].
    split; [simpl; now rewrite Hk|].
    split; [exact Hb|]. split; [exact Hl0|]. split; [exact Hl1|].
    split; [exact Hd|]. now apply precedes_main.
  - intros e Hthrow. apply seen_main in Hthrow; [|reflexivity].
    rewrite snd_observableRun in Hthrow.
    destruct observableTests_other_throws as [Hl _].
    destruct (Hl e Hthrow) as [Hr Hp].
    rewrite recorded_main, snd_observableRun.
    split; [exact Hr | now apply precedes_main].
  - intros e Hthrow. apply seen_main in Hthrow; [|reflexivity].
    rewrite snd_observableRun in Hthrow.
    destruct observableTests_other_throws as [_ Hd].
    rewrite recorded_main, snd_observableRun. exact (Hd e Hthrow).
Qed.

(** *** What every run records *)

(** The names under which [runIntegrationTests] stores a result. *)
Definition suiteNames : list string :=
  ["lighthouseAudit"; "browserTests"; "deploymentVerification"].

Definition wellRecorded (results : obj SuiteResult) : Prop :=
  wf results
  /\ forall name r, In (name, r) results ->
                    In name suiteNames /\ validStatus r = true.

Lemma wellRecorded_set (results : obj SuiteResult) (name : string)
    (r : SuiteResult) :
  wellRecorded results -> In name suiteNames -> validStatus r = true ->
  wellRecorded (set results name r).
Proof.
  intros [Hwf Hall] Hn Hr. split; [now apply wf_set|].
  intros n x Hin. apply In_set in Hin as [[-> ->]|Hin]; auto.
Qed.

Definition keepsRecorded {A : Type} (m : Mon Obs A) : Prop :=
  forall a, wellRecorded (store a) -> wellRecorded (store (snd (m a))).

Lemma keepsRecorded_bind {A B : Type} (m : Mon Obs A) (k : A -> Mon Obs B) :
  keepsRecorded m -> (forall x, keepsRecorded (k x)) ->
  keepsRecorded (bind m k).
Proof.
  intros Hm Hk a Ha. unfold bind. specialize (Hm a Ha).
  destruct (m a) as [[x|e|c] a1]; [now apply Hk | exact Hm | exact Hm].
Qed.

Lemma keepsRecorded_tryCatch {A : Type} (m : Mon Obs A)
    (h : Error -> Mon Obs A) :
  keepsRecorded m -> (forall e, keepsRecorded (h e)) ->
  keepsRecorded (tryCatch m h).
Proof.
  intros Hm Hh a Ha. unfold tryCatch. specialize (Hm a Ha).
  destruct (m a) as [[x|e|c] a1]; [exact Hm | now apply Hh | exact Hm].
Qed.

Lemma keepsRecorded_keep (name : string) (r : SuiteResult) :
  In name suiteNames -> validStatus r = true -> keepsRecorded (keep name r).
Proof. intros Hn Hr a Ha. now apply wellRecorded_set. Qed.

Lemma keepsRecorded_callLocal (s : suite) (o : localOutcome) :
  keepsRecorded (callLocal s o).
Proof. intros a Ha. now destruct o as [[b|e]|]. Qed.

Lemma keepsRecorded_localTest (s : suite) (o : localOutcome)
    (name description details : string) :
  In name suiteNames ->
  keepsRecorded (localTest s o name description details).
Proof.
  intros Hn. unfold localTest.
  apply keepsRecorded_bind; [now intros a Ha|].
  intros up. destruct (negb up); [now apply keepsRecorded_keep|].
  apply keepsRecorded_tryCatch.
  - apply keepsRecorded_bind; [apply keepsRecorded_callLocal|].
    intros r. apply keepsRecorded_keep; [exact Hn | now destruct r].
  - intros e. now apply keepsRecorded_keep.
Qed.

Lemma keepsRecorded_deploymentTest : keepsRecorded deploymentTest.
Proof.
  unfold deploymentTest. apply keepsRecorded_tryCatch.
  - apply keepsRecorded_bind.
    + intros a Ha. now destruct (deployment w).
    + intros r. apply keepsRecorded_keep; [simpl; auto | now destruct r].
  - intros e. apply keepsRecorded_keep; [simpl; auto | reflexivity].
Qed.

Lemma keepsRecorded_observableTests : keepsRecorded observableTests.
Proof.
  unfold observableTests. apply keepsRecorded_bind.
  - destruct (runLocal cfg); [|now intros a Ha].
    apply keepsRecorded_bind; [|intros _];
      apply keepsRecorded_localTest; simpl; auto.
  - intros _. destruct (runDeployment cfg); [|now intros a Ha].
    apply keepsRecorded_deploymentTest.
Qed.

Lemma wellRecorded_main : wellRecorded (recorded (snd main)).
Proof.
  rewrite recorded_main, snd_observableRun.
  apply keepsRecorded_observableTests. split; [constructor | intros n r []].
Qed.

Lemma wellRecorded_length (results : obj SuiteResult) :
  wellRecorded results -> List.length results <= 3.
Proof.
  intros [Hwf Hall].
  replace (List.length results) with (List.length (keys results))
    by apply length_map.
  change 3 with (List.length suiteNames).
  apply NoDup_incl_length; [exact Hwf|].
  intros k Hk. apply in_map_iff in Hk as [[n r] [<- Hin]].
  now apply (Hall n r).
Qed.

Lemma score_upto_three (p t : nat) :
  p <= t -> t <= 3 ->
  In (score p t) [Int 0; Int 33; Int 50; Int 67; Int 100].
Proof.
  intros Hp Ht.
  destruct t as [|[|[|[|t]]]]; [| | | |lia];
    destruct p as [|[|[|[|p]]]]; try lia; vm_compute; tauto.
Qed.

(** X6. In every run, for every configuration and whatever the suites, the
    server and the file system do, the recorded results have pairwise
    distinct names among the three of the runner, and each has the status
    PASSED, FAILED or SKIPPED. So the counts of the summary always add up
    to the number of suites, which is at most three, and the overall
    score is one of 0, 33, 50, 67 and 100. *)
Theorem run_records_valid_results :
  let results := recorded (snd main) in
  let s := summarize results in
  wf results
  /\ (forall name r, In (name, r) results ->
                     In name suiteNames /\ validStatus r = true)
  /\ passed s + failed s + skipped s = totalTestSuites s
  /\ totalTestSuites s <= 3
  /\ In (overallScore s) [Int 0; Int 33; Int 50; Int 67; Int 100].
Proof.
  cbv zeta. pose proof wellRecorded_main as H.
  pose proof (wellRecorded_length H) as Hlen.
  destruct H as [Hwf Hall].
  assert (Hsum : passed (summarize (recorded (snd main)))
                 + failed (summarize (recorded (snd main)))
                 + skipped (summarize (recorded (snd main)))
                 = totalTestSuites (summarize (recorded (snd main)))).
  { simpl. unfold keys. rewrite length_map, <- (length_map snd).
    apply counts_partition. intros r Hr.
    apply in_map_iff in Hr as [[n x] [<- Hin]]. now apply (Hall n x). }
  split; [exact Hwf|]. split; [exact Hall|]. split; [exact Hsum|].
  assert (Htot : totalTestSuites (summarize (recorded (snd main))) <= 3).
  { simpl. unfold keys. now rewrite length_map. }
  split; [exact Htot|].
  change (overallScore (summarize (recorded (snd main))))
    with (score (passed (summarize (recorded (snd main))))
                (totalTestSuites (summarize (recorded (snd main))))).
  apply score_upto_three; [lia | exact Htot].
Qed.

(** C2. The summary of the report generator. [generateComprehensiveReport]
    is not exported and has one call, in [runIntegrationTests], with the
    results that the run has recorded. In every run, for every
    configuration and whatever the suites, the server and the file system
    do, these are at most three results (none when neither the local nor
    the deployment tests are configured), and their summary satisfies the
    invariant: the three counts add up to the number of results, which is
    [totalTestSuites], and the overall score is the percentage of passed
    suites rounded to the nearest integer, a tie rounded up, when there is
    a result, and 0 when there is none.

    Of the summary on its own, for any results whose statuses are among
    PASSED, FAILED and SKIPPED: the counts add up to the number of
    results; with no result the summary is all zeros, score included; with
    1 to 39 results the score is that rounding; with 1 to 500 results it is
    that rounding unless the percentage is an exact tie, where the double
    of [(passed / total) * 100] can lie below the tie and the score be one
    less (23 of 40 is the first such pair, see [score_23_of_40]). *)
Theorem report_summary_invariant :
  (let results := recorded (snd main) in
   let s := summary (buildReport (now w) (host w) results) in
   let total := List.length results in
   total <= 3
   /\ passed s + failed s + skipped s = total
   /\ totalTestSuites s = total
   /\ overallScore s
      = if (0 <? total)%nat
        then Int (round_half_up (100 * Z.of_nat (passed s)) (Z.of_nat total))
        else Int 0)
  /\ (forall results : obj SuiteResult,
        (forall r, In r (values results) -> validStatus r = true) ->
        let s := summarize results in
        let total := List.length results in
        let rounded := round_half_up (100 * Z.of_nat (passed s))
                                     (Z.of_nat total) in
        passed s + failed s + skipped s = total
        /\ totalTestSuites s = total
        /\ (total = 0 ->
            s = {| totalTestSuites := 0; passed := 0; failed := 0;
                   skipped := 0; overallScore := Int 0 |})
        /\ (1 <= total <= 39 -> overallScore s = Int rounded)
        /\ (1 <= total <= 500 ->
            (tie (passed s) total = false -> overallScore s = Int rounded)
            /\ (tie (passed s) total = true ->
                overallScore s = Int rounded
                \/ overallScore s = Int (rounded - 1)))).
Proof.
  split.
  - cbv zeta. pose proof wellRecorded_main as H.
    pose proof (wellRecorded_length H) as Hlen. destruct H as [_ Hall].
    assert (Hv : forall r, In r (values (recorded (snd main))) ->
                           validStatus r = true).
    { intros r Hr. apply in_map_iff in Hr as [[n x] [<- Hin]].
      now apply (Hall n x). }
    destruct (@summarize_valid _ Hv) as (H1 & H2 & H3 & H4).
    change (summary (buildReport (now w) (host w) (recorded (snd main))))
      with (summarize (recorded (snd main))).
    split; [exact Hlen|]. split; [exact H1|]. split; [exact H2|].
    rewrite H4.
    destruct (List.length (recorded (snd main))) as [|n]; [reflexivity|].
    change (0 <? S n)%nat with true. cbv iota. apply score_small; lia.
  - intros results Hv. cbv zeta.
    destruct (@summarize_valid _ Hv) as (H1 & H2 & H3 & H4).
    split; [exact H1|]. split; [exact H2|].
    split; [intros H0; destruct results; [reflexivity | discriminate]|].
    rewrite H4.
    split; [intros Hlen; apply score_small; [exact H3 | exact Hlen]|].
    intros Hlen. now apply score_large.
Qed.

(** *** The calls of the suite functions *)

(** The suite functions called during a run, in the order of the calls. *)
Definition calls (t : list event) : list suite :=
  flat_map (fun e => match e with Invoke s => [s] | _ => [] end) t.

Lemma calls_filter (t : list event) : calls (filter observable t) = calls t.
Proof.
  induction t as [|e t IH]; [reflexivity|].
  destruct e; simpl; now rewrite IH.
Qed.

Lemma calls_main :
  calls (trace (snd main)) = calls (seen (snd (observableTests start))).
Proof.
  destruct main_run as [-> _]. rewrite <- snd_observableRun.
  destruct run_observed as [_ <-]. simpl. now rewrite calls_filter.
Qed.

(** The report never ends the process: only a suite function does. *)
Lemma exit_observableTests (c : Z) :
  fst (runIntegrationTests initial) = Exit c
  <-> fst (observableTests start) = Exit c.
Proof.
  destruct run_observed as [-> _]. unfold observableRun, bind.
  destruct (observableTests start) as [[[]|e|c'] a]; simpl.
  - unfold reporting, reportWritten, written, look, bind, ret, throw.
    destruct (writeJSON w), (writeHTML w); simpl; split; discriminate.
  - split; discriminate.
  - split; intros [= ->]; reflexivity.
Qed.

Lemma observableTests_calls :
  let r := observableTests start in
  let called := calls (seen (snd r)) in
  (exists l b d : bool,
      called = ((if l then [lighthouseSuite] else [])
                ++ (if b then [browserSuite] else [])
                ++ (if d then [deploymentSuite] else []))%list)
  /\ (In lighthouseSuite called ->
      runLocal cfg = true /\ serverUp w 0 = true)
  /\ (In browserSuite called ->
      runLocal cfg = true /\ serverUp w 1 = true)
  /\ (In deploymentSuite called <->
      runDeployment cfg = true /\ forall c, fst r <> Exit c).
Proof.
  cbv zeta. explore_run;
    (split; [first [ now exists false, false, false
                   | now exists false, false, true
                   | now exists false, true, false
                   | now exists false, true, true
                   | now exists true, false, false
                   | now exists true, false, true
                   | now exists true, true, false
                   | now exists true, true, true ]|]);
    (split; [simpl; intuition discriminate|]);
    (split; [simpl; intuition discriminate|]);
    simpl; split;
    try (intros [H|[H|[H|H]]]; discriminate H || contradiction H);
    try (intros [H|[H|H]]; discriminate H || contradiction H);
    try (intros [H|H]; discriminate H || contradiction H);
    try (intros []; fail);
    try (intros [H _]; discriminate H);
    try (intros [_ H]; now elim (H 1%Z));
    try (intros _; split; [reflexivity | intros c; discriminate]);
    try (intros _; tauto).
Qed.

(** X7. In every run each suite function is called at most once, and the calls
    come in the order Lighthouse, browsers, deployment. A local suite is
    called only when the local tests are enabled and the probe that
    precedes it found the server. The deployment suite is called exactly
    when the deployment tests are enabled and no local suite has ended
    the process. *)
Theorem suites_called_once_in_order :
  let called := calls (trace (snd main)) in
  (exists l b d : bool,
      called = ((if l then [lighthouseSuite] else [])
                ++ (if b then [browserSuite] else [])
                ++ (if d then [deploymentSuite] else []))%list)
  /\ (In lighthouseSuite called ->
      runLocal cfg = true /\ serverUp w 0 = true)
  /\ (In browserSuite called ->
      runLocal cfg = true /\ serverUp w 1 = true)
  /\ (In deploymentSuite called <->
      runDeployment cfg = true
      /\ forall c, fst (runIntegrationTests initial) <> Exit c).
Proof.
  cbv zeta. rewrite calls_main.
  destruct observableTests_calls as (H1 & H2 & H3 & H4).
  split; [exact H1|]. split; [exact H2|]. split; [exact H3|].
  rewrite H4. split; intros [Hd Hc]; (split; [exact Hd|]); intros c Hx;
    apply (Hc c); now apply exit_observableTests.
Qed.

(** *** The files and the installations of a run *)

(** The files that the runner itself writes, with their contents, in order:
    the writes of [generateComprehensiveReport]. What the suite functions
    write during their calls is not among them, see [fileWrites]. *)
Definition writes (t : list event) : list (string * string) :=
  flat_map (fun e => match e with WriteFile p c => [(p, c)] | _ => [] end) t.

(** The installations attempted, with their success, in order. *)
Definition installs (t : list event) : list (string * bool) :=
  flat_map (fun e => match e with Install d ok => [(d, ok)] | _ => [] end) t.

Definition silent (e : event) : bool :=
  match e with
  | WriteFile _ _ | Install _ _ => false
  | _ => true
  end.

(** [m] writes no file and installs nothing. *)
Definition leaves {A : Type} (m : M A) : Prop :=
  forall st, writes (trace (snd (m st))) = writes (trace st)
             /\ installs (trace (snd (m st))) = installs (trace st).

(** [m] lets no exception escape. *)
Definition catches {A : Type} (m : M A) : Prop :=
  forall st e, fst (m st) <> Thrown e.

Lemma leaves_bind {A B : Type} (m : M A) (k : A -> M B) :
  leaves m -> (forall x, leaves (k x)) -> leaves (bind m k).
Proof.
  intros Hm Hk st. unfold bind. specialize (Hm st).
  destruct (m st) as [[x|e|c] st1]; [|exact Hm|exact Hm].
  destruct (Hk x st1) as [H1 H2]. simpl in Hm. destruct Hm as [H3 H4].
  split; congruence.
Qed.

Lemma leaves_tryCatch {A : Type} (m : M A) (h : Error -> M A) :
  leaves m -> (forall e, leaves (h e)) -> leaves (tryCatch m h).
Proof.
  intros Hm Hh st. unfold tryCatch. specialize (Hm st).
  destruct (m st) as [[x|e|c] st1]; [exact Hm| |exact Hm].
  destruct (Hh e st1) as [H1 H2]. simpl in Hm. destruct Hm as [H3 H4].
  split; congruence.
Qed.

Lemma leaves_emit (e : event) : silent e = true -> leaves (emit e).
Proof.
  intros He st. unfold emit, writes, installs; simpl.
  rewrite !flat_map_app. destruct e; try discriminate; simpl;
    now rewrite !app_nil_r.
Qed.

Lemma leaves_same {A : Type} (m : M A) :
  (forall st, trace (snd (m st)) = trace st) -> leaves m.
Proof. intros H st. now rewrite H. Qed.

Lemma leaves_invoke (s : suite) (o : outcome) : leaves (invoke s o).
Proof.
  unfold invoke. apply leaves_bind; [now apply leaves_emit|].
  intros _. destruct o as [b|e]; [now apply leaves_same|].
  apply leaves_bind; [now apply leaves_emit | intros _; now apply leaves_same].
Qed.

Lemma leaves_invokeLocal (s : suite) (o : localOutcome) :
  leaves (invokeLocal s o).
Proof.
  destruct o as [o|]; [apply leaves_invoke|]. unfold invokeLocal.
  apply leaves_bind; [now apply leaves_emit | intros _; now apply leaves_same].
Qed.

Lemma leaves_checkLocalServer : leaves checkLocalServer.
Proof.
  intros st. unfold checkLocalServer, writes, installs; simpl.
  rewrite !flat_map_app. simpl. now rewrite !app_nil_r.
Qed.

Ltac leave_logs :=
  repeat (apply leaves_bind; [now apply leaves_emit | intros _]).

Lemma leaves_lighthouseAuditTest : leaves lighthouseAuditTest.
Proof.
  unfold lighthouseAuditTest, log. leave_logs.
  apply leaves_bind; [apply leaves_checkLocalServer | intros up].
  apply leaves_bind; [|intros _; now apply leaves_emit].
  destruct (negb up); [leave_logs; now apply leaves_same|].
  apply leaves_tryCatch; [|intros e; now apply leaves_same].
  apply leaves_bind; [apply leaves_invokeLocal | intros r; now apply leaves_same].
Qed.

Lemma leaves_browserTestsTest : leaves browserTestsTest.
Proof.
  unfold browserTestsTest, log. leave_logs.
  apply leaves_bind; [apply leaves_checkLocalServer | intros up].
  apply leaves_bind; [|intros _; now apply leaves_emit].
  destruct (negb up); [now apply leaves_same|].
  apply leaves_tryCatch; [|intros e; now apply leaves_same].
  apply leaves_bind; [apply leaves_invokeLocal | intros r; now apply leaves_same].
Qed.

Lemma leaves_deploymentVerificationTest : leaves deploymentVerificationTest.
Proof.
  unfold deploymentVerificationTest, log. leave_logs.
  apply leaves_bind; [|intros _; now apply leaves_emit].
  apply leaves_tryCatch; [|intros e; now apply leaves_same].
  apply leaves_bind; [apply leaves_invoke | intros r; now apply leaves_same].
Qed.

Lemma catches_bind {A B : Type} (m : M A) (k : A -> M B) :
  catches m -> (forall x, catches (k x)) -> catches (bind m k).
Proof.
  intros Hm Hk st e. unfold bind. specialize (Hm st).
  destruct (m st) as [[x|e'|c] st1];
    [apply Hk | now elim (Hm e') | discriminate].
Qed.

Lemma catches_tryCatch {A : Type} (m : M A) (h : Error -> M A) :
  (forall e, catches (h e)) -> catches (tryCatch m h).
Proof.
  intros Hh st e. unfold tryCatch.
  destruct (m st) as [[x|e'|c] st1]; [discriminate | apply Hh | discriminate].
Qed.

Lemma catches_normal {A : Type} (m : M A) :
  (forall st, exists x, fst (m st) = Normal x) -> catches m.
Proof. intros H st e. destruct (H st) as [x ->]. discriminate. Qed.

Ltac catch_logs :=
  repeat (apply catches_bind;
          [apply catches_normal; intros ?; now eexists | intros _]).

Lemma catches_record (name : string) (r : SuiteResult) :
  catches (record name r).
Proof. apply catches_normal. intros st. now eexists. Qed.

Lemma catches_lighthouseAuditTest : catches lighthouseAuditTest.
Proof.
  unfold lighthouseAuditTest, log. catch_logs.
  apply catches_bind; [apply catches_normal; intros ?; now eexists | intros up].
  apply catches_bind; [|intros _; apply catches_normal; intros ?; now eexists].
  destruct (negb up); [catch_logs; apply catches_record|].
  apply catches_tryCatch. intros e. apply catches_record.
Qed.

Lemma catches_browserTestsTest : catches browserTestsTest.
Proof.
  unfold browserTestsTest, log. catch_logs.
  apply catches_bind; [apply catches_normal; intros ?; now eexists | intros up].
  apply catches_bind; [|intros _; apply catches_normal; intros ?; now eexists].
  destruct (negb up); [apply catches_record|].
  apply catches_tryCatch. intros e. apply catches_record.
Qed.

Lemma catches_deploymentVerificationTest : catches deploymentVerificationTest.
Proof.
  unfold deploymentVerificationTest, log. catch_logs.
  apply catches_bind; [|intros _; apply catches_normal; intros ?; now eexists].
  apply catches_tryCatch. intros e. apply catches_record.
Qed.

(** The three tests of [runIntegrationTests] (lines 317-401). *)
Definition tests : M unit :=
  when (runLocal cfg) (lighthouseAuditTest ;; browserTestsTest) ;;
  when (runDeployment cfg) deploymentVerificationTest.

Lemma leaves_tests : leaves tests.
Proof.
  unfold tests. apply leaves_bind.
  - destruct (runLocal cfg); [|now apply leaves_same].
    apply leaves_bind; [apply leaves_lighthouseAuditTest|].
    intros _. apply leaves_browserTestsTest.
  - intros _. destruct (runDeployment cfg); [|now apply leaves_same].
    apply leaves_deploymentVerificationTest.
Qed.

Lemma catches_tests : catches tests.
Proof.
  unfold tests. apply catches_bind.
  - destruct (runLocal cfg); [|apply catches_normal; intros ?; now eexists].
    apply catches_bind; [apply catches_lighthouseAuditTest|].
    intros _. apply catches_browserTestsTest.
  - intros _. destruct (runDeployment cfg);
      [|apply catches_normal; intros ?; now eexists].
    apply catches_deploymentVerificationTest.
Qed.

(** The installations: both are attempted, whatever the first one does. *)
Lemma installDependencies_installs (st : State) :
  fst (installDependencies st) = Normal tt
  /\ writes (trace (snd (installDependencies st))) = writes (trace st)
  /\ installs (trace (snd (installDependencies st)))
     = (installs (trace st)
        ++ [("lighthouse", npmInstall w "lighthouse");
            ("@playwright/test", npmInstall w "@playwright/test")])%list.
Proof.
  unfold installDependencies, installOne, log, emit, bind, ret.
  destruct (npmInstall w "lighthouse"), (npmInstall w "@playwright/test");
    cbn [fst snd trace]; unfold writes, installs;
    rewrite !flat_map_app; cbn [flat_map app];
    rewrite ?app_nil_r, <- ?app_assoc; auto.
Qed.

(** The run in three phases. *)
Lemma run_phases :
  exists st1,
    writes (trace st1) = []
    /\ installs (trace st1)
       = [("lighthouse", npmInstall w "lighthouse");
          ("@playwright/test", npmInstall w "@playwright/test")]
    /\ runIntegrationTests initial = bind tests (fun _ => reportAndSummary) st1.
Proof.
  unfold runIntegrationTests, log.
  set (l1 := emit (Log _)) at 1. set (l2 := emit (Log _)) at 1.
  unfold bind at 1 2 3. unfold l1, l2, emit at 1 2. cbn [fst snd trace probes recorded initial app].
  match goal with
  | |- context [installDependencies ?s] =>
      destruct (installDependencies_installs s) as (Hn & Hw & Hi);
      destruct (installDependencies s) as [c st1]
  end.
  simpl in Hn, Hw, Hi. subst c. exists st1.
  split; [exact Hw|]. split; [exact Hi|].
  unfold tests. symmetry. apply bind_assoc.
Qed.

(** [m] returns [x], having at most written to the console. *)
Definition quietly {A : Type} (m : M A) (x : A) : Prop :=
  forall st, fst (m st) = Normal x
             /\ recorded (snd (m st)) = recorded st
             /\ writes (trace (snd (m st))) = writes (trace st)
             /\ installs (trace (snd (m st))) = installs (trace st).

Lemma quietly_ret {A : Type} (x : A) : quietly (ret x) x.
Proof. intros st. now repeat split. Qed.

Lemma quietly_log (line : string) : quietly (log line) tt.
Proof.
  intros st. unfold log, emit, writes, installs; simpl.
  rewrite !flat_map_app. simpl. now rewrite !app_nil_r.
Qed.

Lemma quietly_bind {A B : Type} (m : M A) (k : A -> M B) (x : A) (y : B) :
  quietly m x -> quietly (k x) y -> quietly (bind m k) y.
Proof.
  intros Hm Hk st. unfold bind. destruct (Hm st) as (H1 & H2 & H3 & H4).
  destruct (m st) as [c st1]. simpl in H1, H2, H3, H4. subst c.
  destruct (Hk st1) as (K1 & K2 & K3 & K4). repeat split; congruence.
Qed.

Lemma quietly_logRequirements (reqs : list (string * string)) :
  quietly (logRequirements reqs) tt.
Proof.
  induction reqs as [|[req desc] reqs IH]; simpl; [apply quietly_ret|].
  eapply quietly_bind; [apply quietly_log | exact IH].
Qed.

Lemma bind_quietly {A B : Type} (m : M A) (k : A -> M B) (x : A) (st : State) :
  quietly m x -> bind m k st = k x (snd (m st)).
Proof.
  intros Hm. unfold bind. destruct (Hm st) as (H1 & _).
  destruct (m st) as [c st1]. simpl in H1. now subst c.
Qed.

Lemma bind_normal {A B : Type} (m : M A) (k : A -> M B) (x : A)
    (st st' : State) :
  m st = (Normal x, st') -> bind m k st = k x st'.
Proof. intros H. unfold bind. now rewrite H. Qed.

Lemma bind_thrown {A B : Type} (m : M A) (k : A -> M B) (e : Error)
    (st st' : State) :
  m st = (Thrown e, st') -> bind m k st = (Thrown e, st').
Proof. intros H. unfold bind. now rewrite H. Qed.

Lemma bind_getResults {B : Type} (k : obj SuiteResult -> M B) (st : State) :
  bind getResults k st = k (recorded st) st.
Proof. reflexivity. Qed.

Definition reportFile (extension : string) : string :=
  pathJoin w (outputDir cfg)
    ("integration-test-report-" ++ hyphenate (now w) ++ extension).

Lemma generateComprehensiveReport_files (results : obj SuiteResult)
    (st : State) :
  let report := buildReport (now w) (host w) results in
  let r := generateComprehensiveReport results st in
  recorded (snd r) = recorded st
  /\ installs (trace (snd r)) = installs (trace st)
  /\ match writeJSON w, writeHTML w with
     | Some e, _ =>
         fst r = Thrown e /\ writes (trace (snd r)) = writes (trace st)
     | None, Some e =>
         fst r = Thrown e
         /\ writes (trace (snd r))
            = (writes (trace st)
               ++ [(reportFile ".json", renderJSON report)])%list
     | None, None =>
         fst r = Normal report
         /\ writes (trace (snd r))
            = (writes (trace st)
               ++ [(reportFile ".json", renderJSON report);
                   (reportFile ".html",
                    generateHTMLReport (toLocaleString w) report)])%list
     end.
Proof.
  cbv zeta.
  unfold generateComprehensiveReport, writeFileSync, log, emit, bind, ret,
    throw, reportFile.
  destruct (writeJSON w) as [e|], (writeHTML w) as [e'|];
    cbn [fst snd trace recorded probes];
    unfold writes, installs; rewrite ?flat_map_app; cbn [flat_map app];
    rewrite ?app_nil_r, <- ?app_assoc; cbn [app];
    repeat split; reflexivity.
Qed.

(** What [reportAndSummary] logs after the report is written. *)
Lemma summary_logged (report : ReportT) :
  quietly
    (log "🎯 FINAL INTEGRATION TEST SUMMARY" ;;
     log "=================================" ;;
     log ("Overall Score: " ++ numberToString (overallScore (summary report)) ++ "%") ;;
     log ("Tests Passed: " ++ natToString (passed (summary report)) ++ "/"
          ++ natToString (totalTestSuites (summary report))) ;;
     log ("Tests Failed: " ++ natToString (failed (summary report)) ++ "/"
          ++ natToString (totalTestSuites (summary report))) ;;
     log ("Tests Skipped: " ++ natToString (skipped (summary report)) ++ "/"
          ++ natToString (totalTestSuites (summary report)) ++ nl) ;;
     log "📋 Requirements Verification:" ;;
     log "============================" ;;
     logRequirements (entries (requirements report)) ;;
     log (nl ++ "🎉 Integration testing complete!" ++ nl) ;;
     ret (failed (summary report) =? 0)%nat)
    (failed (summary report) =? 0)%nat.
Proof.
  do 8 (eapply quietly_bind; [apply quietly_log|]).
  eapply quietly_bind; [apply quietly_logRequirements|].
  eapply quietly_bind; [apply quietly_log | apply quietly_ret].
Qed.

Lemma reportAndSummary_files (st : State) :
  let report := buildReport (now w) (host w) (recorded st) in
  let r := reportAndSummary st in
  recorded (snd r) = recorded st
  /\ installs (trace (snd r)) = installs (trace st)
  /\ match writeJSON w, writeHTML w with
     | Some e, _ =>
         fst r = Thrown e /\ writes (trace (snd r)) = writes (trace st)
     | None, Some e =>
         fst r = Thrown e
         /\ writes (trace (snd r))
            = (writes (trace st)
               ++ [(reportFile ".json", renderJSON report)])%list
     | None, None =>
         (exists success, fst r = Normal success)
         /\ writes (trace (snd r))
            = (writes (trace st)
               ++ [(reportFile ".json", renderJSON report);
                   (reportFile ".html",
                    generateHTMLReport (toLocaleString w) report)])%list
     end.
Proof.
  cbv zeta. unfold reportAndSummary.
  rewrite (bind_quietly _ st (quietly_log _)).
  destruct (quietly_log "📊 GENERATING COMPREHENSIVE REPORT" st)
    as (_ & R1 & W1 & I1).
  set (st1 := snd (log "📊 GENERATING COMPREHENSIVE REPORT" st)) in *.
  rewrite (bind_quietly _ st1 (quietly_log _)).
  destruct (quietly_log ("=================================" ++ nl) st1)
    as (_ & R2 & W2 & I2).
  set (st2 := snd (log ("=================================" ++ nl) st1)) in *.
  rewrite bind_getResults.
  assert (Hrec : recorded st2 = recorded st) by congruence.
  rewrite Hrec. clear Hrec.
  pose proof (generateComprehensiveReport_files (recorded st) st2) as H.
  cbv zeta in H. destruct H as (R3 & I3 & H).
  destruct (generateComprehensiveReport (recorded st) st2) as [c st3] eqn:E.
  cbn [fst snd] in R3, I3, H.
  destruct (writeJSON w) as [e|]; [|destruct (writeHTML w) as [e'|]].
  - destruct H as [-> H]. rewrite (@bind_thrown _ _ _ _ _ _ _ E). cbn [fst snd].
    repeat split; congruence.
  - destruct H as [-> H]. rewrite (@bind_thrown _ _ _ _ _ _ _ E). cbn [fst snd].
    repeat split; congruence.
  - destruct H as [-> H]. rewrite (@bind_normal _ _ _ _ _ _ _ E).
    destruct (summary_logged (buildReport (now w) (host w) (recorded st)) st3)
      as (F & R4 & W4 & I4).
    split; [congruence|]. split; [congruence|].
    split; [eexists; exact F | congruence].
Qed.


(** The files of the runner in a run, by the way the run ends. *)
Lemma runner_writes :
  let st := snd main in
  let report := buildReport (now w) (host w) (recorded st) in
  let json := (reportFile ".json", renderJSON report) in
  let html := (reportFile ".html",
               generateHTMLReport (toLocaleString w) report) in
  match fst (runIntegrationTests initial) with
  | Normal _ =>
      writeJSON w = None /\ writeHTML w = None
      /\ writes (trace st) = [json; html]
  | Thrown e =>
      (writeJSON w = Some e /\ writes (trace st) = [])
      \/ (writeJSON w = None /\ writeHTML w = Some e
          /\ writes (trace st) = [json])
  | Exit _ => writes (trace st) = []
  end.
Proof.
  cbv zeta. destruct main_run as [-> _].
  destruct run_phases as (st1 & W1 & I1 & ->).
  unfold bind. destruct (leaves_tests st1) as [W2 _].
  pose proof (catches_tests st1) as C.
  destruct (tests st1) as [[[]|e|c] st2]; simpl in W2, C.
  - pose proof (reportAndSummary_files st2) as H. cbv zeta in H.
    destruct H as (R & _ & H). rewrite R.
    rewrite W2, W1 in H. simpl app in H.
    destruct (reportAndSummary st2) as [r st3]. simpl in H |- *.
    destruct (writeJSON w) as [e|]; [|destruct (writeHTML w) as [e'|]].
    + destruct H as [-> H]. left. now split.
    + destruct H as [-> H]. right. now repeat split.
    + destruct H as [[success ->] H]. now repeat split.
  - now elim (C e).
  - simpl. congruence.
Qed.

(** *** The order of what a run does *)

(** [m] only appends to the trace, and only events that satisfy [P]. *)
Definition adds (P : event -> bool) {A : Type} (m : M A) : Prop :=
  forall st, exists t,
    trace (snd (m st)) = (trace st ++ t)%list /\ forallb P t = true.

Lemma adds_bind (P : event -> bool) {A B : Type} (m : M A) (k : A -> M B) :
  adds P m -> (forall x, adds P (k x)) -> adds P (bind m k).
Proof.
  intros Hm Hk st. unfold bind. destruct (Hm st) as (t & E & F).
  destruct (m st) as [[x|e|c] st1]; simpl in E;
    [|now exists t|now exists t].
  destruct (Hk x st1) as (t' & E' & F'). exists (t ++ t')%list.
  rewrite E', E, app_assoc, forallb_app, F, F'. now split.
Qed.


Lemma adds_emit (P : event -> bool) (e : event) :
  P e = true -> adds P (emit e).
Proof. intros He st. exists [e]. simpl. now rewrite He. Qed.

Lemma adds_same (P : event -> bool) {A : Type} (m : M A) :
  (forall st, trace (snd (m st)) = trace st) -> adds P m.
Proof. intros H st. exists []. now rewrite H, app_nil_r. Qed.


Ltac add_logs :=
  repeat (apply adds_bind; [now apply adds_emit | intros _]).








(** The events of the report generator and of the final summary. *)
Definition filing (e : event) : bool :=
  match e with
  | Log _ | WriteFile _ _ => true
  | _ => false
  end.

Lemma adds_writeFileSync (path content : string) (failure : option Error) :
  adds filing (writeFileSync path content failure).
Proof.
  destruct failure as [e|]; [now apply adds_same | now apply adds_emit].
Qed.

Lemma adds_logRequirements (reqs : list (string * string)) :
  adds filing (logRequirements reqs).
Proof.
  induction reqs as [|[req desc] reqs IH]; simpl; [now apply adds_same|].
  apply adds_bind; [now apply adds_emit | intros _; exact IH].
Qed.

Lemma adds_reportAndSummary : adds filing reportAndSummary.
Proof.
  unfold reportAndSummary, log. add_logs.
  apply adds_bind; [now apply adds_same | intros results].
  apply adds_bind.
  - unfold generateComprehensiveReport, log.
    apply adds_bind; [apply adds_writeFileSync | intros _].
    apply adds_bind; [apply adds_writeFileSync | intros _].
    add_logs. now apply adds_same.
  - intros report. add_logs.
    apply adds_bind; [apply adds_logRequirements | intros _].
    add_logs. now apply adds_same.
Qed.

(** The calls of [fs.writeFileSync] that return in the process of a run,
    with their contents, in order: those of the runner, which are the
    [WriteFile] events, and, at each call of a suite function, the ones
    that the call makes, [suiteWrites s] ([runBrowserTests] writes its
    Playwright script and its summary, [runDeploymentTests] its report).
    The suite functions are imported, so what they write is left to the
    world, as their outcomes are. *)
Definition fileWrites (suiteWrites : suite -> list (string * string))
    (t : list event) : list (string * string) :=
  flat_map (fun e => match e with
                     | WriteFile p c => [(p, c)]
                     | Invoke s => suiteWrites s
                     | _ => []
                     end) t.

Lemma fileWrites_before (suiteWrites : suite -> list (string * string))
    (t : list event) :
  writes t = [] -> fileWrites suiteWrites t = flat_map suiteWrites (calls t).
Proof.
  induction t as [|e t IH]; [reflexivity|].
  destruct e; simpl; intros H; try discriminate; try (now apply IH).
  now rewrite IH.
Qed.

Lemma fileWrites_filing (suiteWrites : suite -> list (string * string))
    (t : list event) :
  forallb filing t = true ->
  fileWrites suiteWrites t = writes t /\ calls t = [].
Proof.
  induction t as [|e t IH]; [now split|].
  destruct e; simpl; intros H; try discriminate;
    destruct (IH H) as [IH1 IH2]; split; congruence.
Qed.

(** The files of the suite functions come first, in the order of the
    calls, and those of the runner after them. *)
Lemma fileWrites_main (suiteWrites : suite -> list (string * string)) :
  fileWrites suiteWrites (trace (snd main))
  = (flat_map suiteWrites (calls (trace (snd main)))
     ++ writes (trace (snd main)))%list.
Proof.
  destruct main_run as [-> _]. destruct run_phases as (st1 & W1 & I1 & ->).
  unfold bind. destruct (leaves_tests st1) as [W2 _].
  assert (W : writes (trace (snd (tests st1))) = []) by congruence.
  destruct (tests st1) as [[[]|e|c] st2]; cbn [fst snd] in W |- *.
  - destruct (adds_reportAndSummary st2) as (t & E & F). rewrite E.
    destruct (fileWrites_filing suiteWrites t F) as [Ft Ct].
    unfold fileWrites, calls, writes in *. rewrite !flat_map_app.
    fold (fileWrites suiteWrites (trace st2)).
    rewrite (fileWrites_before suiteWrites (trace st2) W).
    unfold calls. now rewrite Ft, Ct, W, app_nil_r.
  - rewrite W, app_nil_r. now apply fileWrites_before.
  - rewrite W, app_nil_r. now apply fileWrites_before.
Qed.

(** X8. The files of a run. What the process of a run writes with
    [fs.writeFileSync] is, first, what the suite functions write during
    their calls, in the order of the calls, and then the two files of the
    report generator: the JSON report and after it the page, both rendered
    from the results that the run has recorded, under names made of the
    output directory and the instant of the report with its colons and
    dots replaced. A run that reaches its end has written both. An
    exception escapes the run only from one of these two writes: from the
    first, and then the runner has written no file, or from the second,
    and then it has written the JSON report alone. In a run that a suite
    function ends the runner writes no file. *)
Theorem report_files_written
    (suiteWrites : suite -> list (string * string)) :
  let st := snd main in
  let report := buildReport (now w) (host w) (recorded st) in
  let json := (reportFile ".json", renderJSON report) in
  let html := (reportFile ".html",
               generateHTMLReport (toLocaleString w) report) in
  let ofSuites := flat_map suiteWrites (calls (trace st)) in
  match fst (runIntegrationTests initial) with
  | Normal _ =>
      writeJSON w = None /\ writeHTML w = None
      /\ fileWrites suiteWrites (trace st) = (ofSuites ++ [json; html])%list
  | Thrown e =>
      (writeJSON w = Some e /\ fileWrites suiteWrites (trace st) = ofSuites)
      \/ (writeJSON w = None /\ writeHTML w = Some e
          /\ fileWrites suiteWrites (trace st) = (ofSuites ++ [json])%list)
  | Exit _ => fileWrites suiteWrites (trace st) = ofSuites
  end.
Proof.
  cbv zeta. rewrite fileWrites_main. pose proof runner_writes as H.
  cbv zeta in H.
  destruct (fst (runIntegrationTests initial)) as [b|e|c].
  - destruct H as (H1 & H2 & ->). now repeat split.
  - destruct H as [[H1 ->]|(H1 & H2 & ->)].
    + left. now rewrite app_nil_r.
    + right. now repeat split.
  - now rewrite H, app_nil_r.
Qed.






End Run.

(** *** Three concrete runs *)

(** [path.join(dir, file)] of Node on a POSIX host: the segments that are
    not empty are joined by a slash and the result is normalised: empty
    segments and [.] segments go, a [..] segment takes the segment before
    it away, or stays when the path is relative and nothing is before it,
    and a trailing slash is kept. *)
Fixpoint splitSlash (s current : string) : list string :=
  match s with
  | EmptyString => [current]
  | String c s' =>
      if Ascii.eqb c "/" then current :: splitSlash s' ""
      else splitSlash s' (current ++ String c "")
  end.

(** The segments kept so far, the last one first. *)
Definition normalizeSegment (allowAboveRoot : bool) (kept : list string)
    (segment : string) : list string :=
  if String.eqb segment "" || String.eqb segment "." then kept
  else if String.eqb segment ".." then
    match kept with
    | last :: before =>
        if String.eqb last ".." then segment :: kept else before
    | [] => if allowAboveRoot then [segment] else []
    end
  else segment :: kept.

Definition startsWithSlash (s : string) : bool :=
  match s with
  | String c _ => Ascii.eqb c "/"
  | EmptyString => false
  end.

Fixpoint endsWithSlash (s : string) : bool :=
  match s with
  | EmptyString => false
  | String c EmptyString => Ascii.eqb c "/"
  | String _ s' => endsWithSlash s'
  end.

Definition normalize (path : string) : string :=
  if String.eqb path "" then "."
  else
    let isAbsolute := startsWithSlash path in
    let trailingSeparator := endsWithSlash path in
    let kept :=
      fold_left (normalizeSegment (negb isAbsolute)) (splitSlash path "") [] in
    let normalized := String.concat "/" (rev kept) in
    if String.eqb normalized "" then
      if isAbsolute then "/" else if trailingSeparator then "./" else "."
    else
      (if isAbsolute then "/" else "")
      ++ normalized ++ (if trailingSeparator then "/" else "").

Definition posixJoin (dir file : string) : string :=
  match filter (fun s => negb (String.eqb s "")) [dir; file] with
  | [] => "."
  | segments => normalize (String.concat "/" segments)
  end.

Example posixJoin_outputDir :
  posixJoin "./integration-test-reports" "report.json"
  = "integration-test-reports/report.json"
  /\ posixJoin "reports/" "../out//page.html" = "out/page.html"
  /\ posixJoin "/var/reports" "./a/../b/" = "/var/reports/b/"
  /\ posixJoin ".." "../a" = "../../a"
  /\ posixJoin "/" ".." = "/"
  /\ posixJoin "a" ".." = "."
  /\ posixJoin "" "" = "."
  /\ posixJoin "./" "" = "./".
Proof. repeat split; reflexivity. Qed.

Definition exampleHost : Environment :=
  {| node := "v20.11.0"; platform := "linux"; arch := "x64" |}.

(** The server answers, the audit passes, the browser suite throws and the
    deployment verification fails. *)
Definition browserThrows : World := {|
  npmInstall := fun _ => true;
  serverUp := fun _ => true;
  lighthouse := Ran (Returns true);
  browser := Ran (Throws {| message := "spawnSync npx ENOENT" |});
  deployment := Returns false;
  now := "2024-05-01T10:20:30.456Z";
  host := exampleHost;
  toLocaleString := fun ts => ts;
  pathJoin := posixJoin;
  writeJSON := None;
  writeHTML := None
|}.

(** No local server, and the deployment verification passes. *)
Definition serverDown : World := {|
  npmInstall := fun _ => false;
  serverUp := fun _ => false;
  lighthouse := ServerUnreachable;
  browser := ServerUnreachable;
  deployment := Returns true;
  now := "2024-05-01T10:20:30.456Z";
  host := exampleHost;
  toLocaleString := fun ts => ts;
  pathJoin := posixJoin;
  writeJSON := None;
  writeHTML := None
|}.

Ltac find_event := repeat first [left; reflexivity | right].

Lemma suite_failure_isolated_witness :
  let st := snd (main CONFIG browserThrows) in
  totalTestSuites (summarize (recorded st)) = 3
  /\ get (recorded st) "browserTests"
     = Some [("status", "FAILED");
             ("description", "Cross-browser compatibility tests");
             ("error", "spawnSync npx ENOENT")]
  /\ fst (main CONFIG browserThrows) = 1%Z.
Proof.
  cbv zeta.
  assert (Hthrow : In (Threw browserSuite {| message := "spawnSync npx ENOENT" |})
                      (trace (snd (main CONFIG browserThrows)))).
  { vm_compute. find_event. }
  destruct (suite_failure_isolated CONFIG browserThrows) as [H _].
  destruct (H {| message := "spawnSync npx ENOENT" |} eq_refl Hthrow)
    as (_ & H3 & Hb & _).
  split; [exact H3|]. split; [exact Hb|]. vm_compute. reflexivity.
Defined.




Lemma server_down_skips_witness :
  let st := snd (main CONFIG serverDown) in
  get (recorded st) "lighthouseAudit"
    = Some [("status", "SKIPPED");
            ("description", "Lighthouse performance audit");
            ("error", "Local server not accessible")]
  /\ get (recorded st) "browserTests"
     = Some [("status", "SKIPPED");
             ("description", "Cross-browser compatibility tests");
             ("error", "Local server not accessible")]
  /\ ~ In (Invoke lighthouseSuite) (trace st)
  /\ ~ In (Invoke browserSuite) (trace st).
Proof.
  cbv zeta.
  destruct (server_down_skips CONFIG serverDown) as (_ & _ & H).
  exact (H eq_refl (fun _ => eq_refl)).
Defined.

(** Neither the local nor the deployment tests are configured. *)
Definition nothingConfigured : Config := {|
  outputDir := "./integration-test-reports";
  runLocal := false;
  runDeployment := false
|}.

Lemma report_summary_invariant_witness :
  let none := summary (buildReport (now serverDown) (host serverDown)
                         (recorded (snd (main nothingConfigured serverDown)))) in
  let s := summary (buildReport (now serverDown) (host serverDown)
                      (recorded (snd (main CONFIG serverDown)))) in
  (totalTestSuites none = 0 /\ overallScore none = Int 0)
  /\ (passed s + failed s + skipped s = 3 /\ overallScore s = Int 33).
Proof.
  cbv zeta. split.
  - destruct (report_summary_invariant nothingConfigured serverDown)
      as [(_ & _ & H2 & H3) _].
    cbv zeta in H2, H3.
    assert (L : List.length (recorded (snd (main nothingConfigured serverDown)))
                = 0) by (vm_compute; reflexivity).
    rewrite H2, H3, L. split; reflexivity.
  - destruct (report_summary_invariant CONFIG serverDown)
      as [(_ & H1 & _ & H3) _].
    cbv zeta in H1, H3.
    assert (L : List.length (recorded (snd (main CONFIG serverDown))) = 3)
      by (vm_compute; reflexivity).
    assert (P : passed (summary (buildReport (now serverDown) (host serverDown)
                                   (recorded (snd (main CONFIG serverDown)))))
                = 1) by (vm_compute; reflexivity).
    rewrite H1, H3, L, P. split; reflexivity.
Defined.

(** *** The names of the report files *)

(** X10. The instant in the name of a report file: as long as the instant, with
    no colon and no dot left, every other character kept (so the
    replacement changes nothing when it is applied again). *)
Theorem hyphenate_file_name (s : string) :
  String.length (hyphenate s) = String.length s
  /\ Forall (fun c => c <> ":"%char /\ c <> "."%char)
            (list_ascii_of_string (hyphenate s))
  /\ (forall n c, String.get n s = Some c -> c <> ":"%char -> c <> "."%char ->
                  String.get n (hyphenate s) = Some c)
  /\ hyphenate (hyphenate s) = hyphenate s.
Proof.
  induction s as [|c s (IH1 & IH2 & IH3 & IH4)].
  - repeat split; [constructor | intros n c H; destruct n; discriminate].
  - simpl hyphenate.
    destruct (Ascii.eqb c ":") eqn:E1; [|destruct (Ascii.eqb c ".") eqn:E2];
      simpl orb; cbv iota.
    + apply Ascii.eqb_eq in E1. subst c.
      split; [simpl; now rewrite IH1|].
      split; [simpl; constructor; [split; discriminate | exact IH2]|].
      split; [|simpl; now rewrite IH4].
      intros [|n] x; simpl.
      * intros [= <-] H. now elim H.
      * apply IH3.
    + apply Ascii.eqb_eq in E2. subst c.
      split; [simpl; now rewrite IH1|].
      split; [simpl; constructor; [split; discriminate | exact IH2]|].
      split; [|simpl; now rewrite IH4].
      intros [|n] x; simpl.
      * intros [= <-] _ H. now elim H.
      * apply IH3.
    + apply Ascii.eqb_neq in E1, E2.
      split; [simpl; now rewrite IH1|].
      split; [simpl; constructor; [now split | exact IH2]|].
      split.
      * intros [|n] x; simpl; [now intros [= <-] | apply IH3].
      * simpl.
        replace (Ascii.eqb c ":") with false
          by (symmetry; now apply Ascii.eqb_neq).
        replace (Ascii.eqb c ".") with false
          by (symmetry; now apply Ascii.eqb_neq).
        simpl. now rewrite IH4.
Qed.

End Runner.

(* ===================================================================== *)
(** ** build.js: the minifiers *)
(* ===================================================================== *)

Module Build.
Local Open Scope N_scope.

(** *** Strings and code units *)

(** A JavaScript string is a sequence of UTF-16 code units; a regular
    expression without the [u] flag matches code units. *)
Definition str : Type := list N.

Definition ch (a : ascii) : N := N_of_ascii a.

(** The code units of an ASCII text. *)
Fixpoint text (s : string) : str :=
  match s with
  | EmptyString => []
  | String a s' => ch a :: text s'
  end.

(** [LineTerminator]: LF, CR, LS, PS. *)
Definition isLineTerminator (c : N) : bool :=
  (c =? 10) || (c =? 13) || (c =? 8232) || (c =? 8233).

(** [WhiteSpace] and [LineTerminator], the characters of [\s] and of
    [trim]: TAB, VT, FF, SP, NBSP, ZWNBSP and the space separators. *)
Definition isSpace (c : N) : bool :=
  (c =? 9) || (c =? 11) || (c =? 12) || (c =? 32) || (c =? 160)
  || (c =? 5760) || ((8192 <=? c) && (c <=? 8202))
  || (c =? 8239) || (c =? 8287) || (c =? 12288) || (c =? 65279)
  || isLineTerminator c.

Definition isHighSurrogate (c : N) : bool := (55296 <=? c) && (c <=? 56319).
Definition isLowSurrogate (c : N) : bool := (56320 <=? c) && (c <=? 57343).

(** The number of bytes of one code unit in UTF-8, given whether the unit
    before it is a high surrogate: a low surrogate completes the pair
    (3 + 1 bytes), a lone surrogate is written as U+FFFD. *)
Definition utf8Cost (afterHigh : bool) (c : N) : nat :=
  if c <? 128 then 1%nat
  else if c <? 2048 then 2%nat
  else if afterHigh && isLowSurrogate c then 1%nat
  else 3%nat.

Fixpoint utf8From (afterHigh : bool) (s : str) : nat :=
  match s with
  | [] => 0%nat
  | c :: s' => (utf8Cost afterHigh c + utf8From (isHighSurrogate c) s')%nat
  end.

(** [Buffer.byteLength(s, 'utf8')] *)
Definition byteLength (s : str) : nat := utf8From false s.

(** *** Regular expressions *)

(** A member of a character class. *)
Inductive classItem : Type :=
| Lit (c : N)     (* a character *)
| Space           (* \s *)
| NonSpace.       (* \S *)

(** What matches one code unit. *)
Inductive atom : Type :=
| Char (c : N)                                  (* a literal character *)
| Dot                                           (* . *)
| Class (negated : bool) (items : list classItem).   (* [...] and [^...] *)

(** The patterns of [build.js]: quantifiers apply to atoms only. *)
Inductive regex : Type :=
| One (a : atom)                    (* a *)
| Star (greedy : bool) (a : atom)   (* a* and a*? *)
| Plus (greedy : bool) (a : atom)   (* a+ and a+? *)
| Seq (r1 r2 : regex)               (* r1 r2 *)
| Group (index : nat) (r : regex)   (* ( r ), the index-th capturing group *)
| NegLookahead (r : regex)          (* (?! r ) *)
| EndOfLine.                        (* $ *)

Definition itemTest (i : classItem) (c : N) : bool :=
  match i with
  | Lit x => c =? x
  | Space => isSpace c
  | NonSpace => negb (isSpace c)
  end.

Definition test (a : atom) (c : N) : bool :=
  match a with
  | Char x => c =? x
  | Dot => negb (isLineTerminator c)
  | Class negated items => xorb negated (existsb (fun i => itemTest i c) items)
  end.

(** The captures of a match: the text of each group that took part. *)
Definition captures : Type := list (nat * str).

Fixpoint capture (caps : captures) (index : nat) : option str :=
  match caps with
  | [] => None
  | (i, t) :: caps' => if (i =? index)%nat then Some t else capture caps' index
  end.

(** A match in progress is the input that is left and the captures; a
    matcher is given a continuation and backtracks into its alternatives
    when the continuation fails, as in the language specification. *)
Definition result : Type := (str * captures)%type.

(** [a*] from [s]: the greedy star tries one more unit first, the lazy one
    tries the continuation first. *)
Fixpoint star (greedy : bool) (a : atom) (s : str)
    (k : str -> option result) : option result :=
  match s with
  | c :: s' =>
      if test a c then
        if greedy then
          match star greedy a s' k with
          | Some r => Some r
          | None => k s
          end
        else
          match k s with
          | Some r => Some r
          | None => star greedy a s' k
          end
      else k s
  | [] => k s
  end.

Section Matcher.

(** The [m] flag. *)
Variable multiline : bool.

Fixpoint matcher (r : regex) (s : str) (caps : captures)
    (k : str -> captures -> option result) {struct r} : option result :=
  match r with
  | One a =>
      match s with
      | c :: s' => if test a c then k s' caps else None
      | [] => None
      end
  | Star greedy a => star greedy a s (fun s' => k s' caps)
  | Plus greedy a =>
      match s with
      | c :: s' => if test a c then star greedy a s' (fun s'' => k s'' caps)
                   else None
      | [] => None
      end
  | Seq r1 r2 =>
      matcher r1 s caps (fun s' caps' => matcher r2 s' caps' k)
  | Group index r' =>
      matcher r' s caps
        (fun s' caps' =>
           k s' ((index, firstn (List.length s - List.length s') s) :: caps'))
  | NegLookahead r' =>
      match matcher r' s caps (fun s' caps' => Some (s', caps')) with
      | Some _ => None
      | None => k s caps
      end
  | EndOfLine =>
      match s with
      | [] => k s caps
      | c :: _ => if multiline && isLineTerminator c then k s caps else None
      end
  end.

(** A match attempt at the start of [s]: the input after the match and
    the captures. *)
Definition exec (r : regex) (s : str) : option result :=
  matcher r s [] (fun s' caps' => Some (s', caps')).

(** *** Replacement *)

(** A replacement text, read as [GetSubstitution] reads it: characters
    and group references [$n]. *)
Inductive piece : Type :=
| Keep (c : N)
| Ref (index : nat).

Fixpoint substitute (replacement : list piece) (caps : captures) : str :=
  match replacement with
  | [] => []
  | Keep c :: p' => c :: substitute p' caps
  | Ref index :: p' =>
      match capture caps index with
      | Some t => (t ++ substitute p' caps)%list
      | None => substitute p' caps
      end
  end.

(** [s.replace(r, replacement)] for a global [r]: matches are searched
    from left to right, each search starting where the last match ended,
    or one unit further when that match was empty. [inside] counts the
    units of [s] that still belong to the last match. *)
Fixpoint replaceFrom (r : regex) (replacement : list piece) (inside : nat)
    (s : str) : str :=
  match inside with
  | S n =>
      match s with
      | [] => []
      | _ :: s' => replaceFrom r replacement n s'
      end
  | O =>
      match exec r s with
      | Some (rest, caps) =>
          let matched := (List.length s - List.length rest)%nat in
          let by_ := substitute replacement caps in
          match s with
          | [] => by_
          | c :: s' =>
              match matched with
              | O => (by_ ++ c :: replaceFrom r replacement 0 s')%list
              | S n => (by_ ++ replaceFrom r replacement n s')%list
              end
          end
      | None =>
          match s with
          | [] => []
          | c :: s' => c :: replaceFrom r replacement 0 s'
          end
      end
  end.

Definition replace (r : regex) (replacement : list piece) (s : str) : str :=
  replaceFrom r replacement 0 s.

End Matcher.

(** [s.trim()] *)
Fixpoint trimStart (s : str) : str :=
  match s with
  | c :: s' => if isSpace c then trimStart s' else s
  | [] => []
  end.

Fixpoint trimEnd (s : str) : str :=
  match s with
  | c :: s' =>
      match trimEnd s' with
      | [] => if isSpace c then [] else [c]
      | t => c :: t
      end
  | [] => []
  end.

Definition trim (s : str) : str := trimEnd (trimStart s).

(** *** The patterns of [build.js] *)

Definition lits (s : string) : list classItem := map Lit (text s).

(** [/\/\*[\s\S]*?\*\//g] *)
Definition blockComment : regex :=
  Seq (One (Char (ch "/"))) (Seq (One (Char (ch "*")))
    (Seq (Star false (Class false [Space; NonSpace]))
       (Seq (One (Char (ch "*"))) (One (Char (ch "/")))))).

(** [/\s+/g] *)
Definition whitespace : regex := Plus true (Class false [Space]).

(** [/\s*([{}:;,>+~])\s*/g] *)
Definition cssPunctuation : regex :=
  Seq (Star true (Class false [Space]))
    (Seq (Group 1 (One (Class false (lits "{}:;,>+~"))))
         (Star true (Class false [Space]))).

(** [/;}/g] *)
Definition semicolonBrace : regex :=
  Seq (One (Char (ch ";"))) (One (Char (ch "}"))).

(** The pattern of line 30, under the flags [g] and [m]: two slashes, not
    followed on their line ([[^\n]*]) by an apostrophe (39), a quotation
    mark (34) or a backtick (96), then [.*$]. *)
Definition lineComment : regex :=
  Seq (One (Char (ch "/"))) (Seq (One (Char (ch "/")))
    (Seq (NegLookahead
            (Seq (Star true (Class true [Lit 10]))
                 (One (Class false [Lit 39; Lit 34; Lit 96]))))
       (Seq (Star true Dot) EndOfLine))).

(** [/\s*([{}();,=+\-*/<>!&|])\s*/g] *)
Definition jsPunctuation : regex :=
  Seq (Star true (Class false [Space]))
    (Seq (Group 1 (One (Class false (lits "{}();,=+-*/<>!&|"))))
         (Star true (Class false [Space]))).

(** [originalSize - minifiedSize] of [build], the sizes being
    [Buffer.byteLength(text, 'utf8')]. *)
Definition sizeDifference (original minified : str) : Z :=
  (Z.of_nat (byteLength original) - Z.of_nat (byteLength minified))%Z.

(** The number value of an integer below [2^63] in absolute value. *)
Definition number (z : Z) : float :=
  if (z <? 0)%Z then PrimFloat.opp (of_uint63 (Uint63.of_Z (- z)))
  else of_uint63 (Uint63.of_Z z).

(** [(originalSize - minifiedSize) / originalSize * 100], the number that
    [build] prints with [toFixed(1)]. *)
Definition reduction (original minified : str) : float :=
  PrimFloat.mul
    (PrimFloat.div (number (sizeDifference original minified))
                   (number (Z.of_nat (byteLength original))))
    (number 100).

(** [minifyCSS] *)
Definition minifyCSS (css : str) : str :=
  trim
    (replace false semicolonBrace [Keep (ch "}")]
       (replace false cssPunctuation [Ref 1]
          (replace false whitespace [Keep (ch " ")]
             (replace false blockComment [] css)))).

(** [minifyJS] *)
Definition minifyJS (js : str) : str :=
  trim
    (replace false semicolonBrace [Keep (ch "}")]
       (replace false jsPunctuation [Ref 1]
          (replace false whitespace [Keep (ch " ")]
             (replace false blockComment []
                (replace true lineComment [] js))))).

(** *** Texts that shrink *)

(** [shrinks t s]: [t] is [s] with units removed and units replaced by
    ASCII characters. *)
Inductive shrinks : str -> str -> Prop :=
| shrinks_nil : shrinks [] []
| shrinks_keep (c : N) (t s : str) : shrinks t s -> shrinks (c :: t) (c :: s)
| shrinks_drop (c : N) (t s : str) : shrinks t s -> shrinks t (c :: s)
| shrinks_swap (c c' : N) (t s : str) :
    c' < 128 -> shrinks t s -> shrinks (c' :: t) (c :: s).

#[local] Hint Constructors shrinks : core.

Lemma shrinks_refl (s : str) : shrinks s s.
Proof. induction s; auto. Qed.

Lemma shrinks_empty (s : str) : shrinks [] s.
Proof. induction s; auto. Qed.

Lemma shrinks_length (t s : str) :
  shrinks t s -> (List.length t <= List.length s)%nat.
Proof. induction 1; simpl; lia. Qed.

Lemma utf8Cost_bounds (p : bool) (c : N) : (1 <= utf8Cost p c <= 3)%nat.
Proof.
  unfold utf8Cost.
  destruct (c <? 128); [lia|]. destruct (c <? 2048); [lia|].
  destruct (p && isLowSurrogate c); lia.
Qed.

Lemma utf8Cost_afterHigh (c : N) :
  (utf8Cost true c <= utf8Cost false c <= utf8Cost true c + 2)%nat.
Proof.
  unfold utf8Cost.
  destruct (c <? 128); [lia|]. destruct (c <? 2048); [lia|].
  simpl. destruct (isLowSurrogate c); lia.
Qed.

Lemma utf8Cost_high (p : bool) (c : N) :
  isHighSurrogate c = true -> utf8Cost p c = 3%nat.
Proof.
  unfold isHighSurrogate, utf8Cost, isLowSurrogate. intros H.
  apply andb_true_iff in H as [H1 H2].
  apply N.leb_le in H1. apply N.leb_le in H2.
  destruct (N.ltb_spec c 128); [lia|]. destruct (N.ltb_spec c 2048); [lia|].
  destruct (N.leb_spec 56320 c); [lia|]. simpl. now rewrite andb_false_r.
Qed.

Lemma utf8Cost_ascii (p : bool) (c : N) :
  c < 128 -> utf8Cost p c = 1%nat /\ isHighSurrogate c = false.
Proof.
  intros H. unfold utf8Cost, isHighSurrogate.
  destruct (N.ltb_spec c 128); [|lia]. split; [reflexivity|].
  destruct (N.leb_spec 55296 c); [lia | reflexivity].
Qed.

Lemma utf8From_afterHigh (s : str) :
  (utf8From true s <= utf8From false s <= utf8From true s + 2)%nat.
Proof.
  destruct s as [|c s]; simpl; [lia|].
  pose proof (utf8Cost_afterHigh c). lia.
Qed.

(** A unit put in front never lowers the byte count. *)
Lemma utf8From_insert (p : bool) (c : N) (t : str) :
  (utf8From p t <= utf8Cost p c + utf8From (isHighSurrogate c) t)%nat.
Proof.
  pose proof (utf8From_afterHigh t) as Ht.
  pose proof (utf8Cost_bounds p c) as Hc.
  destruct (isHighSurrogate c) eqn:Hh.
  - rewrite (utf8Cost_high p c Hh). destruct p; lia.
  - destruct p; lia.
Qed.

(** An ASCII character in the place of any unit never raises it. *)
Lemma utf8From_swap (p : bool) (c : N) (t : str) :
  (1 + utf8From false t <= utf8Cost p c + utf8From (isHighSurrogate c) t)%nat.
Proof.
  pose proof (utf8From_afterHigh t) as Ht.
  pose proof (utf8Cost_bounds p c) as Hc.
  destruct (isHighSurrogate c) eqn:Hh.
  - rewrite (utf8Cost_high p c Hh). lia.
  - lia.
Qed.

Lemma shrinks_utf8From (t s : str) :
  shrinks t s -> forall p, (utf8From p t <= utf8From p s)%nat.
Proof.
  induction 1 as [|c t s _ IH|c t s _ IH|c c' t s Hc _ IH]; intros p; simpl.
  - lia.
  - specialize (IH (isHighSurrogate c)). lia.
  - pose proof (utf8From_insert p c t). specialize (IH (isHighSurrogate c)). lia.
  - destruct (@utf8Cost_ascii p c' Hc) as [-> ->].
    pose proof (utf8From_swap p c t). specialize (IH (isHighSurrogate c)). lia.
Qed.

Lemma shrinks_byteLength (t s : str) :
  shrinks t s -> (byteLength t <= byteLength s)%nat.
Proof. intros H. now apply shrinks_utf8From. Qed.

(** *** What a match consumes *)

(** A lower bound on the units a match of [r] consumes. *)
Fixpoint minLength (r : regex) : nat :=
  match r with
  | One _ => 1
  | Star _ _ => 0
  | Plus _ _ => 1
  | Seq r1 r2 => minLength r1 + minLength r2
  | Group _ r' => minLength r'
  | NegLookahead _ => 0
  | EndOfLine => 0
  end.

Lemma star_continues (greedy : bool) (a : atom) (s : str)
    (k : str -> option result) (res : result) :
  star greedy a s k = Some res ->
  exists s', k s' = Some res /\ (List.length s' <= List.length s)%nat.
Proof.
  induction s as [|c s IH]; simpl.
  - intros H. exists (@nil N). split; [exact H | simpl; lia].
  - destruct (test a c); [|intros H; exists (c :: s); split; [exact H | simpl; lia]].
    destruct greedy.
    + destruct (star true a s k) eqn:E.
      * intros [= <-]. destruct (IH eq_refl) as (s' & Hk & Hl).
        exists s'. split; [exact Hk | simpl; lia].
      * intros H. exists (c :: s). split; [exact H | simpl; lia].
    + destruct (k (c :: s)) eqn:E.
      * intros [= <-]. exists (c :: s). split; [exact E | simpl; lia].
      * intros H. destruct (IH H) as (s' & Hk & Hl).
        exists s'. split; [exact Hk | simpl; lia].
Qed.

Lemma matcher_consumes (multiline : bool) (r : regex) :
  forall (s : str) (caps : captures) (k : str -> captures -> option result)
         (res : result),
    matcher multiline r s caps k = Some res ->
    exists s' caps', k s' caps' = Some res
                     /\ (List.length s' + minLength r <= List.length s)%nat.
Proof.
  induction r as [a|g a|g a|r1 IH1 r2 IH2|i r IH|r IH|]; intros s caps k res; simpl.
  - destruct s as [|c s]; [discriminate|]. destruct (test a c); [|discriminate].
    intros H. exists s, caps. split; [exact H | simpl; lia].
  - intros H. apply star_continues in H as (s' & Hk & Hl).
    exists s', caps. split; [exact Hk | lia].
  - destruct s as [|c s]; [discriminate|]. destruct (test a c); [|discriminate].
    intros H. apply star_continues in H as (s' & Hk & Hl).
    exists s', caps. split; [exact Hk | simpl; lia].
  - intros H. apply IH1 in H as (s1 & c1 & H & Hl1).
    apply IH2 in H as (s2 & c2 & H & Hl2).
    exists s2, c2. split; [exact H | lia].
  - intros H. apply IH in H as (s1 & c1 & H & Hl).
    eexists _, _. split; [exact H | lia].
  - destruct (matcher multiline r s caps _); [discriminate|].
    intros H. exists s, caps. split; [exact H | lia].
  - destruct s as [|c s].
    + intros H. exists (@nil N), caps. split; [exact H | simpl; lia].
    + destruct (multiline && isLineTerminator c); [|discriminate].
      intros H. exists (c :: s), caps. split; [exact H | lia].
Qed.

Lemma exec_consumes (multiline : bool) (r : regex) (s rest : str)
    (caps : captures) :
  exec multiline r s = Some (rest, caps) ->
  (List.length rest + minLength r <= List.length s)%nat.
Proof.
  unfold exec. intros H.
  apply matcher_consumes in H as (s' & c' & [= <- <-] & Hl). exact Hl.
Qed.

(** *** Replacements that shrink *)

(** A replacement is safe for a pattern when, at every match, it is empty,
    or it is one ASCII character and the match is not empty. *)
Definition safe (multiline : bool) (r : regex) (replacement : list piece)
  : Prop :=
  forall s rest caps,
    exec multiline r s = Some (rest, caps) ->
    substitute replacement caps = []
    \/ exists c, substitute replacement caps = [c] /\ c < 128
                 /\ (List.length rest < List.length s)%nat.

Lemma replaceFrom_shrinks (multiline : bool) (r : regex)
    (replacement : list piece) :
  safe multiline r replacement ->
  forall s inside, shrinks (replaceFrom multiline r replacement inside s) s.
Proof.
  intros Hsafe. induction s as [|c s IH]; intros inside.
  - destruct inside; simpl; [|constructor].
    destruct (exec multiline r []) as [[rest caps]|] eqn:E; [|constructor].
    destruct (Hsafe _ _ _ E) as [-> | (x & _ & _ & Hl)];
      [constructor | simpl in Hl; lia].
  - destruct inside as [|n]; simpl; [|apply shrinks_drop, IH].
    destruct (exec multiline r (c :: s)) as [[rest caps]|] eqn:E;
      [|apply shrinks_keep, IH].
    destruct (Hsafe _ _ _ E) as [-> | (x & -> & Hx & Hl)]; simpl.
    + destruct (List.length rest) as [|m];
        [apply shrinks_drop, IH|].
      destruct (List.length s - m)%nat;
        [apply shrinks_keep, IH | apply shrinks_drop, IH].
    + simpl in Hl. destruct (List.length rest) as [|m].
      * apply shrinks_swap; [exact Hx | apply IH].
      * destruct (List.length s - m)%nat eqn:Hm; [lia|].
        apply shrinks_swap; [exact Hx | apply IH].
Qed.

Lemma replace_shrinks (multiline : bool) (r : regex)
    (replacement : list piece) (s : str) :
  safe multiline r replacement ->
  shrinks (replace multiline r replacement s) s.
Proof. intros H. now apply replaceFrom_shrinks. Qed.

(** Deleting the matches is safe for every pattern. *)
Lemma safe_delete (multiline : bool) (r : regex) : safe multiline r [].
Proof. intros s rest caps _. now left. Qed.

(** An ASCII character for a match that is never empty. *)
Lemma safe_keep (multiline : bool) (r : regex) (c : N) :
  c < 128 -> (1 <= minLength r)%nat -> safe multiline r [Keep c].
Proof.
  intros Hc Hmin s rest caps E. right. exists c.
  apply exec_consumes in E. repeat split; [exact Hc | lia].
Qed.

Definition asciiItem (i : classItem) : Prop :=
  match i with
  | Lit c => c < 128
  | Space | NonSpace => False
  end.

Lemma class_ascii (items : list classItem) (c : N) :
  Forall asciiItem items -> test (Class false items) c = true -> c < 128.
Proof.
  simpl. intros Hall H. apply existsb_exists in H as (i & Hin & Hi).
  rewrite Forall_forall in Hall. specialize (Hall i Hin).
  destruct i as [x| |]; simpl in *; try contradiction.
  apply N.eqb_eq in Hi. now subst.
Qed.

Lemma matcher_seq (multiline : bool) (r1 r2 : regex) (s : str)
    (caps : captures) (k : str -> captures -> option result) :
  matcher multiline (Seq r1 r2) s caps k
  = matcher multiline r1 s caps
      (fun s' caps' => matcher multiline r2 s' caps' k).
Proof. reflexivity. Qed.

Lemma matcher_star (multiline greedy : bool) (a : atom) (s : str)
    (caps : captures) (k : str -> captures -> option result) :
  matcher multiline (Star greedy a) s caps k
  = star greedy a s (fun s' => k s' caps).
Proof. reflexivity. Qed.

(** A group around one atom captures the unit that the atom matches. *)
Lemma matcher_group_one (multiline : bool) (index : nat) (a : atom)
    (s : str) (caps : captures) (k : str -> captures -> option result) :
  matcher multiline (Group index (One a)) s caps k
  = match s with
    | c :: s' => if test a c then k s' ((index, [c]) :: caps) else None
    | [] => None
    end.
Proof.
  destruct s as [|c s']; cbn [matcher]; [reflexivity|].
  destruct (test a c); [|reflexivity].
  cbn [List.length].
  replace (S (List.length s') - List.length s')%nat with 1%nat by lia.
  reflexivity.
Qed.

(** The captured punctuation mark for a match of
    [\s*( one of the marks )\s*]. *)
Lemma safe_reference (multiline g1 g2 : bool) (a1 a2 : atom)
    (items : list classItem) :
  Forall asciiItem items ->
  safe multiline
    (Seq (Star g1 a1) (Seq (Group 1 (One (Class false items))) (Star g2 a2)))
    [Ref 1].
Proof.
  intros Hall s rest caps. unfold exec. intros H.
  rewrite matcher_seq, matcher_star in H.
  apply star_continues in H as (s1 & H & Hl1).
  rewrite matcher_seq, matcher_group_one in H.
  destruct s1 as [|c s2]; [discriminate|].
  destruct (test (Class false items) c) eqn:Hc; [|discriminate].
  rewrite matcher_star in H.
  apply star_continues in H as (s3 & H & Hl3).
  injection H as <- <-. right. exists c.
  split; [reflexivity|]. split; [exact (@class_ascii items c Hall Hc)|].
  simpl in Hl1. lia.
Qed.

Lemma trimStart_shrinks (s : str) : shrinks (trimStart s) s.
Proof.
  induction s as [|c s IH]; simpl; [constructor|].
  destruct (isSpace c); [now apply shrinks_drop | apply shrinks_refl].
Qed.

Lemma trimEnd_shrinks (s : str) : shrinks (trimEnd s) s.
Proof.
  induction s as [|c s IH]; simpl; [constructor|].
  destruct (trimEnd s) as [|x t].
  - destruct (isSpace c); [apply shrinks_empty|].
    apply shrinks_keep, shrinks_empty.
  - now apply shrinks_keep.
Qed.

(** [t] is no longer than [s], in code units and in bytes. *)
Definition noLonger (t s : str) : Prop :=
  (List.length t <= List.length s)%nat /\ (byteLength t <= byteLength s)%nat.

Lemma shrinks_noLonger (t s : str) : shrinks t s -> noLonger t s.
Proof.
  intros H. split; [now apply shrinks_length | now apply shrinks_byteLength].
Qed.

Lemma noLonger_trans (a b c : str) :
  noLonger a b -> noLonger b c -> noLonger a c.
Proof. unfold noLonger. intros [] []. split; lia. Qed.

Lemma trim_noLonger (s : str) : noLonger (trim s) s.
Proof.
  unfold trim. eapply noLonger_trans; apply shrinks_noLonger;
    [apply trimEnd_shrinks | apply trimStart_shrinks].
Qed.

Lemma replace_noLonger (multiline : bool) (r : regex)
    (replacement : list piece) (s : str) :
  safe multiline r replacement ->
  noLonger (replace multiline r replacement s) s.
Proof. intros H. now apply shrinks_noLonger, replace_shrinks. Qed.

(** Each replacement of the two minifiers is safe. *)
Lemma safe_whitespace : safe false whitespace [Keep (ch " ")].
Proof. apply safe_keep; [reflexivity | simpl; lia]. Qed.

Lemma safe_semicolonBrace : safe false semicolonBrace [Keep (ch "}")].
Proof. apply safe_keep; [reflexivity | simpl; lia]. Qed.

Lemma safe_cssPunctuation : safe false cssPunctuation [Ref 1].
Proof. apply safe_reference. repeat constructor. Qed.

Lemma safe_jsPunctuation : safe false jsPunctuation [Ref 1].
Proof. apply safe_reference. repeat constructor. Qed.

Lemma minifyCSS_noLonger (css : str) : noLonger (minifyCSS css) css.
Proof.
  unfold minifyCSS.
  eapply noLonger_trans; [apply trim_noLonger|].
  eapply noLonger_trans; [apply replace_noLonger, safe_semicolonBrace|].
  eapply noLonger_trans; [apply replace_noLonger, safe_cssPunctuation|].
  eapply noLonger_trans; [apply replace_noLonger, safe_whitespace|].
  apply replace_noLonger, safe_delete.
Qed.

Lemma minifyJS_noLonger (js : str) : noLonger (minifyJS js) js.
Proof.
  unfold minifyJS.
  eapply noLonger_trans; [apply trim_noLonger|].
  eapply noLonger_trans; [apply replace_noLonger, safe_semicolonBrace|].
  eapply noLonger_trans; [apply replace_noLonger, safe_jsPunctuation|].
  eapply noLonger_trans; [apply replace_noLonger, safe_whitespace|].
  eapply noLonger_trans; [apply replace_noLonger, safe_delete|].
  apply replace_noLonger, safe_delete.
Qed.

(** *** The sign of the reported reduction *)

(** A double that is [NaN] or has a clear sign bit. *)
Definition signless (f : spec_float) : Prop :=
  match f with
  | S754_zero s | S754_infinity s | S754_finite s _ _ => s = false
  | S754_nan => True
  end.

Lemma binary_round_aux_signless (mx ex : Z) (lx : location) :
  signless (binary_round_aux prec emax false mx ex lx).
Proof.
  unfold binary_round_aux.
  destruct (shr_fexp prec emax mx ex lx) as [mrs' e'].
  destruct (shr_fexp prec emax _ e' loc_Exact) as [mrs'' e''].
  destruct (shr_m mrs''); simpl; auto.
  destruct (e'' <=? 971)%Z; reflexivity.
Qed.

Lemma binary_normalize_signless (m e : Z) :
  (0 <= m)%Z -> signless (binary_normalize prec emax m e false).
Proof.
  intros Hm. destruct m as [|p|p]; simpl; [reflexivity| |lia].
  unfold binary_round. destruct (shl_align _ _ _) as [mz ez].
  apply binary_round_aux_signless.
Qed.

Lemma number_signless (z : Z) : (0 <= z)%Z -> signless (Prim2SF (number z)).
Proof.
  intros Hz. unfold number. destruct (Z.ltb_spec z 0); [lia|].
  rewrite FloatAxioms.of_uint63_spec. apply binary_normalize_signless.
  apply Uint63.to_Z_bounded.
Qed.

Lemma SFmul_signless (x y : spec_float) :
  signless x -> signless y -> signless (SFmul prec emax x y).
Proof.
  destruct x as [sx|sx| |sx mx ex], y as [sy|sy| |sy my ey]; simpl;
    intros; subst; auto.
  apply binary_round_aux_signless.
Qed.

Lemma SFdiv_signless (x y : spec_float) :
  signless x -> signless y -> signless (SFdiv prec emax x y).
Proof.
  destruct x as [sx|sx| |sx mx ex], y as [sy|sy| |sy my ey]; simpl;
    intros; subst; auto.
  destruct (SFdiv_core_binary _ _ _ _ _ _) as [[mz ez] lz].
  apply binary_round_aux_signless.
Qed.

Lemma signless_not_negative (x : float) :
  signless (Prim2SF x) -> PrimFloat.ltb x 0 = false.
Proof.
  intros H. rewrite FloatAxioms.ltb_spec.
  change (Prim2SF 0) with (S754_zero false).
  destruct (Prim2SF x) as [s|s| |s m e]; simpl in *; subst; reflexivity.
Qed.

Lemma reduction_not_negative (original minified : str) :
  noLonger minified original ->
  PrimFloat.ltb (reduction original minified) 0 = false.
Proof.
  intros [_ Hb]. apply signless_not_negative. unfold reduction.
  rewrite FloatAxioms.mul_spec, FloatAxioms.div_spec.
  apply SFmul_signless; [apply SFdiv_signless|]; apply number_signless;
    unfold sizeDifference; lia.
Qed.

(** C10. For every string [s], [minifyCSS(s)] and [minifyJS(s)] are no
    longer than [s], in code units ([length]) and in UTF-8 bytes
    ([Buffer.byteLength]); the difference of sizes that [build] computes,
    original minus minified, is not negative, and neither is the
    percentage that it reports. *)
Theorem minify_never_grows (s : str) :
  (List.length (minifyCSS s) <= List.length s)%nat
  /\ (byteLength (minifyCSS s) <= byteLength s)%nat
  /\ (List.length (minifyJS s) <= List.length s)%nat
  /\ (byteLength (minifyJS s) <= byteLength s)%nat
  /\ (0 <= sizeDifference s (minifyCSS s))%Z
  /\ (0 <= sizeDifference s (minifyJS s))%Z
  /\ PrimFloat.ltb (reduction s (minifyCSS s)) 0 = false
  /\ PrimFloat.ltb (reduction s (minifyJS s)) 0 = false.
Proof.
  destruct (minifyCSS_noLonger s) as [Hl Hb].
  destruct (minifyJS_noLonger s) as [Hl' Hb'].
  unfold sizeDifference.
  repeat split; try assumption; try lia;
    apply reduction_not_negative; split; assumption.
Qed.

(** The minifiers on two small sources. *)
Example minifyCSS_example :
  minifyCSS (text "a { color : red ; }  /* note */ b > c { x: 1; }  ")
  = text "a{color:red}b>c{x:1}".
Proof. vm_compute. reflexivity. Qed.

Example minifyJS_example :
  minifyJS (text "var x = 1; // one
/* two */ function f ( a , b ) { return a + b ; }")
  = text "var x=1;function f(a,b){return a+b}".
Proof. vm_compute. reflexivity. Qed.


(** *** What the patterns match *)

(** [s] without its longest prefix of units that satisfy [p]. *)
Fixpoint skipWhile (p : N -> bool) (s : str) : str :=
  match s with
  | c :: s' => if p c then skipWhile p s' else s
  | [] => []
  end.

Fixpoint takeWhile (p : N -> bool) (s : str) : str :=
  match s with
  | c :: s' => if p c then c :: takeWhile p s' else []
  | [] => []
  end.

Lemma takeWhile_skipWhile (p : N -> bool) (s : str) :
  s = (takeWhile p s ++ skipWhile p s)%list.
Proof.
  induction s as [|c s IH]; simpl; [reflexivity|].
  destruct (p c); simpl; [now rewrite <- IH | reflexivity].
Qed.

Lemma skipWhile_ext (p q : N -> bool) (s : str) :
  (forall c, p c = q c) -> skipWhile p s = skipWhile q s.
Proof.
  intros H. induction s as [|c s IH]; simpl; [reflexivity|].
  rewrite <- H. now rewrite IH.
Qed.

Lemma skipWhile_first (p : N -> bool) (s : str) (c : N) (t : str) :
  skipWhile p s = c :: t -> p c = false.
Proof.
  induction s as [|x s IH]; simpl; [discriminate|].
  destruct (p x) eqn:E; [exact IH|]. now intros [= <- <-].
Qed.

Lemma skipWhile_length (p : N -> bool) (s : str) :
  (List.length (skipWhile p s) <= List.length s)%nat.
Proof.
  induction s as [|c s IH]; simpl; [lia|]. destruct (p c); simpl; lia.
Qed.

Lemma skipWhile_stop (p : N -> bool) (c : N) (s : str) :
  p c = false -> skipWhile p (c :: s) = c :: s.
Proof. intros H. simpl. now rewrite H. Qed.

(** The greedy star takes the longest run when the continuation accepts
    what follows it. *)
Lemma star_greedy_first (a : atom) (s : str) (k : str -> option result)
    (r : result) :
  k (skipWhile (test a) s) = Some r -> star true a s k = Some r.
Proof.
  induction s as [|c s IH]; simpl; [auto|].
  destruct (test a c); [|auto]. intros H. now rewrite (IH H).
Qed.

(** It fails when the continuation refuses what follows the longest run,
    and every text that starts inside the run. *)
Lemma star_greedy_none (a : atom) (s : str) (k : str -> option result) :
  (forall c s', test a c = true -> k (c :: s') = None) ->
  k (skipWhile (test a) s) = None -> star true a s k = None.
Proof.
  intros Hk. induction s as [|c s IH]; simpl; [auto|].
  destruct (test a c) eqn:E; [|auto].
  intros H. rewrite (IH H). now apply Hk.
Qed.

Lemma star_greedy (a : atom) (s : str) (k : str -> option result) :
  (forall c s', test a c = true -> k (c :: s') = None) ->
  star true a s k = k (skipWhile (test a) s).
Proof.
  intros Hk. destruct (k (skipWhile (test a) s)) as [r|] eqn:E.
  - now apply star_greedy_first.
  - now apply star_greedy_none.
Qed.

Lemma test_space (c : N) : test (Class false [Space]) c = isSpace c.
Proof. simpl. now rewrite orb_false_r. Qed.

Lemma skipWhile_space (s : str) :
  skipWhile (test (Class false [Space])) s = skipWhile isSpace s.
Proof. apply skipWhile_ext, test_space. Qed.

(** [\s+] matches the longest run of whitespace at the start. *)
Lemma exec_whitespace (multiline : bool) (s : str) :
  exec multiline whitespace s
  = match s with
    | c :: s' => if isSpace c then Some (skipWhile isSpace s', []) else None
    | [] => None
    end.
Proof.
  unfold exec, whitespace. cbn [matcher].
  destruct s as [|c s]; [reflexivity|]. rewrite test_space.
  destruct (isSpace c); [|reflexivity].
  apply star_greedy_first. now rewrite skipWhile_space.
Qed.

(** The pattern of whitespace around one mark of a class. *)
Definition around (items : list classItem) : regex :=
  Seq (Star true (Class false [Space]))
    (Seq (Group 1 (One (Class false items)))
         (Star true (Class false [Space]))).

(** [c] is one of the marks of the class. *)
Definition mark (items : list classItem) (c : N) : bool :=
  test (Class false items) c.

(** No mark is whitespace. *)
Definition solid (items : list classItem) : Prop :=
  forall c, mark items c = true -> isSpace c = false.

(** [\s*(mark)\s*] matches at the start of [s] exactly when the first
    unit after the leading whitespace is a mark; the match extends over
    the whitespace behind the mark, and the group holds the mark. *)
Lemma exec_around (multiline : bool) (items : list classItem) (s : str) :
  solid items ->
  exec multiline (around items) s
  = match skipWhile isSpace s with
    | p :: t => if mark items p
                then Some (skipWhile isSpace t, [(1%nat, [p])])
                else None
    | [] => None
    end.
Proof.
  intros Hsolid. unfold exec, around.
  rewrite matcher_seq, matcher_star, star_greedy.
  - rewrite skipWhile_space, matcher_seq, matcher_group_one.
    destruct (skipWhile isSpace s) as [|p t]; [reflexivity|].
    fold (mark items p). destruct (mark items p); [|reflexivity].
    rewrite matcher_star. apply star_greedy_first.
    now rewrite skipWhile_space.
  - intros c s' Hc. rewrite test_space in Hc.
    rewrite matcher_seq, matcher_group_one. fold (mark items c).
    destruct (mark items c) eqn:E; [|reflexivity].
    apply Hsolid in E. congruence.
Qed.

Lemma exec_semicolonBrace (multiline : bool) (s : str) :
  exec multiline semicolonBrace s
  = match s with
    | c :: d :: rest =>
        if (c =? 59) && (d =? 125) then Some (rest, []) else None
    | _ => None
    end.
Proof.
  unfold exec, semicolonBrace. cbn [matcher test].
  change (ch ";") with 59. change (ch "}") with 125.
  destruct s as [|c [|d rest]]; [reflexivity| |].
  - now destruct (c =? 59).
  - now destruct (c =? 59), (d =? 125).
Qed.
(** *** Replacement, match by match *)

Lemma replaceFrom_skip (multiline : bool) (r : regex) (by_ : list piece)
    (n : nat) (s : str) :
  (n <= List.length s)%nat ->
  replaceFrom multiline r by_ n s = replace multiline r by_ (skipn n s).
Proof.
  revert s. induction n as [|n IH]; intros s Hn; [reflexivity|].
  destruct s as [|c s]; simpl in Hn; [lia|].
  simpl. apply IH. lia.
Qed.

Lemma replace_miss (multiline : bool) (r : regex) (by_ : list piece)
    (c : N) (s : str) :
  exec multiline r (c :: s) = None ->
  replace multiline r by_ (c :: s) = c :: replace multiline r by_ s.
Proof. intros H. unfold replace. simpl. now rewrite H. Qed.

(** After a match that is not empty the search goes on behind it. *)
Lemma replace_match (multiline : bool) (r : regex) (by_ : list piece)
    (c : N) (matched rest : str) (caps : captures) :
  exec multiline r (c :: matched ++ rest) = Some (rest, caps) ->
  replace multiline r by_ (c :: matched ++ rest)
  = (substitute by_ caps ++ replace multiline r by_ rest)%list.
Proof.
  intros H. unfold replace at 1. cbn [replaceFrom]. rewrite H.
  cbn [List.length]. rewrite length_app.
  replace (S (List.length matched + List.length rest) - List.length rest)%nat
    with (S (List.length matched)) by lia.
  rewrite replaceFrom_skip by (rewrite length_app; lia).
  now rewrite skipn_app, skipn_all, Nat.sub_diag.
Qed.

(** *** Neighbours *)

(** Every two neighbours of [s] satisfy [R]. *)
Fixpoint adjacent (R : N -> N -> bool) (s : str) : bool :=
  match s with
  | a :: t =>
      match t with
      | b :: _ => R a b
      | [] => true
      end && adjacent R t
  | [] => true
  end.

Lemma adjacent_cons (R : N -> N -> bool) (a : N) (t : str) :
  adjacent R (a :: t)
  = match hd_error t with Some b => R a b | None => true end && adjacent R t.
Proof. now destruct t. Qed.

Lemma adjacent_tail (R : N -> N -> bool) (a : N) (t : str) :
  adjacent R (a :: t) = true -> adjacent R t = true.
Proof. rewrite adjacent_cons. intros H. now apply andb_true_iff in H. Qed.

Lemma adjacent_spec (R : N -> N -> bool) (s : str) :
  adjacent R s = true
  <-> forall pre a b post, s = (pre ++ a :: b :: post)%list -> R a b = true.
Proof.
  induction s as [|x s IH].
  - split; [|reflexivity]. intros _ [|y pre] a b post H; discriminate.
  - rewrite adjacent_cons, andb_true_iff, IH. split.
    + intros [H1 H2] [|y pre] a b post H.
      * injection H as -> ->. exact H1.
      * injection H as -> ->. now apply (H2 pre a b post).
    + intros H. split.
      * destruct s as [|y s]; [reflexivity|]. now apply (H [] x y s).
      * intros pre a b post ->. now apply (H (x :: pre) a b post).
Qed.

Lemma skipWhile_adjacent (R : N -> N -> bool) (p : N -> bool) (s : str) :
  adjacent R s = true -> adjacent R (skipWhile p s) = true.
Proof.
  induction s as [|c s IH]; [reflexivity|]. intros H. simpl.
  destruct (p c); [|exact H]. apply IH. now apply adjacent_tail in H.
Qed.

(** Neighbours in a minified text: not two units of whitespace, and no
    whitespace next to a mark. *)
Definition neat (items : list classItem) (a b : N) : bool :=
  negb (isSpace a && isSpace b)
  && negb (isSpace a && mark items b)
  && negb (mark items a && isSpace b).

Definition apart (a b : N) : bool := negb (isSpace a && isSpace b).

(** Every whitespace of [s] is the space character. *)
Definition plain (s : str) : Prop :=
  Forall (fun c => isSpace c = true -> c = 32) s.

Lemma plain_incl (t s : str) : incl t s -> plain s -> plain t.
Proof.
  unfold plain. rewrite !Forall_forall. intros Hi Hs c Hc. apply Hs, Hi, Hc.
Qed.

(** *** The whitespace step *)

Definition collapse (s : str) : str :=
  replace false whitespace [Keep (ch " ")] s.

Lemma collapse_step (c : N) (s : str) :
  collapse (c :: s)
  = if isSpace c then 32 :: collapse (skipWhile isSpace s)
    else c :: collapse s.
Proof.
  unfold collapse.
  pose proof (exec_whitespace false (c :: s)) as E. cbn iota in E.
  destruct (isSpace c).
  - rewrite (takeWhile_skipWhile isSpace s) at 1.
    rewrite (takeWhile_skipWhile isSpace s) in E at 1.
    now rewrite (replace_match _ _ _ _ _ E).
  - now apply replace_miss.
Qed.

Lemma collapse_nil : collapse [] = [].
Proof. reflexivity. Qed.

Lemma collapse_shape (n : nat) :
  forall s, (List.length s <= n)%nat ->
    plain (collapse s)
    /\ adjacent apart (collapse s) = true
    /\ (forall c t, s = c :: t -> isSpace c = false ->
                    hd_error (collapse s) = Some c).
Proof.
  induction n as [|n IH]; intros s Hn.
  - destruct s; [|simpl in Hn; lia]. rewrite collapse_nil.
    repeat split; [constructor | discriminate].
  - destruct s as [|c s]; [rewrite collapse_nil;
                           repeat split; [constructor | discriminate]|].
    simpl in Hn. rewrite collapse_step.
    destruct (isSpace c) eqn:Hc.
    + pose proof (skipWhile_length isSpace s) as Hl.
      destruct (IH (skipWhile isSpace s) ltac:(lia)) as (H1 & H2 & H3).
      split; [constructor; [reflexivity | exact H1]|].
      split; [|intros x t [= <- <-]; congruence].
      rewrite adjacent_cons, H2, andb_true_r.
      destruct (skipWhile isSpace s) as [|d t] eqn:Hd.
      * now rewrite collapse_nil.
      * rewrite (H3 d t eq_refl (skipWhile_first _ _ Hd)).
        unfold apart. rewrite (skipWhile_first _ _ Hd).
        now rewrite andb_false_r.
    + destruct (IH s ltac:(lia)) as (H1 & H2 & H3).
      split; [constructor; [congruence | exact H1]|].
      split; [|now intros x t [= <- <-]].
      rewrite adjacent_cons, H2, andb_true_r.
      destruct (hd_error (collapse s)); [|reflexivity].
      unfold apart. now rewrite Hc.
Qed.
Lemma replace_match_app (multiline : bool) (r : regex) (by_ : list piece)
    (matched rest : str) (caps : captures) :
  matched <> [] ->
  exec multiline r (matched ++ rest) = Some (rest, caps) ->
  replace multiline r by_ (matched ++ rest)
  = (substitute by_ caps ++ replace multiline r by_ rest)%list.
Proof.
  destruct matched as [|c m]; [now intros H|]. intros _.
  apply replace_match.
Qed.

Lemma skipWhile_incl (p : N -> bool) (s : str) : incl (skipWhile p s) s.
Proof.
  induction s as [|c s IH]; simpl; [apply incl_refl|].
  destruct (p c); [now apply incl_tl | apply incl_refl].
Qed.

(** *** The punctuation step *)

Definition tighten (items : list classItem) (s : str) : str :=
  replace false (around items) [Ref 1] s.

Lemma tighten_nil (items : list classItem) : tighten items [] = [].
Proof. reflexivity. Qed.

Lemma tighten_match (items : list classItem) (s : str) (p : N) (t : str) :
  solid items -> skipWhile isSpace s = p :: t -> mark items p = true ->
  tighten items s = p :: tighten items (skipWhile isSpace t).
Proof.
  intros Hsolid Hs Hp. pose proof (exec_around false s Hsolid) as E.
  rewrite Hs, Hp in E. unfold tighten.
  assert (Hsplit : s = ((takeWhile isSpace s ++ p :: takeWhile isSpace t)
                        ++ skipWhile isSpace t)%list).
  { rewrite <- app_assoc. cbn [app]. rewrite <- (takeWhile_skipWhile isSpace t).
    rewrite <- Hs. apply takeWhile_skipWhile. }
  assert (Hne : (takeWhile isSpace s ++ p :: takeWhile isSpace t)%list <> [])
    by now destruct (takeWhile isSpace s).
  rewrite Hsplit in E |- * at 1.
  now rewrite (@replace_match_app _ _ _ _ _ _ Hne E).
Qed.

Lemma tighten_miss (items : list classItem) (c : N) (s : str) :
  solid items ->
  match skipWhile isSpace (c :: s) with
  | p :: _ => mark items p = false
  | [] => True
  end ->
  tighten items (c :: s) = c :: tighten items s.
Proof.
  intros Hsolid H. apply replace_miss. rewrite exec_around by assumption.
  destruct (skipWhile isSpace (c :: s)) as [|p t]; [reflexivity|].
  now rewrite H.
Qed.

Lemma neat_solid (items : list classItem) (a b : N) :
  isSpace a = false -> isSpace b = false -> neat items a b = true.
Proof.
  intros Ha Hb. unfold neat. rewrite Ha, Hb.
  now destruct (mark items a).
Qed.

Lemma neat_plain (items : list classItem) (a b : N) :
  isSpace a = false -> mark items a = false -> neat items a b = true.
Proof. intros Ha Hm. unfold neat. now rewrite Ha, Hm. Qed.

Lemma tighten_shape (items : list classItem) (n : nat) :
  solid items ->
  forall s, (List.length s <= n)%nat -> adjacent apart s = true ->
    incl (tighten items s) s
    /\ adjacent (neat items) (tighten items s) = true
    /\ (forall c t, s = c :: t -> isSpace c = false ->
                    hd_error (tighten items s) = Some c).
Proof.
  intros Hsolid. induction n as [|n IH]; intros s Hn Hs.
  { destruct s; [|simpl in Hn; lia]. rewrite tighten_nil.
    repeat split; [apply incl_refl | discriminate]. }
  destruct s as [|c s].
  { rewrite tighten_nil. repeat split; [apply incl_refl | discriminate]. }
  simpl in Hn.
  destruct (skipWhile isSpace (c :: s)) as [|p t] eqn:Hsk;
    [|destruct (mark items p) eqn:Hp].
  - (* only whitespace is left *)
    rewrite tighten_miss by (try assumption; now rewrite Hsk).
    destruct (IH s ltac:(lia) (adjacent_tail _ _ _ Hs)) as (H1 & H2 & H3).
    split; [now apply incl_cons; [left | apply incl_tl]|].
    split; [|now intros x u [= <- <-]].
    rewrite adjacent_cons, H2, andb_true_r.
    simpl in Hsk. destruct (isSpace c) eqn:Hc; [|discriminate].
    destruct s as [|d s]; [now rewrite tighten_nil|].
    rewrite adjacent_cons in Hs. simpl in Hs. unfold apart in Hs.
    rewrite Hc in Hs. simpl in Hs, Hsk.
    destruct (isSpace d); [discriminate Hs | discriminate Hsk].
  - (* a mark after the whitespace *)
    rewrite (tighten_match _ Hsolid Hsk Hp).
    pose proof (skipWhile_length isSpace (c :: s)) as L1.
    pose proof (skipWhile_length isSpace t) as L2.
    rewrite Hsk in L1. simpl in L1.
    assert (Ht : adjacent apart (skipWhile isSpace t) = true).
    { apply skipWhile_adjacent. apply (adjacent_tail _ p).
      rewrite <- Hsk. now apply skipWhile_adjacent. }
    destruct (IH (skipWhile isSpace t) ltac:(lia) Ht) as (H1 & H2 & H3).
    assert (Hin : incl (p :: t) (c :: s))
      by (rewrite <- Hsk; apply skipWhile_incl).
    split.
    { apply incl_cons; [apply Hin; now left|].
      intros x Hx. apply Hin. right.
      now apply (skipWhile_incl isSpace t), H1. }
    split.
    + rewrite adjacent_cons, H2, andb_true_r.
      destruct (skipWhile isSpace t) as [|d u] eqn:Hd;
        [now rewrite tighten_nil|].
      rewrite (H3 d u eq_refl (skipWhile_first _ _ Hd)).
      apply neat_solid; [now apply Hsolid | apply (skipWhile_first _ _ Hd)].
    + intros x u [= <- <-] Hc. rewrite (@skipWhile_stop isSpace c s Hc) in Hsk.
      now injection Hsk as <- _.
  - (* no mark after the whitespace *)
    rewrite tighten_miss by (try assumption; now rewrite Hsk).
    destruct (IH s ltac:(lia) (adjacent_tail _ _ _ Hs)) as (H1 & H2 & H3).
    split; [now apply incl_cons; [left | apply incl_tl]|].
    split; [|now intros x u [= <- <-]].
    rewrite adjacent_cons, H2, andb_true_r.
    destruct (isSpace c) eqn:Hc.
    + destruct s as [|d s]; [now rewrite tighten_nil|].
      rewrite adjacent_cons in Hs. simpl in Hs. unfold apart in Hs.
      rewrite Hc in Hs. simpl in Hs, Hsk. rewrite Hc in Hsk.
      destruct (isSpace d) eqn:Hd; [discriminate Hs|].
      injection Hsk as <- <-.
      rewrite (H3 d s eq_refl Hd). unfold neat.
      rewrite Hc, Hd, Hp. now destruct (mark items c).
    + rewrite (@skipWhile_stop isSpace c s Hc) in Hsk. injection Hsk as <- <-.
      destruct (hd_error (tighten items s)); [|reflexivity].
      now apply neat_plain.
Qed.
(** *** The semicolon step *)

Definition unsemicolon (s : str) : str :=
  replace false semicolonBrace [Keep (ch "}")] s.

Lemma unsemicolon_nil : unsemicolon [] = [].
Proof. reflexivity. Qed.

Lemma unsemicolon_match (rest : str) :
  unsemicolon (59 :: 125 :: rest) = 125 :: unsemicolon rest.
Proof.
  unfold unsemicolon.
  now rewrite (@replace_match false semicolonBrace _ 59 [125] rest []).
Qed.

Lemma unsemicolon_miss (c : N) (s : str) :
  (c =? 59) && match s with d :: _ => d =? 125 | [] => false end = false ->
  unsemicolon (c :: s) = c :: unsemicolon s.
Proof.
  intros H. apply replace_miss. rewrite exec_semicolonBrace.
  destruct s as [|d s]; [reflexivity|]. now rewrite H.
Qed.

Lemma unsemicolon_shape (items : list classItem) (n : nat) :
  solid items -> mark items 59 = true -> mark items 125 = true ->
  forall s, (List.length s <= n)%nat -> adjacent (neat items) s = true ->
    incl (unsemicolon s) s
    /\ adjacent (neat items) (unsemicolon s) = true
    /\ (forall c t, s = c :: t ->
          hd_error (unsemicolon s) = Some c
          \/ (c = 59 /\ hd_error (unsemicolon s) = Some 125)).
Proof.
  intros Hsolid H59 H125.
  assert (Hneat : forall a, neat items a 59 = true -> neat items a 125 = true).
  { intros a Ha. unfold neat in *. rewrite H59 in Ha. rewrite H125.
    rewrite (Hsolid 125 H125). rewrite (Hsolid 59 H59) in Ha.
    destruct (isSpace a); [discriminate Ha|]. now destruct (mark items a). }
  induction n as [|n IH]; intros s Hn Hs.
  { destruct s; [|simpl in Hn; lia]. rewrite unsemicolon_nil.
    repeat split; [apply incl_refl | discriminate]. }
  destruct s as [|c s].
  { rewrite unsemicolon_nil. repeat split; [apply incl_refl | discriminate]. }
  simpl in Hn.
  destruct ((c =? 59) && match s with d :: _ => d =? 125 | [] => false end)
    eqn:E.
  - apply andb_true_iff in E as [Ec Ed]. apply N.eqb_eq in Ec. subst c.
    destruct s as [|d rest]; [discriminate|]. apply N.eqb_eq in Ed. subst d.
    rewrite unsemicolon_match. simpl in Hn.
    assert (Hrest : adjacent (neat items) rest = true)
      by (apply (adjacent_tail _ 125), (adjacent_tail _ 59), Hs).
    destruct (IH rest ltac:(lia) Hrest) as (H1 & H2 & H3).
    split; [apply incl_cons; [right; now left | now do 2 apply incl_tl]|].
    split; [|intros x u [= <- <-]; now right].
    rewrite adjacent_cons, H2, andb_true_r.
    destruct rest as [|d rest]; [now rewrite unsemicolon_nil|].
    apply adjacent_tail in Hs. rewrite adjacent_cons in Hs.
    apply andb_true_iff in Hs as [Hd _]. simpl in Hd.
    destruct (H3 d rest eq_refl) as [->|[-> ->]]; [exact Hd|].
    now apply Hneat.
  - rewrite (unsemicolon_miss _ _ E).
    destruct (IH s ltac:(lia) (adjacent_tail _ _ _ Hs)) as (H1 & H2 & H3).
    split; [now apply incl_cons; [left | apply incl_tl]|].
    split; [|intros x u [= <- <-]; now left].
    rewrite adjacent_cons, H2, andb_true_r.
    destruct s as [|d s]; [now rewrite unsemicolon_nil|].
    rewrite adjacent_cons in Hs. apply andb_true_iff in Hs as [Hd _].
    simpl in Hd.
    destruct (H3 d s eq_refl) as [->|[-> ->]]; [exact Hd|].
    now apply Hneat.
Qed.

(** *** Trimming *)

Lemma trimStart_skipWhile (s : str) : trimStart s = skipWhile isSpace s.
Proof.
  induction s as [|c s IH]; simpl; [reflexivity|]. now rewrite IH.
Qed.

Lemma trimEnd_head (s : str) (c : N) (t : str) :
  trimEnd s = c :: t -> hd_error s = Some c.
Proof.
  destruct s as [|x s]; simpl; [discriminate|].
  destruct (trimEnd s).
  - destruct (isSpace x); [discriminate | now intros [= <- <-]].
  - now intros [= <- <-].
Qed.

Lemma trimEnd_incl (s : str) : incl (trimEnd s) s.
Proof.
  induction s as [|x s IH]; simpl; [apply incl_refl|].
  destruct (trimEnd s) as [|y t].
  - destruct (isSpace x); [apply incl_nil_l|].
    apply incl_cons; [now left | apply incl_nil_l].
  - apply incl_cons; [now left | now apply incl_tl].
Qed.

Lemma trimEnd_adjacent (R : N -> N -> bool) (s : str) :
  adjacent R s = true -> adjacent R (trimEnd s) = true.
Proof.
  induction s as [|x s IH]; [reflexivity|]. intros H.
  pose proof (IH (adjacent_tail _ _ _ H)) as IH'. simpl.
  destruct (trimEnd s) as [|y t] eqn:E.
  - now destruct (isSpace x).
  - rewrite adjacent_cons, IH', andb_true_r. simpl.
    apply trimEnd_head in E. rewrite adjacent_cons, E in H.
    now apply andb_true_iff in H.
Qed.

Lemma trimEnd_last (s pre : str) (c : N) :
  trimEnd s = (pre ++ [c])%list -> isSpace c = false.
Proof.
  revert pre. induction s as [|x s IH]; intros pre; simpl.
  - now destruct pre.
  - destruct (trimEnd s) as [|y t].
    + destruct (isSpace x) eqn:Hx; [now destruct pre|].
      destruct pre as [|z pre]; [now intros [= <-]|].
      intros [= _ H]. now destruct pre.
    + destruct pre as [|z pre]; [intros [= _ H]; discriminate|].
      intros [= _ H]. now apply (IH pre).
Qed.

Lemma trim_shape (R : N -> N -> bool) (s : str) :
  adjacent R s = true ->
  incl (trim s) s
  /\ adjacent R (trim s) = true
  /\ (forall c rest, trim s = c :: rest -> isSpace c = false)
  /\ (forall pre c, trim s = (pre ++ [c])%list -> isSpace c = false).
Proof.
  intros H. unfold trim. rewrite trimStart_skipWhile.
  split; [|split; [|split]].
  - intros x Hx. now apply (skipWhile_incl isSpace s), trimEnd_incl.
  - now apply trimEnd_adjacent, skipWhile_adjacent.
  - intros c rest E. apply trimEnd_head in E.
    destruct (skipWhile isSpace s) as [|d t] eqn:Hd; [discriminate|].
    injection E as <-. exact (skipWhile_first _ _ Hd).
  - intros pre c E. exact (@trimEnd_last _ _ _ E).
Qed.

(** *** The shape of a minified text *)

Lemma solid_lits (marks : string) :
  Forall (fun c => isSpace c = false) (text marks) -> solid (lits marks).
Proof.
  intros Hall c Hc. unfold mark, lits in Hc. simpl in Hc.
  apply existsb_exists in Hc as (i & Hin & Hi).
  apply in_map_iff in Hin as (x & <- & Hx). simpl in Hi.
  apply N.eqb_eq in Hi. subst c.
  rewrite Forall_forall in Hall. now apply Hall.
Qed.

(** The last three steps of both minifiers, after the comments are gone
    and the whitespace is collapsed. *)
Lemma tidy_shape (items : list classItem) (s : str) :
  solid items -> mark items 59 = true -> mark items 125 = true ->
  let t := trim (unsemicolon (tighten items (collapse s))) in
  plain t
  /\ adjacent (neat items) t = true
  /\ (forall c rest, t = c :: rest -> isSpace c = false)
  /\ (forall pre c, t = (pre ++ [c])%list -> isSpace c = false).
Proof.
  intros Hsolid H59 H125. cbv zeta.
  destruct (@collapse_shape (List.length s) s (Nat.le_refl _))
    as (C1 & C2 & _).
  destruct (@tighten_shape items _ Hsolid (collapse s) (Nat.le_refl _) C2)
    as (T1 & T2 & _).
  destruct (@unsemicolon_shape items _ Hsolid H59 H125
              (tighten items (collapse s)) (Nat.le_refl _) T2)
    as (U1 & U2 & _).
  destruct (@trim_shape _ _ U2) as (R1 & R2 & R3 & R4).
  split; [|now repeat split].
  apply (plain_incl (s := collapse s)); [|exact C1].
  intros x Hx. now apply T1, U1, R1.
Qed.
Lemma plain_In (s : str) :
  plain s -> forall c, In c s -> isSpace c = true -> c = 32.
Proof. unfold plain. rewrite Forall_forall. auto. Qed.

(** X11. The shape of every text that [minifyCSS] returns, whatever the style
    sheet: its only whitespace is the space character; no two spaces are
    neighbours, and no space is the neighbour of one of the marks
    [{ } : ; , > + ~]; it neither starts nor ends with a space. *)
Theorem minifyCSS_shape (css : str) :
  let t := minifyCSS css in
  let marks := lits "{}:;,>+~" in
  (forall c, In c t -> isSpace c = true -> c = 32)
  /\ (forall pre a b post, t = (pre ++ a :: b :: post)%list ->
        neat marks a b = true)
  /\ (forall c rest, t = c :: rest -> isSpace c = false)
  /\ (forall pre c, t = (pre ++ [c])%list -> isSpace c = false).
Proof.
  cbv zeta.
  change (minifyCSS css)
    with (trim (unsemicolon (tighten (lits "{}:;,>+~")
                               (collapse (replace false blockComment [] css))))).
  assert (Hsolid : solid (lits "{}:;,>+~"))
    by (apply solid_lits; repeat constructor).
  destruct (@tidy_shape (lits "{}:;,>+~")
              (replace false blockComment [] css) Hsolid eq_refl eq_refl)
    as (H1 & H2 & H3 & H4).
  split; [now apply plain_In|].
  split; [now apply adjacent_spec|]. now split.
Qed.

(** X12. The shape of every text that [minifyJS] returns, whatever the
    script: its only whitespace is the space character; no two spaces are
    neighbours, and no space is the neighbour of one of the marks
    [{ } ( ) ; , = + - * / < > ! & |]; it neither starts nor ends with a
    space. *)
Theorem minifyJS_shape (js : str) :
  let t := minifyJS js in
  let marks := lits "{}();,=+-*/<>!&|" in
  (forall c, In c t -> isSpace c = true -> c = 32)
  /\ (forall pre a b post, t = (pre ++ a :: b :: post)%list ->
        neat marks a b = true)
  /\ (forall c rest, t = c :: rest -> isSpace c = false)
  /\ (forall pre c, t = (pre ++ [c])%list -> isSpace c = false).
Proof.
  cbv zeta.
  change (minifyJS js)
    with (trim (unsemicolon
                  (tighten (lits "{}();,=+-*/<>!&|")
                     (collapse (replace false blockComment []
                                  (replace true lineComment [] js)))))).
  assert (Hsolid : solid (lits "{}();,=+-*/<>!&|"))
    by (apply solid_lits; repeat constructor).
  destruct (@tidy_shape (lits "{}();,=+-*/<>!&|")
              (replace false blockComment []
                 (replace true lineComment [] js)) Hsolid eq_refl eq_refl)
    as (H1 & H2 & H3 & H4).
  split; [now apply plain_In|].
  split; [now apply adjacent_spec|]. now split.
Qed.
(** *** Comments *)

Lemma replace_miss_two (multiline : bool) (r : regex) (by_ : list piece)
    (c d : N) (s : str) :
  exec multiline r (c :: d :: s) = None ->
  exec multiline r (d :: s) = None ->
  replace multiline r by_ (c :: d :: s)
  = c :: d :: replace multiline r by_ s.
Proof. intros H1 H2. now rewrite !replace_miss. Qed.

(** The text behind the first [*/] of [t], if there is one. *)
Fixpoint afterClose (t : str) : option str :=
  match t with
  | c :: t' =>
      if (c =? 42) && match t' with d :: _ => d =? 47 | [] => false end
      then Some (tl t')
      else afterClose t'
  | [] => None
  end.

Lemma test_any (c : N) : test (Class false [Space; NonSpace]) c = true.
Proof. simpl. now destruct (isSpace c). Qed.

Lemma star_lazy_any (t : str) :
  star false (Class false [Space; NonSpace]) t
    (fun s' =>
       matcher false (Seq (One (Char (ch "*"))) (One (Char (ch "/")))) s' []
         (fun s'' caps' => Some (s'', caps')))
  = option_map (fun rest => (rest, [])) (afterClose t).
Proof.
  assert (Hk : forall s',
             matcher false (Seq (One (Char (ch "*"))) (One (Char (ch "/"))))
               s' [] (fun s'' caps' => Some (s'', caps'))
             = match s' with
               | c :: t' =>
                   if (c =? 42)
                      && match t' with d :: _ => d =? 47 | [] => false end
                   then Some (tl t', [])
                   else None
               | [] => None
               end).
  { intros s'. cbn [matcher test].
    change (ch "*") with 42. change (ch "/") with 47.
    destruct s' as [|c [|d rest]]; [reflexivity| |].
    - now destruct (c =? 42).
    - now destruct (c =? 42), (d =? 47). }
  induction t as [|c t IH].
  - reflexivity.
  - cbn [star]. rewrite test_any, Hk. cbn [afterClose].
    destruct ((c =? 42) && match t with d :: _ => d =? 47 | [] => false end);
      [reflexivity | exact IH].
Qed.

Lemma exec_blockComment_open (t : str) :
  exec false blockComment (47 :: 42 :: t)
  = option_map (fun rest => (rest, [])) (afterClose t).
Proof. unfold exec, blockComment. cbn [matcher test]. apply star_lazy_any. Qed.

Lemma exec_blockComment_other (c : N) (t : str) :
  c <> 47 -> exec false blockComment (c :: t) = None.
Proof.
  intros Hc. unfold exec, blockComment. cbn [matcher test].
  change (ch "/") with 47. now apply N.eqb_neq in Hc as ->.
Qed.

Lemma afterClose_suffix (t rest : str) :
  afterClose t = Some rest -> exists body, t = (body ++ rest)%list.
Proof.
  induction t as [|c t IH]; cbn [afterClose]; [discriminate|].
  destruct ((c =? 42) && match t with d :: _ => d =? 47 | [] => false end)
    eqn:E.
  - intros [= <-]. destruct t as [|d t]; [now rewrite andb_false_r in E|].
    now exists [c; d].
  - intros H. destruct (IH H) as [body ->]. now exists (c :: body).
Qed.

(** X13. A block comment ends at the first [*/] behind its opening: what follows
    it is searched for further comments, so comments do not nest. An
    opening that nothing closes is left in the text. *)
Theorem block_comment_removed (t : str) :
  replace false blockComment [] (47 :: 42 :: t)
  = match afterClose t with
    | Some rest => replace false blockComment [] rest
    | None => 47 :: 42 :: replace false blockComment [] t
    end.
Proof.
  pose proof (exec_blockComment_open t) as E.
  destruct (afterClose t) as [rest|] eqn:Ha; simpl in E.
  - destruct (afterClose_suffix _ Ha) as [body ->].
    change (47 :: 42 :: body ++ rest)%list
      with (47 :: (42 :: body) ++ rest)%list in *.
    now rewrite (@replace_match _ _ _ _ _ _ _ E).
  - apply replace_miss_two; [exact E|].
    now apply exec_blockComment_other.
Qed.

(** A quotation mark of the line comment pattern: apostrophe, double
    quotation mark or backtick. *)
Definition quote (c : N) : bool := (c =? 39) || (c =? 34) || (c =? 96).

Definition notLF (c : N) : bool := negb (c =? 10).

Definition inLine (c : N) : bool := negb (isLineTerminator c).

Lemma matcher_char (multiline : bool) (x : N) (s : str) (caps : captures)
    (k : str -> captures -> option result) :
  matcher multiline (One (Char x)) (x :: s) caps k = k s caps.
Proof. simpl. now rewrite N.eqb_refl. Qed.

Lemma lookahead_quote (t : str) :
  matcher true
    (Seq (Star true (Class true [Lit 10]))
         (One (Class false [Lit 39; Lit 34; Lit 96]))) t []
    (fun s' caps' => Some (s', caps'))
  = None
  <-> existsb quote (takeWhile notLF t) = false.
Proof.
  rewrite matcher_seq, matcher_star.
  assert (Ht : forall c, test (Class true [Lit 10]) c = notLF c).
  { intros c. unfold notLF. simpl. now rewrite orb_false_r. }
  assert (Hq : forall c, test (Class false [Lit 39; Lit 34; Lit 96]) c = quote c).
  { intros c. unfold quote. simpl. now rewrite orb_false_r, orb_assoc. }
  induction t as [|c t IH].
  - simpl. tauto.
  - cbn [star takeWhile]. rewrite Ht.
    destruct (notLF c) eqn:Hc.
    + cbn [existsb]. rewrite orb_false_iff, <- IH.
      destruct (star true (Class true [Lit 10]) t _) as [r|].
      * split; [discriminate | intros [_ H]; discriminate].
      * cbn [matcher]. rewrite Hq.
        destruct (quote c); split; try discriminate; try tauto.
        intros [H _]. discriminate.
    + cbn [matcher existsb]. rewrite Hq.
      unfold notLF in Hc. apply negb_false_iff, N.eqb_eq in Hc. subst c.
      simpl. tauto.
Qed.

Lemma rest_of_line (t : str) :
  matcher true (Seq (Star true Dot) EndOfLine) t []
    (fun s' caps' => Some (s', caps'))
  = Some (skipWhile inLine t, []).
Proof.
  rewrite matcher_seq, matcher_star.
  apply star_greedy_first.
  rewrite (skipWhile_ext (test Dot) inLine) by reflexivity.
  cbn [matcher]. destruct (skipWhile inLine t) as [|c rest] eqn:E;
    [reflexivity|].
  apply skipWhile_first in E. unfold inLine in E.
  apply negb_false_iff in E. now rewrite E.
Qed.

Lemma exec_lineComment_open (t : str) :
  exec true lineComment (47 :: 47 :: t)
  = if existsb quote (takeWhile notLF t) then None
    else Some (skipWhile inLine t, []).
Proof.
  unfold exec, lineComment. change (ch "/") with 47.
  rewrite matcher_seq, matcher_char. cbv beta.
  rewrite matcher_seq, matcher_char. cbv beta.
  rewrite matcher_seq.
  change (matcher true (NegLookahead ?r) ?s ?caps ?k)
    with (match matcher true r s caps (fun s' caps' => Some (s', caps')) with
          | Some _ => None
          | None => k s caps
          end).
  pose proof (lookahead_quote t) as H.
  destruct (matcher true _ t [] (fun s' caps' => Some (s', caps'))) as [r|].
  - destruct (existsb quote (takeWhile notLF t)); [reflexivity|].
    destruct H as [_ H]. discriminate (H eq_refl).
  - destruct H as [H _]. rewrite (H eq_refl). apply rest_of_line.
Qed.

Lemma exec_lineComment_other (c : N) (t : str) :
  c <> 47 -> exec true lineComment (c :: t) = None.
Proof.
  intros Hc. unfold exec, lineComment. cbn [matcher test].
  change (ch "/") with 47. now apply N.eqb_neq in Hc as ->.
Qed.

Lemma exec_lineComment_single (c : N) (t : str) :
  c <> 47 -> exec true lineComment (47 :: c :: t) = None.
Proof.
  intros Hc. unfold exec, lineComment. cbn [matcher test].
  change (ch "/") with 47. rewrite N.eqb_refl.
  now apply N.eqb_neq in Hc as ->.
Qed.

Lemma skipWhile_suffix (p : N -> bool) (s : str) :
  exists pre, s = (pre ++ skipWhile p s)%list.
Proof. exists (takeWhile p s). apply takeWhile_skipWhile. Qed.

(** X14. A line comment. When none of the three quotation marks comes behind
    the two slashes before the next line feed, the comment is removed up
    to the end of its line, that is up to the next line terminator or the
    end of the text, and the terminator stays. When one comes, the two
    slashes stay and the search goes on behind them. *)
Theorem line_comment_removed (t : str) :
  replace true lineComment [] (47 :: 47 :: t)
  = if existsb quote (takeWhile notLF t)
    then 47 :: 47 :: replace true lineComment [] t
    else replace true lineComment [] (skipWhile inLine t).
Proof.
  pose proof (exec_lineComment_open t) as E.
  destruct (existsb quote (takeWhile notLF t)) eqn:Hq.
  - apply replace_miss_two; [exact E|].
    destruct t as [|c t']; [reflexivity|].
    destruct (N.eq_dec c 47) as [->|Hc];
      [|now apply exec_lineComment_single].
    rewrite exec_lineComment_open.
    cbn [takeWhile existsb] in Hq. simpl in Hq. now rewrite Hq.
  - destruct (skipWhile_suffix inLine t) as [pre Hpre].
    set (rest := skipWhile inLine t) in *. clearbody rest. subst t.
    change (47 :: 47 :: pre ++ rest)%list
      with (47 :: (47 :: pre) ++ rest)%list in *.
    now rewrite (@replace_match _ _ _ _ _ _ _ E).
Qed.

(** *** What a minifier keeps *)

(** [condenses t s]: [t] is [s] with units removed and units of whitespace
    replaced by the space character; no unit is added, none is moved. *)
Inductive condenses : str -> str -> Prop :=
| condenses_nil : condenses [] []
| condenses_keep (c : N) (t s : str) :
    condenses t s -> condenses (c :: t) (c :: s)
| condenses_drop (c : N) (t s : str) : condenses t s -> condenses t (c :: s)
| condenses_blank (c : N) (t s : str) :
    isSpace c = true -> condenses t s -> condenses (32 :: t) (c :: s).

Lemma condenses_refl (s : str) : condenses s s.
Proof. induction s; now constructor. Qed.

Lemma condenses_empty (s : str) : condenses [] s.
Proof. induction s; now constructor. Qed.

Lemma condenses_app (t1 s1 t2 s2 : str) :
  condenses t1 s1 -> condenses t2 s2 ->
  condenses (t1 ++ t2)%list (s1 ++ s2)%list.
Proof.
  induction 1 as [|c t s _ IH|c t s _ IH|c t s Hc _ IH]; intros H2; simpl.
  - exact H2.
  - apply condenses_keep, IH, H2.
  - apply condenses_drop, IH, H2.
  - apply condenses_blank; [exact Hc | apply IH, H2].
Qed.

Lemma condenses_trans (a b c : str) :
  condenses a b -> condenses b c -> condenses a c.
Proof.
  intros Hab Hbc. revert a Hab.
  induction Hbc as [|x b c _ IH|x b c _ IH|x b c Hx _ IH]; intros a Hab.
  - exact Hab.
  - inversion Hab; subst.
    + apply condenses_keep. now apply IH.
    + apply condenses_drop. now apply IH.
    + apply condenses_blank; [assumption | now apply IH].
  - apply condenses_drop. now apply IH.
  - inversion Hab; subst.
    + apply condenses_blank; [exact Hx | now apply IH].
    + apply condenses_drop. now apply IH.
    + apply condenses_blank; [exact Hx | now apply IH].
Qed.

Lemma firstn_matched (matched rest : str) :
  firstn (List.length (matched ++ rest) - List.length rest)
         (matched ++ rest)%list = matched.
Proof.
  rewrite length_app.
  replace (List.length matched + List.length rest - List.length rest)%nat
    with (List.length matched + 0)%nat by lia.
  rewrite firstn_app_2. simpl. apply app_nil_r.
Qed.

(** A replacement is faithful for a pattern when, at every match, it
    condenses the text of the match. *)
Definition faithful (multiline : bool) (r : regex) (by_ : list piece)
  : Prop :=
  forall s rest caps,
    exec multiline r s = Some (rest, caps) ->
    condenses (substitute by_ caps)
              (firstn (List.length s - List.length rest) s).

Lemma replace_condenses (multiline : bool) (r : regex) (by_ : list piece)
    (s : str) :
  faithful multiline r by_ -> condenses (replace multiline r by_ s) s.
Proof.
  intros Hf.
  assert (H : forall n s, (List.length s <= n)%nat ->
                          condenses (replace multiline r by_ s) s);
    [|now apply (H (List.length s))].
  clear s. induction n as [|n IH]; intros s Hn.
  - destruct s; [|simpl in Hn; lia]. unfold replace. simpl.
    destruct (exec multiline r []) as [[rest caps]|] eqn:E; [|constructor].
    apply Hf in E. exact E.
  - destruct s as [|c s].
    { unfold replace. simpl.
      destruct (exec multiline r []) as [[rest caps]|] eqn:E; [|constructor].
      apply Hf in E. exact E. }
    simpl in Hn.
    destruct (exec multiline r (c :: s)) as [[rest caps]|] eqn:E.
    2:{ rewrite (@replace_miss _ _ by_ _ _ E). apply condenses_keep, IH. lia. }
    pose proof (Hf _ _ _ E) as H.
    pose proof (@exec_consumes _ _ _ _ _ E) as Hl.
    unfold replace. cbn [replaceFrom]. rewrite E.
    destruct (List.length (c :: s) - List.length rest)%nat as [|k] eqn:Hk.
    + simpl in H. inversion H as [E0| | |]. cbn [app].
      apply condenses_keep, IH. now apply le_S_n.
    + assert (Hks : (k <= List.length s)%nat) by (cbn [List.length] in Hk; lia).
      rewrite (@replaceFrom_skip multiline r by_ k s Hks).
      rewrite <- (firstn_skipn k s) at 2.
      change (c :: firstn k s ++ skipn k s)%list
        with (firstn (S k) (c :: s) ++ skipn k s)%list.
      apply condenses_app; [exact H|]. apply IH.
      rewrite length_skipn. lia.
Qed.
Lemma faithful_delete (multiline : bool) (r : regex) : faithful multiline r [].
Proof. intros s rest caps _. apply condenses_empty. Qed.

Lemma faithful_whitespace : faithful false whitespace [Keep (ch " ")].
Proof.
  intros s rest caps E. rewrite exec_whitespace in E.
  destruct s as [|c s]; [discriminate|].
  destruct (isSpace c) eqn:Hc; [|discriminate]. injection E as <- <-.
  pose proof (takeWhile_skipWhile isSpace s) as Hs.
  set (matched := takeWhile isSpace s) in *.
  set (rest := skipWhile isSpace s) in *. clearbody matched rest. subst s.
  change (c :: matched ++ rest)%list with ((c :: matched) ++ rest)%list.
  rewrite firstn_matched. simpl.
  apply condenses_blank; [exact Hc | apply condenses_empty].
Qed.

Lemma faithful_around (items : list classItem) :
  solid items -> faithful false (around items) [Ref 1].
Proof.
  intros Hsolid s rest caps E. rewrite exec_around in E by assumption.
  destruct (skipWhile isSpace s) as [|p t] eqn:Hs; [discriminate|].
  destruct (mark items p); [|discriminate]. injection E as <- <-.
  assert (Hsplit : s = ((takeWhile isSpace s ++ p :: takeWhile isSpace t)
                        ++ skipWhile isSpace t)%list).
  { rewrite <- app_assoc. cbn [app]. rewrite <- (takeWhile_skipWhile isSpace t).
    rewrite <- Hs. apply takeWhile_skipWhile. }
  set (before := takeWhile isSpace s) in *.
  set (behind := takeWhile isSpace t) in *.
  set (rest := skipWhile isSpace t) in *.
  clearbody before behind rest. clear Hs. subst s.
  rewrite firstn_matched. simpl.
  change [p] with ([] ++ [p])%list.
  apply condenses_app; [apply condenses_empty|].
  apply condenses_keep, condenses_empty.
Qed.

Lemma faithful_semicolonBrace :
  faithful false semicolonBrace [Keep (ch "}")].
Proof.
  intros s rest caps E. rewrite exec_semicolonBrace in E.
  destruct s as [|c [|d s]]; try discriminate.
  destruct (N.eqb_spec c 59) as [->|]; [|discriminate].
  destruct (N.eqb_spec d 125) as [->|]; [|discriminate].
  injection E as <- <-.
  change (59 :: 125 :: s) with ([59; 125] ++ s)%list.
  rewrite firstn_matched. simpl.
  apply condenses_drop, condenses_keep, condenses_nil.
Qed.

Lemma trimStart_condenses (s : str) : condenses (trimStart s) s.
Proof.
  induction s as [|c s IH]; simpl; [constructor|].
  destruct (isSpace c); [now apply condenses_drop | apply condenses_refl].
Qed.

Lemma trimEnd_condenses (s : str) : condenses (trimEnd s) s.
Proof.
  induction s as [|c s IH]; simpl; [constructor|].
  destruct (trimEnd s) as [|x t].
  - destruct (isSpace c); [apply condenses_empty|].
    apply condenses_keep, condenses_empty.
  - now apply condenses_keep.
Qed.

Lemma trim_condenses (s : str) : condenses (trim s) s.
Proof.
  unfold trim. eapply condenses_trans;
    [apply trimEnd_condenses | apply trimStart_condenses].
Qed.

Lemma condenses_In (t s : str) :
  condenses t s -> forall c, In c t -> c = 32 \/ In c s.
Proof.
  induction 1 as [|x t s _ IH|x t s _ IH|x t s Hx _ IH]; intros c Hc.
  - contradiction.
  - destruct Hc as [->|Hc]; [right; now left|].
    destruct (IH c Hc); [now left | right; now right].
  - destruct (IH c Hc); [now left | right; now right].
  - destruct Hc as [<-|Hc]; [now left|].
    destruct (IH c Hc); [now left | right; now right].
Qed.

(** X15. Both minifiers only take away: the text that [minifyCSS] or
    [minifyJS] returns is the source with units removed and with units of
    whitespace replaced by the space character. No unit is added and none
    is moved, so every unit of the result other than a space is a unit of
    the source. *)
Theorem minify_only_condenses (s : str) :
  condenses (minifyCSS s) s
  /\ condenses (minifyJS s) s
  /\ (forall c, In c (minifyCSS s) -> c = 32 \/ In c s)
  /\ (forall c, In c (minifyJS s) -> c = 32 \/ In c s).
Proof.
  assert (Hcss : condenses (minifyCSS s) s).
  { unfold minifyCSS.
    eapply condenses_trans; [apply trim_condenses|].
    eapply condenses_trans;
      [apply replace_condenses, faithful_semicolonBrace|].
    eapply condenses_trans.
    { apply replace_condenses.
      apply (@faithful_around (lits "{}:;,>+~")).
      apply solid_lits. repeat constructor. }
    eapply condenses_trans; [apply replace_condenses, faithful_whitespace|].
    apply replace_condenses, faithful_delete. }
  assert (Hjs : condenses (minifyJS s) s).
  { unfold minifyJS.
    eapply condenses_trans; [apply trim_condenses|].
    eapply condenses_trans;
      [apply replace_condenses, faithful_semicolonBrace|].
    eapply condenses_trans.
    { apply replace_condenses.
      apply (@faithful_around (lits "{}();,=+-*/<>!&|")).
      apply solid_lits. repeat constructor. }
    eapply condenses_trans; [apply replace_condenses, faithful_whitespace|].
    eapply condenses_trans; [apply replace_condenses, faithful_delete|].
    apply replace_condenses, faithful_delete. }
  split; [exact Hcss|]. split; [exact Hjs|].
  split; now apply condenses_In.
Qed.

End Build.

(* ===================================================================== *)
(** ** The build script *)
(* ===================================================================== *)

Module BuildScript.
Import Build Runner.
Local Open Scope string_scope.
Local Open Scope run_scope.

(** What a file of the working directory is when the build looks at it. *)
Inductive file : Type :=
| Absent
| Unreadable (e : Error)        (* it exists, and [readFileSync] throws *)
| Holds (content : str).

(** The working directory: its files, and the paths at which
    [writeFileSync] throws. *)
Record Disk : Type := {
  files : string -> file;
  refuses : string -> option Error
}.

(** What a build does that can be seen from outside. *)
Inductive output : Type :=
| Console (line : string)
| Sizes (originalSize minifiedSize : nat) (reduction : float)
    (* the three lines of a size report; [reduction] is the number that
       [toFixed(1)] prints *)
| Written (path : string) (content : str)
| Failed (error : Error).       (* [console.error('Build failed:', ...)] *)

Definition B (A : Type) : Type := Mon (list output) A.

Definition say (o : output) : B unit := fun t => (Normal tt, (t ++ [o])%list).

Section Script.

Variable disk : Disk.

Definition existsSync (path : string) : B bool :=
  ret (match files disk path with Absent => false | _ => true end).

Definition readFileSync (path : string) : B str :=
  match files disk path with
  | Holds content => ret content
  | Unreadable e => throw e
  | Absent =>
      throw {| message := "ENOENT: no such file or directory, open '"
                          ++ path ++ "'" |}
  end.

Definition writeFileSync (path : string) (content : str) : B unit :=
  match refuses disk path with
  | Some e => throw e
  | None => say (Written path content)
  end.

(** [build] *)
Definition build : B unit :=
  say (Console "🔥 Starting build process...") ;;
  tryCatch
    (found <- existsSync "styles.css" ;;
     when found
       (css <- readFileSync "styles.css" ;;
        let minifiedCSS := minifyCSS css in
        writeFileSync "styles.min.css" minifiedCSS ;;
        say (Console "✅ CSS minified successfully") ;;
        let originalSize := byteLength css in
        let minifiedSize := byteLength minifiedCSS in
        say (Sizes originalSize minifiedSize (reduction css minifiedCSS))) ;;
     found <- existsSync "script.js" ;;
     when found
       (js <- readFileSync "script.js" ;;
        let minifiedJS := minifyJS js in
        writeFileSync "script.min.js" minifiedJS ;;
        say (Console "✅ JavaScript minified successfully") ;;
        let originalSize := byteLength js in
        let minifiedSize := byteLength minifiedJS in
        say (Sizes originalSize minifiedSize (reduction js minifiedJS))) ;;
     say (Console "🎉 Build completed successfully!"))
    (fun error => say (Failed error) ;; exit 1%Z).

(** A source can be minified: it is absent, or it can be read and its
    minified file can be written. *)
Definition workable (source target : string) : Prop :=
  files disk source = Absent
  \/ (exists content, files disk source = Holds content)
     /\ refuses disk target = None.

Ltac run_build :=
  unfold build, existsSync, readFileSync, writeFileSync, say, when, tryCatch,
    throw, exit, bind, ret;
  destruct (files disk "styles.css") as [|e1|css] eqn:Hcss;
  [ | | destruct (refuses disk "styles.min.css") as [e2|] eqn:Hmincss];
  (destruct (files disk "script.js") as [|e3|js] eqn:Hjs;
   [ | | destruct (refuses disk "script.min.js") as [e4|] eqn:Hminjs]);
  cbn -[minifyCSS minifyJS reduction byteLength].

(** X16. What a build does, for every state of the working directory.
    It writes no file but [styles.min.css] and [script.min.js], and what it
    writes is the minified content of [styles.css], respectively of
    [script.js]. It ends normally exactly when each of the two sources is
    absent or could be read and minified into its file; otherwise it
    reports the failure and ends the process with the code 1. A failure
    on the style sheet ends the build before the script is looked at. In
    every size report the minified size is at most the original size and
    the reduction is not negative. *)
Theorem build_outcome :
  let r := build [] in
  (forall path content, In (Written path content) (snd r) ->
     (path = "styles.min.css"
      /\ exists css, files disk "styles.css" = Holds css
                     /\ content = minifyCSS css)
     \/ (path = "script.min.js"
         /\ exists js, files disk "script.js" = Holds js
                       /\ content = minifyJS js))
  /\ (fst r = Normal tt
      \/ fst r = Exit 1%Z /\ exists e, In (Failed e) (snd r))
  /\ (fst r = Normal tt
      <-> workable "styles.css" "styles.min.css"
          /\ workable "script.js" "script.min.js")
  /\ (~ workable "styles.css" "styles.min.css" ->
      forall content, ~ In (Written "script.min.js" content) (snd r))
  /\ (forall originalSize minifiedSize x,
        In (Sizes originalSize minifiedSize x) (snd r) ->
        minifiedSize <= originalSize /\ PrimFloat.ltb x 0 = false).
Proof.
  cbv zeta. split; [|split; [|split; [|split]]].
  - run_build; intros path content H;
      repeat (destruct H as [H|H]; [try discriminate H; injection H as <- <-|]);
      try contradiction; eauto 6.
  - run_build;
      first [ left; reflexivity
            | right; split; [reflexivity|]; eexists;
              cbn -[minifyCSS minifyJS reduction byteLength];
              repeat first [left; reflexivity | right] ].
  - unfold workable.
    run_build; split;
      try (intros _; split;
           first [ now left
                 | right; split; [eexists; reflexivity | reflexivity] ]);
      try discriminate;
      intros [[H1|[[c1 H1] H1']] [H2|[[c2 H2] H2']]]; congruence.
  - unfold workable.
    run_build; intros Hw content H;
      repeat (destruct H as [H|H]; [try discriminate H|]);
      try contradiction;
      apply Hw;
      first [now left | right; split; [eexists; reflexivity | reflexivity]].
  - run_build; intros o m x H;
      repeat (destruct H as [H|H]; [try discriminate H|]);
      try contradiction; injection H as <- <- <-;
      first [ destruct (minifyCSS_noLonger css) as [Hl Hb];
              split; [exact Hb | apply reduction_not_negative; now split]
            | destruct (minifyJS_noLonger js) as [Hl Hb];
              split; [exact Hb | apply reduction_not_negative; now split] ].
Qed.

End Script.

End BuildScript.

(* ===================================================================== *)
(** ** The cross-browser tests *)
(* ===================================================================== *)

Module Browser.
Import JsObject Runner.
Local Open Scope string_scope.
Local Open Scope run_scope.

(** The configuration of [browser-test.js]; its [viewports] only enter the
    text of the generated test file and of the summary. *)
Record Config : Type := {
  url : string;
  outputDir : string;
  browsers : list string
}.

Definition CONFIG : Config := {|
  url := "http://localhost:8000";
  outputDir := "./browser-test-reports";
  browsers := ["chromium"; "firefox"; "webkit"]
|}.

(** What the world outside the script decides during one run. *)
Record World : Type := {
  serverUp : bool;                  (* the [curl] probe succeeds *)
  writeTest : option Error;         (* writing the test file throws *)
  playwrightInstall : bool;         (* [npx playwright install] succeeds *)
  playwrightTest : nat -> string -> option Error;
      (* the n-th test run, for the given browser, throws *)
  writeSummary : option Error       (* writing the summary throws *)
}.

Inductive event : Type :=
| Probed (ok : bool)
| Generated                           (* the test file is written *)
| Installed (ok : bool)
| Tested (browser : string) (ok : bool)
| Summarized (results : obj string).  (* the summary is written *)

(** The state of a run: what has happened, the number of test runs made
    and the local [results] object. *)
Record State : Type := {
  trace : list event;
  runs : nat;
  results : obj string
}.

Definition initial : State := {| trace := []; runs := 0; results := empty |}.

Definition M (A : Type) : Type := Mon State A.

Definition emit (e : event) : M unit :=
  fun st => (Normal tt, {| trace := trace st ++ [e]; runs := runs st;
                           results := results st |}).

(** [results[browser] = status] *)
Definition record (browser status : string) : M unit :=
  fun st => (Normal tt, {| trace := trace st; runs := runs st;
                           results := set (results st) browser status |}).

Definition getResults : M (obj string) :=
  fun st => (Normal (results st), st).

Section Run.

Variable cfg : Config.
Variable w : World.

(** [execSync(`curl ...`)] *)
Definition curl : M unit :=
  if serverUp w then emit (Probed true)
  else emit (Probed false) ;; throw {| message := "Command failed: curl" |}.

(** [generatePlaywrightTest()] *)
Definition generatePlaywrightTest : M unit :=
  match writeTest w with
  | Some e => throw e
  | None => emit Generated
  end.

(** [execSync('npx playwright install')] *)
Definition install : M unit :=
  if playwrightInstall w then emit (Installed true)
  else emit (Installed false) ;;
       throw {| message := "Command failed: npx playwright install" |}.

(** [execSync(testCmd)] for one browser. *)
Definition runTest (browser : string) : M unit :=
  fun st =>
    match playwrightTest w (runs st) browser with
    | None =>
        (Normal tt, {| trace := trace st ++ [Tested browser true];
                       runs := S (runs st); results := results st |})
    | Some e =>
        (Thrown e, {| trace := trace st ++ [Tested browser false];
                      runs := S (runs st); results := results st |})
    end.

(** [for (const browser of CONFIG.browsers) { try ... catch ... }] *)
Fixpoint testEach (bs : list string) : M unit :=
  match bs with
  | [] => ret tt
  | browser :: rest =>
      tryCatch (runTest browser ;; record browser "PASSED")
               (fun _ => record browser "FAILED") ;;
      testEach rest
  end.

Definition writeFileSync (results : obj string) : M unit :=
  match writeSummary w with
  | Some e => throw e
  | None => emit (Summarized results)
  end.

(** [runBrowserTests] *)
Definition runBrowserTests : M bool :=
  tryCatch
    (tryCatch curl (fun _ => exit 1%Z) ;;
     generatePlaywrightTest ;;
     tryCatch install (fun _ => ret tt) ;;
     testEach (browsers cfg) ;;
     results <- getResults ;;
     writeFileSync results ;;
     let allPassed :=
       every (fun status => String.eqb status "PASSED") (values results) in
     if allPassed then ret true else ret false)
    (fun error => ret false).

(** The entry point: [runBrowserTests().then(success =>
    process.exit(success ? 0 : 1))]. *)
Definition main : Z :=
  match fst (runBrowserTests initial) with
  | Normal success => if success then 0%Z else 1%Z
  | Thrown _ => 1%Z
  | Exit code => code
  end.

(** *** The loop over the browsers *)





(** The run that decides the status of [browser]: the last one. *)
Fixpoint lastRun (bs : list string) (n : nat) (browser : string)
  : option nat :=
  match bs with
  | [] => None
  | b :: rest =>
      match lastRun rest (S n) browser with
      | Some i => Some i
      | None => if String.eqb b browser then Some n else None
      end
  end.



Lemma lastRun_In (bs : list string) (n : nat) (browser : string) :
  In browser bs -> exists i, lastRun bs n browser = Some i.
Proof.
  revert n. induction bs as [|b rest IH]; intros n; [intros []|].
  intros [->|Hin]; cbn [lastRun].
  - rewrite String.eqb_refl. destruct (lastRun rest (S n) browser); eauto.
  - destruct (IH (S n) Hin) as [i ->]. eauto.
Qed.





End Run.

End Browser.

(* ===================================================================== *)
(** ** The deployment verification *)
(* ===================================================================== *)

Module Deployment.
Import JsObject Runner Build.
Local Open Scope string_scope.
Local Open Scope run_scope.

Record Config : Type := {
  domain : string;
  githubRepo : string;
  outputDir : string
}.

Definition CONFIG : Config := {|
  domain := "www.autoracex.dev";
  githubRepo := "autoracex/toukon_elixir";
  outputDir := "./deployment-test-reports"
|}.

(** What a file of the repository is when the script looks at it. *)
Inductive file : Type :=
| Missing
| Unreadable (e : Error)        (* it exists, and [readFileSync] throws *)
| Content (units : str).

(** The peer certificate of a response, as far as the script reads it:
    whether its [subject] and its [issuer] are there. The empty object
    that stands for no certificate has neither. *)
Record Certificate : Type := {
  hasSubject : bool;
  hasIssuer : bool
}.

(** What [checkHTTPS] resolves to; [certificate] is [None] for [null]. *)
Record Response : Type := {
  statusCode : Z;
  body : str;
  certificate : option Certificate
}.

Inductive reply : Type :=
| Rejects (e : Error)
| Resolves (response : Response).

(** What the world outside the script decides during one run. *)
Record World : Type := {
  workflow : file;                  (* [.github/workflows/deploy.yml] *)
  cname : file;                     (* [CNAME] *)
  https : nat -> reply;             (* the n-th request to the domain *)
  now : string;                     (* [new Date().toISOString()] *)
  pathJoin : string -> string -> string;
  writeReport : option Error        (* writing the report throws *)
}.

Record Summary : Type := {
  totalTests : nat;
  passed : nat;
  failed : nat
}.

Record ReportT : Type := {
  timestamp : string;
  reportDomain : string;
  reportRepo : string;
  results : obj Report.SuiteResult;
  summary : Summary
}.

(** The state of a run: the number of requests made, the local [results]
    object and the reports written, with their paths. *)
Record State : Type := {
  requests : nat;
  recorded : obj Report.SuiteResult;
  written : list (string * ReportT)
}.

Definition initial : State :=
  {| requests := 0; recorded := empty; written := [] |}.

Definition M (A : Type) : Type := Mon State A.

Definition existsSync (f : file) : bool :=
  match f with
  | Missing => false
  | _ => true
  end.

Definition readFileSync (path : string) (f : file) : M str :=
  match f with
  | Content units => ret units
  | Unreadable e => throw e
  | Missing =>
      throw {| message := "ENOENT: no such file or directory, open '"
                          ++ path ++ "'" |}
  end.

(** [s.startsWith(p)] and [s.includes(sub)] on code units. *)
Fixpoint startsWith (p s : str) : bool :=
  match p, s with
  | [], _ => true
  | a :: p', b :: s' => N.eqb a b && startsWith p' s'
  | _ :: _, [] => false
  end.

Fixpoint includes (sub s : str) : bool :=
  match s with
  | [] => startsWith sub s
  | _ :: s' => startsWith sub s || includes sub s'
  end.

Section Run.

Variable cfg : Config.
Variable w : World.

(** [checkHTTPS(CONFIG.domain)], awaited. *)
Definition checkHTTPS : M Response :=
  fun st =>
    let st' := {| requests := S (requests st); recorded := recorded st;
                  written := written st |} in
    match https w (requests st) with
    | Rejects e => (Thrown e, st')
    | Resolves response => (Normal response, st')
    end.

Definition requiredComponents : list string :=
  ["name:"; "on:"; "push:"; "jobs:"; "runs-on:"; "actions/checkout";
   "actions/setup-node"; "npm run build"; "actions/deploy-pages"].

(** [verifyGitHubActions]. The listing of the recent workflow runs only
    writes to the console, and what it throws is caught on the spot. *)
Definition verifyGitHubActions : M bool :=
  tryCatch
    (if negb (existsSync (workflow w)) then ret false
     else
       workflowContent <-
         readFileSync ".github/workflows/deploy.yml" (workflow w) ;;
       let missingComponents :=
         filter (fun component =>
                   negb (includes (text component) workflowContent))
                requiredComponents in
       if (0 <? List.length missingComponents)%nat then ret false
       else ret true)
    (fun error => ret false).

(** Reading [cert.subject.CN] and [cert.issuer.O]. *)
Definition readCertificate (cert : Certificate) : M unit :=
  (if hasSubject cert then ret tt
   else throw {| message :=
     "Cannot read properties of undefined (reading 'CN')" |}) ;;
  (if hasIssuer cert then ret tt
   else throw {| message :=
     "Cannot read properties of undefined (reading 'O')" |}).

(** [verifyDomainAndHTTPS]. The validity dates of the certificate and the
    content of the page only decide what is written to the console. *)
Definition verifyDomainAndHTTPS : M bool :=
  tryCatch
    (if negb (existsSync (cname w)) then ret false
     else
       content <- readFileSync "CNAME" (cname w) ;;
       let cnameContent := trim content in
       if list_eq_dec N.eq_dec cnameContent (text (domain cfg)) then
         response <- checkHTTPS ;;
         if (statusCode response =? 200)%Z then
           match certificate response with
           | Some cert => readCertificate cert
           | None => ret tt
           end ;;
           ret true
         else ret false
       else ret false)
    (fun error => ret false).

(** *** The meta tags *)

(** The first match of [r] in [s]: [s.match(r)] for a pattern without
    the [g] flag. *)
Fixpoint search (r : regex) (s : str) : option result :=
  match exec false r s with
  | Some found => Some found
  | None =>
      match s with
      | [] => None
      | _ :: s' => search r s'
      end
  end.

(** The characters [c], [rest] one after the other. *)
Fixpoint chars (c : N) (rest : str) : regex :=
  match rest with
  | [] => One (Char c)
  | d :: rest' => Seq (One (Char c)) (chars d rest')
  end.

(** A literal text; the empty text is the star of the empty class. *)
Definition units (s : str) : regex :=
  match s with
  | c :: rest => chars c rest
  | [] => Star true (Class false [])
  end.

(** The pattern of a tag: an opening text, a group of one or more units
    other than [stop], and a closing text. *)
Definition tag (opening : str) (stop : N) (closing : str) : regex :=
  Seq (units opening)
      (Seq (Group 1 (Plus true (Class true [Lit stop]))) (units closing)).

(** The quotation mark. *)
Definition quotationMark : N := 34.

(** The opening text of an element with two attributes, the first with a
    given value: an angle bracket and [name], a space, [key], an equals
    sign and [value] between quotation marks, a space, [attribute], an
    equals sign and a quotation mark. *)
Definition opening (name key value attribute : string) : str :=
  (text ("<" ++ name ++ " " ++ key ++ "=") ++ [quotationMark]
   ++ text value ++ [quotationMark]
   ++ text (" " ++ attribute ++ "=") ++ [quotationMark])%list.

(** The pattern of such an element whose second attribute has a value
    that is not empty: the opening, the group of units other than
    quotation marks, and a quotation mark. *)
Definition element (name key value attribute : string) : regex :=
  tag (opening name key value attribute) quotationMark [quotationMark].

Record check : Type := {
  name : string;
  pattern : regex;
  required : bool
}.

(** The [metaChecks] of [verifySEOAndMetadata] (lines 247-257). *)
Definition metaChecks : list check :=
  [ {| name := "Title";
       pattern := tag (text "<title>") (ch "<") (text "</title>");
       required := true |};
    {| name := "Description";
       pattern := element "meta" "name" "description" "content";
       required := true |};
    {| name := "OG Title";
       pattern := element "meta" "property" "og:title" "content";
       required := true |};
    {| name := "OG Description";
       pattern := element "meta" "property" "og:description" "content";
       required := true |};
    {| name := "OG Image";
       pattern := element "meta" "property" "og:image" "content";
       required := true |};
    {| name := "OG URL";
       pattern := element "meta" "property" "og:url" "content";
       required := true |};
    {| name := "Twitter Card";
       pattern := element "meta" "name" "twitter:card" "content";
       required := true |};
    {| name := "Canonical URL";
       pattern := element "link" "rel" "canonical" "href";
       required := true |};
    {| name := "Theme Color";
       pattern := element "meta" "name" "theme-color" "content";
       required := false |} ].

(** The loop over the checks, with its flag [allPassed]. *)
Definition checkAll (checks : list check) (html : str) : bool :=
  fold_left
    (fun allPassed c =>
       match search (pattern c) html with
       | Some _ => allPassed
       | None => if required c then false else allPassed
       end)
    checks true.

(** [verifySEOAndMetadata]. The checks of the structured data and of the
    favicon only write to the console; the parse errors of the former are
    caught on the spot. *)
Definition verifySEOAndMetadata : M bool :=
  tryCatch
    (response <- checkHTTPS ;;
     if negb (statusCode response =? 200)%Z then ret false
     else
       let html := body response in
       let allPassed := checkAll metaChecks html in
       ret allPassed)
    (fun error => ret false).

(** *** The report and the run *)

Definition summarize (results : obj Report.SuiteResult) : Summary :=
  {| totalTests := List.length (keys results);
     passed := List.length (filter (Report.statusIs "PASSED") (values results));
     failed := List.length (filter (Report.statusIs "FAILED") (values results))
  |}.

(** [generateReport(results)] *)
Definition generateReport (results : obj Report.SuiteResult) : M ReportT :=
  let timestamp := now w in
  let report :=
    {| timestamp := timestamp;
       reportDomain := domain cfg;
       reportRepo := githubRepo cfg;
       results := results;
       summary := summarize results |} in
  let reportPath :=
    pathJoin w (outputDir cfg)
      ("deployment-test-" ++ hyphenate timestamp ++ ".json") in
  match writeReport w with
  | Some e => throw e
  | None =>
      fun st => (Normal report,
                 {| requests := requests st; recorded := recorded st;
                    written := (written st ++ [(reportPath, report)])%list |})
  end.

(** [results[name] = result] *)
Definition record (name : string) (result : Report.SuiteResult) : M unit :=
  fun st => (Normal tt, {| requests := requests st;
                           recorded := set (recorded st) name result;
                           written := written st |}).

Definition getResults : M (obj Report.SuiteResult) :=
  fun st => (Normal (recorded st), st).

Definition verdictOf (ok : bool) (description : string)
  : Report.SuiteResult :=
  [("status", if ok then "PASSED" else "FAILED");
   ("description", description)].

Definition failureOf (description : string) (error : Error)
  : Report.SuiteResult :=
  [("status", "FAILED"); ("description", description);
   ("error", message error)].

(** [runDeploymentTests] *)
Definition runDeploymentTests : M bool :=
  tryCatch
    (workflowResult <- verifyGitHubActions ;;
     record "githubActions"
       (verdictOf workflowResult
          "GitHub Actions workflow configuration and execution"))
    (fun error =>
       record "githubActions"
         (failureOf "GitHub Actions workflow configuration and execution"
            error)) ;;
  tryCatch
    (domainResult <- verifyDomainAndHTTPS ;;
     record "domainHTTPS"
       (verdictOf domainResult
          "Custom domain configuration and HTTPS connectivity"))
    (fun error =>
       record "domainHTTPS"
         (failureOf "Custom domain configuration and HTTPS connectivity"
            error)) ;;
  tryCatch
    (seoResult <- verifySEOAndMetadata ;;
     record "seoMetadata"
       (verdictOf seoResult "SEO optimization and metadata validation"))
    (fun error =>
       record "seoMetadata"
         (failureOf "SEO optimization and metadata validation" error)) ;;
  results <- getResults ;;
  report <- generateReport results ;;
  ret (failed (summary report) =? 0)%nat.

(** The entry point: [runDeploymentTests().then(success =>
    process.exit(success ? 0 : 1)).catch(error => process.exit(1))]. *)
Definition main : Z :=
  match fst (runDeploymentTests initial) with
  | Normal success => if success then 0%Z else 1%Z
  | Thrown _ => 1%Z
  | Exit code => code
  end.

(** *** The verdict on the workflow *)

Lemma startsWith_prefix (p s : str) :
  startsWith p s = true <-> exists post, s = (p ++ post)%list.
Proof.
  revert s. induction p as [|a p IH]; intros s; simpl.
  - split; [intros _; now exists s | reflexivity].
  - destruct s as [|b s].
    + split; [discriminate | intros [post H]; discriminate].
    + rewrite andb_true_iff, N.eqb_eq, IH. split.
      * intros [-> [post ->]]. now exists post.
      * intros [post [= -> ->]]. split; [reflexivity | now exists post].
Qed.

(** [sub] occurs in [s]. *)
Definition occurs (sub s : str) : Prop :=
  exists pre post, s = (pre ++ sub ++ post)%list.

Lemma includes_occurs (sub s : str) : includes sub s = true <-> occurs sub s.
Proof.
  unfold occurs. induction s as [|c s IH].
  - simpl includes. rewrite startsWith_prefix. split.
    + intros [post H]. now exists [], post.
    + intros [pre [post H]]. destruct pre; [now exists post | discriminate].
  - simpl includes. rewrite orb_true_iff, IH, startsWith_prefix. split.
    + intros [[post H]|[pre [post H]]].
      * now exists [], post.
      * exists (c :: pre), post. simpl. now rewrite H.
    + intros [[|x pre] [post H]].
      * left. now exists post.
      * right. injection H as _ H. now exists pre, post.
Qed.

(** X18. [verifyGitHubActions] returns, having changed nothing; it returns
    [true] exactly when the workflow file exists, can be read, and holds
    each of the nine required texts somewhere. *)
Theorem workflow_verdict (st : State) :
  exists ok,
    verifyGitHubActions st = (Normal ok, st)
    /\ (ok = true <->
        exists content,
          workflow w = Content content
          /\ forall component, In component requiredComponents ->
                               occurs (text component) content).
Proof.
  unfold verifyGitHubActions, tryCatch, readFileSync, bind, ret, throw.
  destruct (workflow w) as [|e|content]; simpl existsSync; cbn iota beta.
  - exists false. split; [reflexivity|].
    split; [discriminate | intros (c & H & _); discriminate].
  - exists false. split; [reflexivity|].
    split; [discriminate | intros (c & H & _); discriminate].
  - pose proof (Report.filter_none
                  (fun component => negb (includes (text component) content))
                  requiredComponents) as Hnone.
    destruct (List.length (filter _ requiredComponents)) as [|n] eqn:E.
    + exists true. split; [reflexivity|]. split; [|reflexivity].
      intros _. exists content. split; [reflexivity|].
      intros component Hin. apply includes_occurs.
      destruct Hnone as [Hnone _]. specialize (Hnone eq_refl component Hin).
      now apply negb_false_iff.
    + exists false. split; [reflexivity|]. split; [discriminate|].
      intros (c & [= <-] & Hall). destruct Hnone as [_ Hnone].
      assert (H0 : S n = 0); [|discriminate].
      apply Hnone. intros component Hin. apply negb_false_iff.
      now apply includes_occurs, Hall.
Qed.

(** *** The verdict on the domain *)


(** *** The verdict on the meta tags *)






Definition other (stop c : N) : bool := negb (c =? stop)%N.










(** *** The run *)






End Run.

End Deployment.
